(** * StringZilla: scalar and vector substring search, embedded and verified

    A shallow embedding of [stringzilla/stringzilla.h]: the single-byte
    counter, the 1/2/3/4-byte SWAR kernels, the general scalar scanner
    with its 4-byte anomaly prefilter, and the AVX2 and NEON scanners.

    Conventions of the embedding.
    - A [char const *] with its length is a list of bytes; for the haystack
      the numeric address of its first byte is kept too, because the
      kernels test [(uint64_t)h_ptr % 8].  A pointer into a buffer is the
      [Z] offset from its start.
    - Every load is guarded: reading outside the list yields [BadRead].
    - [uint64_t] values are [Z] in [0, 2^64) with wrap-around written out.
    - Plain [char] is signed or unsigned depending on the target ABI (signed
      on the x86 targets of the AVX2 scanner, unsigned on most ARM targets
      of the NEON scanner); the kernels take the signedness as the
      parameter [char_signed].
    - Loops run on fuel; [NoFuel] is a separate outcome, never reached from
      the entry points. *)

From Stdlib Require Import ZArith List Lia Bool.
From Stdlib.Strings Require Import Byte.
From Stdlib.Strings Require String.
Import ListNotations.
Local Open Scope Z_scope.

(** ** Outcomes and control flow *)

Inductive res (A : Type) : Type :=
| Ret (a : A)
| BadRead
| NoFuel.
Arguments Ret {A} a.
Arguments BadRead {A}.
Arguments NoFuel {A}.

Definition bind {A B : Type} (m : res A) (k : A -> res B) : res B :=
  match m with
  | Ret a => k a
  | BadRead => BadRead
  | NoFuel => NoFuel
  end.

Notation "x <- m ;; k" := (bind m (fun x => k))
  (at level 61, m at next level, right associativity).

(** What one pass through a loop body does: fall through to the next
    iteration with a new state, or [return r] from the enclosing function. *)
Inductive flow (S R : Type) : Type :=
| Next (s : S)
| Return (r : R).
Arguments Next {S R} s.
Arguments Return {S R} r.

(** [for (; cond; step) body], the step folded into the body. *)
Fixpoint for_loop {S R : Type} (fuel : nat) (cond : S -> bool)
    (body : S -> res (flow S R)) (s : S) : res (flow S R) :=
  match fuel with
  | O => NoFuel
  | Datatypes.S fuel' =>
      if cond s then
        match body s with
        | Ret (Next s') => for_loop fuel' cond body s'
        | Ret (Return r) => Ret (Return r)
        | BadRead => BadRead
        | NoFuel => NoFuel
        end
      else Ret (Next s)
  end.

(** Code after a loop runs only when the loop did not return. *)
Definition and_then {S R : Type} (m : res (flow S R)) (k : S -> res R) : res R :=
  match m with
  | Ret (Next s) => k s
  | Ret (Return r) => Ret r
  | BadRead => BadRead
  | NoFuel => NoFuel
  end.

Notation "s <~ m ;; k" := (and_then m (fun s => k))
  (at level 61, m at next level, right associativity).

(** ** Bytes, buffers and guarded loads *)

Definition u8 (b : byte) : Z := Z.of_N (Byte.to_N b).

Definition blen (l : list byte) : Z := Z.of_nat (length l).

Definition read_bytes (l : list byte) (i n : Z) : res (list byte) :=
  if (0 <=? i) && (0 <=? n) && (i + n <=? blen l)
  then Ret (firstn (Z.to_nat n) (skipn (Z.to_nat i) l))
  else BadRead.

Definition read_byte (l : list byte) (i : Z) : res byte :=
  if (0 <=? i) && (i <? blen l)
  then Ret (nth (Z.to_nat i) l x00)
  else BadRead.

(** Little-endian reinterpretation of bytes as an integer. *)
Fixpoint le_combine (bs : list byte) : Z :=
  match bs with
  | [] => 0
  | b :: t => Z.lor (u8 b) (Z.shiftl (le_combine t) 8)
  end.

(** [memcpy(&word, p, n)] or [*(uintN_t const * )p] on a little-endian target. *)
Definition load_le (l : list byte) (i n : Z) : res Z :=
  bs <- read_bytes l i n ;; Ret (le_combine bs).

(** ** 64-bit words *)

Definition wrap64 (x : Z) : Z := x mod 2 ^ 64.
Definition shl64 (x k : Z) : Z := wrap64 (Z.shiftl x k).
Definition not64 (x : Z) : Z := wrap64 (Z.lnot x).
Definition add64 (x y : Z) : Z := wrap64 (x + y).

Fixpoint ctz_pos (p : positive) : Z :=
  match p with
  | xO q => 1 + ctz_pos q
  | _ => 0
  end.

(** [__builtin_ctzll]; the builtin is undefined at 0, the model answers 64. *)
Definition ctzll (m : Z) : Z :=
  match m with
  | Zpos p => ctz_pos p
  | _ => 64
  end.

Fixpoint popcount_pos (p : positive) : Z :=
  match p with
  | xH => 1
  | xO q => popcount_pos q
  | xI q => 1 + popcount_pos q
  end.

(** [__builtin_popcountll] on a 64-bit pattern. *)
Definition popcountll (m : Z) : Z :=
  match m with
  | Zpos p => popcount_pos p
  | _ => 0
  end.

(** ** The data model *)

(** [strzl_haystack_t]: [ptr] is carried as the address [h_addr] and the
    [len] readable bytes [h_bytes] behind it. *)
Record strzl_haystack_t : Type := mk_haystack {
  h_addr : Z;
  h_bytes : list byte
}.

Definition h_len (h : strzl_haystack_t) : Z := blen (h_bytes h).

(** [strzl_needle_t]: the [len] bytes behind [ptr], and [anomaly_offset]. *)
Record strzl_needle_t : Type := mk_needle {
  n_bytes : list byte;
  anomaly_offset : Z
}.

Definition n_len (n : strzl_needle_t) : Z := blen (n_bytes n).

(** The bytes [{h_ptr, tail_len}] left of a haystack from offset [i] on. *)
Definition h_from (h : strzl_haystack_t) (i : Z) : strzl_haystack_t :=
  mk_haystack (h_addr h + i) (skipn (Z.to_nat i) (h_bytes h)).

(** The bytes [{h.ptr, k}]: the first [k] bytes of a haystack. *)
Definition h_upto (h : strzl_haystack_t) (k : Z) : strzl_haystack_t :=
  mk_haystack (h_addr h) (firstn (Z.to_nat k) (h_bytes h)).

Definition loop_fuel (h : strzl_haystack_t) : nat := Datatypes.S (length (h_bytes h)).

(** ** [strzl_equal] *)

(** [while (a != a_end && *a == *b) a++, b++; return a_end == a;] with the
    distance to [a_end] as the structural argument. *)
Fixpoint strzl_equal (a : list byte) (ai : Z) (b : list byte) (bi : Z)
    (len : nat) : res bool :=
  match len with
  | O => Ret true
  | Datatypes.S k =>
      x <- read_byte a ai ;;
      y <- read_byte b bi ;;
      if Byte.eqb x y then strzl_equal a (ai + 1) b (bi + 1) k else Ret false
  end.

(** ** Short-circuit comparisons *)

(** [a && b] of C: [b] is evaluated, and its bytes read, only when [a] holds. *)
Definition and_also (a b : res bool) : res bool :=
  x <- a ;; if x then b else Ret false.

Notation "a &&& b" := (and_also a b) (at level 40, left associativity).

(** [h_ptr[j] == n[j]] *)
Definition same_char (hb : list byte) (i : Z) (n : list byte) (j : Z) : res bool :=
  x <- read_byte hb (i + j) ;;
  y <- read_byte n j ;;
  Ret (Byte.eqb x y).

(** ** Scalar kernels *)

Section Scalar.

Variable char_signed : bool.

(** [uint64_t(c)] for a plain [char c]: sign-extended when [char] is signed. *)
Definition char_to_u64 (c : byte) : Z :=
  if char_signed && (128 <=? u8 c) then wrap64 (u8 c - 256) else u8 c.

(** The template [nnnnnnnn] of [strzl_naive_count_char] and
    [strzl_naive_find_char]. *)
Definition char_template (n : byte) : Z :=
  let nnnnnnnn := char_to_u64 n in
  let nnnnnnnn := Z.lor nnnnnnnn (shl64 nnnnnnnn 8) in
  let nnnnnnnn := Z.lor nnnnnnnn (shl64 nnnnnnnn 16) in
  let nnnnnnnn := Z.lor nnnnnnnn (shl64 nnnnnnnn 32) in
  nnnnnnnn.

(** The five statements computing [match_indicators], the same text in the
    counter and in the finder. *)
Definition char_indicators (h_slice nnnnnnnn : Z) : Z :=
  let m := not64 (Z.lxor h_slice nnnnnnnn) in
  let m := Z.land m (Z.shiftr m 1) in
  let m := Z.land m (Z.shiftr m 2) in
  let m := Z.land m (Z.shiftr m 4) in
  Z.land m 0x0101010101010101.

Definition strzl_naive_count_char (h : strzl_haystack_t) (n : byte) : res Z :=
  let hb := h_bytes h in
  let count_byte (s : Z * Z) : res (flow (Z * Z) Z) :=
    let '(i, result) := s in
    c <- read_byte hb i ;;
    Ret (Next (i + 1, add64 result (Z.b2z (Byte.eqb c n)))) in
  s <~ for_loop (loop_fuel h)
         (fun s => negb ((h_addr h + fst s) mod 8 =? 0) && (fst s <? h_len h))
         count_byte (0, 0) ;;
  let nnnnnnnn := char_template n in
  s <~ for_loop (loop_fuel h)
         (fun s => fst s + 8 <=? h_len h)
         (fun s =>
            let '(i, result) := s in
            h_slice <- load_le hb i 8 ;;
            let match_indicators := char_indicators h_slice nnnnnnnn in
            Ret (Next (i + 8, add64 result (popcountll match_indicators))))
         s ;;
  s <~ for_loop (loop_fuel h) (fun s => fst s <? h_len h) count_byte s ;;
  Ret (snd s).

Definition strzl_naive_find_char (h : strzl_haystack_t) (n : byte) : res Z :=
  let hb := h_bytes h in
  let test_byte (i : Z) : res (flow Z Z) :=
    c <- read_byte hb i ;;
    if Byte.eqb c n then Ret (Return i) else Ret (Next (i + 1)) in
  i <~ for_loop (loop_fuel h)
         (fun i => negb ((h_addr h + i) mod 8 =? 0) && (i <? h_len h))
         test_byte 0 ;;
  let nnnnnnnn := char_template n in
  i <~ for_loop (loop_fuel h)
         (fun i => i + 8 <=? h_len h)
         (fun i =>
            h_slice <- load_le hb i 8 ;;
            let match_indicators := char_indicators h_slice nnnnnnnn in
            if negb (match_indicators =? 0)
            then Ret (Return (i + ctzll match_indicators / 8))
            else Ret (Next (i + 8)))
         i ;;
  i <~ for_loop (loop_fuel h) (fun i => i <? h_len h) test_byte i ;;
  Ret (h_len h).

(** The template [nnnn] of [strzl_naive_find_2chars]. *)
Definition template_2chars (n0 n1 : byte) : Z :=
  let nnnn := Z.lor (shl64 (char_to_u64 n0) 0) (shl64 (char_to_u64 n1) 8) in
  let nnnn := Z.lor nnnn (shl64 nnnn 16) in
  let nnnn := Z.lor nnnn (shl64 nnnn 32) in
  nnnn.

(** [even_indicators] and [odd_indicators] of one slice. *)
Definition indicators_2chars (h_slice nnnn : Z) : Z * Z :=
  let even_indicators := not64 (Z.lxor h_slice nnnn) in
  let odd_indicators := not64 (Z.lxor (shl64 h_slice 8) nnnn) in
  let even_indicators := Z.land even_indicators (Z.shiftr even_indicators 1) in
  let even_indicators := Z.land even_indicators (Z.shiftr even_indicators 2) in
  let even_indicators := Z.land even_indicators (Z.shiftr even_indicators 4) in
  let even_indicators := Z.land even_indicators (Z.shiftr even_indicators 8) in
  let even_indicators := Z.land even_indicators 0x0001000100010001 in
  let odd_indicators := Z.land odd_indicators (Z.shiftr odd_indicators 1) in
  let odd_indicators := Z.land odd_indicators (Z.shiftr odd_indicators 2) in
  let odd_indicators := Z.land odd_indicators (Z.shiftr odd_indicators 4) in
  let odd_indicators := Z.land odd_indicators (Z.shiftr odd_indicators 8) in
  let odd_indicators := Z.land odd_indicators 0x0001000100010000 in
  (even_indicators, odd_indicators).

Definition strzl_naive_find_2chars (h : strzl_haystack_t) (n : list byte) : res Z :=
  let hb := h_bytes h in
  n0 <- read_byte n 0 ;;
  n1 <- read_byte n 1 ;;
  let nnnn := template_2chars n0 n1 in
  i <~ for_loop (loop_fuel h)
         (fun i => i + 8 <=? h_len h)
         (fun i =>
            h_slice <- load_le hb i 8 ;;
            let '(even_indicators, odd_indicators) := indicators_2chars h_slice nnnn in
            if negb (add64 even_indicators odd_indicators =? 0)
            then
              let match_indicators := Z.lor even_indicators (Z.shiftr odd_indicators 8) in
              Ret (Return (i + ctzll match_indicators / 8))
            else Ret (Next (i + 7)))
         0 ;;
  i <~ for_loop (loop_fuel h)
         (fun i => i + 2 <=? h_len h)
         (fun i =>
            hit <- same_char hb i n 0 &&& same_char hb i n 1 ;;
            if hit then Ret (Return i) else Ret (Next (i + 1)))
         i ;;
  Ret (h_len h).

(** One of the three folds of [strzl_naive_find_3chars]: merge every byte
    state, then combine those three-way. *)
Definition fold_3chars (x : Z) : Z :=
  let x := Z.land x (Z.shiftr x 1) in
  let x := Z.land x (Z.shiftr x 2) in
  let x := Z.land x (Z.shiftr x 4) in
  Z.land (Z.land (Z.land (Z.shiftr x 16) (Z.shiftr x 8)) (Z.shiftr x 0))
         0x0000010000010000.

(** The template [nn] of [strzl_naive_find_3chars]. *)
Definition template_3chars (n0 n1 n2 : byte) : Z :=
  let nn := Z.lor (Z.lor (char_to_u64 n0) (shl64 (char_to_u64 n1) 8))
                  (shl64 (char_to_u64 n2) 16) in
  let nn := Z.lor nn (shl64 nn 24) in
  let nn := shl64 nn 16 in
  nn.

(** [match_indicators] of one slice. *)
Definition indicators_3chars (h_slice nn : Z) : Z :=
  let first_indicators := not64 (Z.lxor h_slice nn) in
  let second_indicators := not64 (Z.lxor (shl64 h_slice 8) nn) in
  let third_indicators := not64 (Z.lxor (shl64 h_slice 16) nn) in
  let first_indicators := fold_3chars first_indicators in
  let second_indicators := fold_3chars second_indicators in
  let third_indicators := fold_3chars third_indicators in
  Z.lor (Z.lor first_indicators (Z.shiftr second_indicators 8))
        (Z.shiftr third_indicators 16).

Definition strzl_naive_find_3chars (h : strzl_haystack_t) (n : list byte) : res Z :=
  let hb := h_bytes h in
  n0 <- read_byte n 0 ;;
  n1 <- read_byte n 1 ;;
  n2 <- read_byte n 2 ;;
  let nn := template_3chars n0 n1 n2 in
  i <~ for_loop (loop_fuel h)
         (fun i => i + 8 <=? h_len h)
         (fun i =>
            h_slice <- load_le hb i 8 ;;
            let match_indicators := indicators_3chars h_slice nn in
            if negb (match_indicators =? 0)
            then Ret (Return (i + ctzll match_indicators / 8))
            else Ret (Next (i + 6)))
         0 ;;
  i <~ for_loop (loop_fuel h)
         (fun i => i + 3 <=? h_len h)
         (fun i =>
            hit <- same_char hb i n 0 &&& same_char hb i n 1 &&& same_char hb i n 2 ;;
            if hit then Ret (Return i) else Ret (Next (i + 1)))
         i ;;
  Ret (h_len h).

(** [lookup[k] = v] on the local table. *)
Fixpoint table_set (t : list Z) (k : nat) (v : Z) : list Z :=
  match t, k with
  | [], _ => []
  | _ :: r, O => v :: r
  | x :: r, Datatypes.S k' => x :: table_set r k' v
  end.

Definition lookup_4chars : list Z :=
  let lookup := repeat 0 16 in
  let lookup := table_set lookup 14 1 in
  let lookup := table_set lookup 10 1 in
  let lookup := table_set lookup 6 1 in
  let lookup := table_set lookup 2 1 in
  let lookup := table_set lookup 12 2 in
  let lookup := table_set lookup 4 2 in
  let lookup := table_set lookup 8 3 in
  lookup.

Definition table_get (t : list Z) (k : Z) : res Z :=
  match nth_error t (Z.to_nat k) with
  | Some v => Ret v
  | None => BadRead
  end.

(** One of the two folds of [strzl_naive_find_4chars]. *)
Definition fold_4chars (x : Z) : Z :=
  let x := Z.land x (Z.shiftr x 1) in
  let x := Z.land x (Z.shiftr x 2) in
  let x := Z.land x (Z.shiftr x 4) in
  let x := Z.land x (Z.shiftr x 8) in
  let x := Z.land x (Z.shiftr x 16) in
  Z.land x 0x0000000100000001.

(** The template [nn] of [strzl_naive_find_4chars]. *)
Definition template_4chars (n0 n1 n2 n3 : byte) : Z :=
  let nn := Z.lor (Z.lor (Z.lor (char_to_u64 n0) (shl64 (char_to_u64 n1) 8))
                         (shl64 (char_to_u64 n2) 16))
                  (shl64 (char_to_u64 n3) 24) in
  let nn := Z.lor nn (shl64 nn 32) in
  nn.

(** [h01_indicators] and [h23_indicators] of one slice. *)
Definition indicators_4chars (h_slice nn : Z) : Z * Z :=
  let h01 := Z.lor (Z.land h_slice 0x00000000FFFFFFFF)
                   (shl64 (Z.land h_slice 0x000000FFFFFFFF00) 24) in
  let h23 := Z.lor (Z.shiftr (Z.land h_slice 0x0000FFFFFFFF0000) 16)
                   (shl64 (Z.land h_slice 0x00FFFFFFFF000000) 8) in
  let h01_indicators := not64 (Z.lxor h01 nn) in
  let h23_indicators := not64 (Z.lxor h23 nn) in
  (fold_4chars h01_indicators, fold_4chars h23_indicators).

(** The [uint8_t match_indicators] that indexes the table. *)
Definition table_index_4chars (h01_indicators h23_indicators : Z) : Z :=
  (Z.lor (Z.lor (Z.lor (Z.shiftr h01_indicators 31) (shl64 h01_indicators 0))
                (Z.shiftr h23_indicators 29))
         (shl64 h23_indicators 2)) mod 2 ^ 8.

Definition strzl_naive_find_4chars (h : strzl_haystack_t) (n : list byte) : res Z :=
  let hb := h_bytes h in
  let test_4chars (i : Z) : res (flow Z Z) :=
    hit <- same_char hb i n 0 &&& same_char hb i n 1
             &&& same_char hb i n 2 &&& same_char hb i n 3 ;;
    if hit then Ret (Return i) else Ret (Next (i + 1)) in
  i <~ for_loop (loop_fuel h)
         (fun i => negb ((h_addr h + i) mod 8 =? 0) && (i + 4 <=? h_len h))
         test_4chars 0 ;;
  n0 <- read_byte n 0 ;;
  n1 <- read_byte n 1 ;;
  n2 <- read_byte n 2 ;;
  n3 <- read_byte n 3 ;;
  let nn := template_4chars n0 n1 n2 n3 in
  let lookup := lookup_4chars in
  i <~ for_loop (loop_fuel h)
         (fun i => i + 8 <=? h_len h)
         (fun i =>
            h_slice <- load_le hb i 8 ;;
            let '(h01_indicators, h23_indicators) := indicators_4chars h_slice nn in
            if negb (add64 h01_indicators h23_indicators =? 0)
            then
              let match_indicators := table_index_4chars h01_indicators h23_indicators in
              off <- table_get lookup match_indicators ;;
              Ret (Return (i + off))
            else Ret (Next (i + 4)))
         i ;;
  i <~ for_loop (loop_fuel h) (fun i => i + 4 <=? h_len h) test_4chars i ;;
  Ret (h_len h).

(** [strzl_naive_find_substr].  The [switch] on [n.len] is the chain of
    tests; [n_suffix_len] is a [size_t] difference and wraps. *)
Definition strzl_naive_find_substr (h : strzl_haystack_t) (n : strzl_needle_t) : res Z :=
  if h_len h <? n_len n then Ret (h_len h)
  else if n_len n =? 0 then Ret 0
  else if n_len n =? 1 then c <- read_byte (n_bytes n) 0 ;; strzl_naive_find_char h c
  else if n_len n =? 2 then strzl_naive_find_2chars h (n_bytes n)
  else if n_len n =? 3 then strzl_naive_find_3chars h (n_bytes n)
  else if n_len n =? 4 then strzl_naive_find_4chars h (n_bytes n)
  else
    let hb := h_bytes h in
    let n_suffix_len := wrap64 (n_len n - 4 - anomaly_offset n) in
    let n_suffix_ptr := 4 + anomaly_offset n in
    n_anomaly <- load_le (n_bytes n) (anomaly_offset n) 4 ;;
    i <~ for_loop (loop_fuel h)
           (fun i => i + n_len n <=? h_len h)
           (fun i =>
              h_anomaly <- load_le hb i 4 ;;
              hit <- Ret (h_anomaly =? n_anomaly)
                     &&& strzl_equal hb (i + 4) (n_bytes n) n_suffix_ptr
                           (Z.to_nat n_suffix_len)
                     &&& strzl_equal hb (i - anomaly_offset n) (n_bytes n) 0
                           (Z.to_nat (anomaly_offset n)) ;;
              if hit then Ret (Return (i - anomaly_offset n)) else Ret (Next (i + 1)))
           (anomaly_offset n) ;;
    Ret (h_len h).

End Scalar.

(** ** Vector registers

    A register is the list of its lanes, lowest lane first: 32-bit lanes
    for [__m256i] (eight) and [uint32x4_t] (four), 8-bit lanes for
    [uint8x16_t], 64-bit lanes for [uint64x2_t]. *)

Definition vec : Type := list Z.

Fixpoint lanes_of_bytes (width count : nat) (bs : list byte) : vec :=
  match count with
  | O => []
  | Datatypes.S c => le_combine (firstn width bs) :: lanes_of_bytes width c (skipn width bs)
  end.

(** Lane-wise equality: all ones in a lane that agrees, zero elsewhere. *)
Definition lanes_cmpeq (ones : Z) (a b : vec) : vec :=
  map (fun xy => if fst xy =? snd xy then ones else 0) (combine a b).

Definition lanes_or (a b : vec) : vec :=
  map (fun xy => Z.lor (fst xy) (snd xy)) (combine a b).

(** Reinterpretation as lanes [k] times wider ([bits]: the narrow width). *)
Fixpoint lanes_widen (bits : Z) (k : nat) (v : vec) : Z :=
  match k, v with
  | Datatypes.S k', x :: r => Z.lor x (Z.shiftl (lanes_widen bits k' r) bits)
  | _, _ => 0
  end.

Definition to_int32 (x : Z) : Z := (x + 2 ^ 31) mod 2 ^ 32 - 2 ^ 31.

Module AVX2.

Definition _mm256_set1_epi32 (x : Z) : vec := repeat x 8.

Definition _mm256_loadu_si256 (l : list byte) (i : Z) : res vec :=
  bs <- read_bytes l i 32 ;; Ret (lanes_of_bytes 4 8 bs).

Definition _mm256_cmpeq_epi32 (a b : vec) : vec := lanes_cmpeq 0xFFFFFFFF a b.

(** The top bits of the four bytes of a 32-bit lane. *)
Definition lane_msbs (x : Z) : Z :=
  Z.lor (Z.lor (Z.lor (Z.b2z (Z.testbit x 7)) (Z.shiftl (Z.b2z (Z.testbit x 15)) 1))
               (Z.shiftl (Z.b2z (Z.testbit x 23)) 2))
        (Z.shiftl (Z.b2z (Z.testbit x 31)) 3).

Fixpoint msb_mask (v : vec) : Z :=
  match v with
  | [] => 0
  | x :: r => Z.lor (lane_msbs x) (Z.shiftl (msb_mask r) 4)
  end.

(** The result is an [int]: bit 31 of the mask is its sign. *)
Definition _mm256_movemask_epi8 (v : vec) : Z := to_int32 (msb_mask v).

End AVX2.

Module NEON.

Definition vld1q_dup_u32 (l : list byte) (i : Z) : res vec :=
  x <- load_le l i 4 ;; Ret (repeat x 4).

Definition vld1q_u32 (l : list byte) (i : Z) : res vec :=
  bs <- read_bytes l i 16 ;; Ret (lanes_of_bytes 4 4 bs).

Definition vceqq_u32 (a b : vec) : vec := lanes_cmpeq 0xFFFFFFFF a b.

Definition vorrq_u32 (a b : vec) : vec := lanes_or a b.

Definition vreinterpretq_u64_u32 (v : vec) : vec :=
  [lanes_widen 32 2 v; lanes_widen 32 2 (skipn 2 v)].

Definition vld1q_dup_u8 (c : byte) : vec := repeat (u8 c) 16.

Definition vld1q_u8 (l : list byte) (i : Z) : res vec :=
  bs <- read_bytes l i 16 ;; Ret (lanes_of_bytes 1 16 bs).

Definition vceqq_u8 (a b : vec) : vec := lanes_cmpeq 0xFF a b.

Definition vreinterpretq_u64_u8 (v : vec) : vec :=
  [lanes_widen 8 8 v; lanes_widen 8 8 (skipn 8 v)].

Definition vgetq_lane_u64 (v : vec) (k : nat) : Z := nth k v 0.

End NEON.

(** A loop nested in a loop body: its [return] leaves the function, its
    normal end continues the body. *)
Definition and_on {S R T : Type} (m : res (flow S R)) (k : S -> res (flow T R))
    : res (flow T R) :=
  match m with
  | Ret (Next s) => k s
  | Ret (Return r) => Ret (Return r)
  | BadRead => BadRead
  | NoFuel => NoFuel
  end.

Notation "s <~~ m ;; k" := (and_on m (fun s => k))
  (at level 61, m at next level, right associativity).

Section Vector.

Variable char_signed : bool.

Import AVX2 NEON.

(** [for (size_t i = 0; i < width; i++) if (strzl_equal(h_ptr + i, n.ptr, n.len)) return ...] *)
Definition verify_block (width : Z) (hb : list byte) (i : Z) (n : strzl_needle_t)
    : res (flow Z Z) :=
  for_loop (Datatypes.S (Z.to_nat width))
    (fun j => j <? width)
    (fun j =>
       hit <- strzl_equal hb (i + j) (n_bytes n) 0 (Z.to_nat (n_len n)) ;;
       if hit then Ret (Return (j + i)) else Ret (Next (j + 1)))
    0.

Definition strzl_avx2_find_substr (h : strzl_haystack_t) (n : strzl_needle_t) : res Z :=
  if n_len n <? 4 then strzl_naive_find_substr char_signed h n
  else
    let hb := h_bytes h in
    prefix <- load_le (n_bytes n) 0 4 ;;
    let n_prefix := _mm256_set1_epi32 prefix in
    i <~ for_loop (loop_fuel h)
           (fun i => i + n_len n + 32 <=? h_len h)
           (fun i =>
              h0_prefixes <- _mm256_loadu_si256 hb i ;;
              let masks0 := _mm256_movemask_epi8 (_mm256_cmpeq_epi32 h0_prefixes n_prefix) in
              h1_prefixes <- _mm256_loadu_si256 hb (i + 1) ;;
              let masks1 := _mm256_movemask_epi8 (_mm256_cmpeq_epi32 h1_prefixes n_prefix) in
              h2_prefixes <- _mm256_loadu_si256 hb (i + 2) ;;
              let masks2 := _mm256_movemask_epi8 (_mm256_cmpeq_epi32 h2_prefixes n_prefix) in
              h3_prefixes <- _mm256_loadu_si256 hb (i + 3) ;;
              let masks3 := _mm256_movemask_epi8 (_mm256_cmpeq_epi32 h3_prefixes n_prefix) in
              if negb (Z.lor (Z.lor (Z.lor masks0 masks1) masks2) masks3 =? 0)
              then _ <~~ verify_block 32 hb i n ;; Ret (Next (i + 32))
              else Ret (Next (i + 32)))
           0 ;;
    tail_match <- strzl_naive_find_substr char_signed (h_from h i) n ;;
    Ret (i + tail_match).

(** [strzl_divide_round_up] on [size_t]. *)
Definition strzl_divide_round_up (x divisor : Z) : Z :=
  wrap64 (x + (divisor - 1)) / divisor.

Definition strzl_neon_count_char (h : strzl_haystack_t) (n : byte) : res Z :=
  let hb := h_bytes h in
  let aligned_start := wrap64 (strzl_divide_round_up (h_addr h) 16 * 16) in
  let misaligned_len :=
    if wrap64 (aligned_start - h_addr h) <? h_len h
    then wrap64 (aligned_start - h_addr h) else h_len h in
  result <- strzl_naive_count_char char_signed (h_upto h misaligned_len) n ;;
  if h_len h <=? misaligned_len then Ret result
  else
    let n_vector := vld1q_dup_u8 n in
    s <~ for_loop (loop_fuel h)
           (fun s => fst s + 16 <=? h_len h)
           (fun s =>
              let '(i, result) := s in
              loaded <- vld1q_u8 hb i ;;
              let masks := vceqq_u8 loaded n_vector in
              let masks64x2 := vreinterpretq_u64_u8 masks in
              let result := add64 result (popcountll (vgetq_lane_u64 masks64x2 0) / 8) in
              let result := add64 result (popcountll (vgetq_lane_u64 masks64x2 1) / 8) in
              Ret (Next (i + 16, result)))
           (misaligned_len, result) ;;
    let '(i, result) := s in
    tail <- strzl_naive_count_char char_signed (h_from h i) n ;;
    Ret (add64 result tail).

Definition strzl_neon_find_substr (h : strzl_haystack_t) (n : strzl_needle_t) : res Z :=
  if n_len n <? 4 then strzl_naive_find_substr char_signed h n
  else
    let hb := h_bytes h in
    n_prefix <- vld1q_dup_u32 (n_bytes n) 0 ;;
    i <~ for_loop (loop_fuel h)
           (fun i => i + n_len n + 16 <=? h_len h)
           (fun i =>
              l0 <- vld1q_u32 hb i ;;
              let masks0 := vceqq_u32 l0 n_prefix in
              l1 <- vld1q_u32 hb (i + 1) ;;
              let masks1 := vceqq_u32 l1 n_prefix in
              l2 <- vld1q_u32 hb (i + 2) ;;
              let masks2 := vceqq_u32 l2 n_prefix in
              l3 <- vld1q_u32 hb (i + 3) ;;
              let masks3 := vceqq_u32 l3 n_prefix in
              let masks := vorrq_u32 (vorrq_u32 masks0 masks1) (vorrq_u32 masks2 masks3) in
              let masks64x2 := vreinterpretq_u64_u32 masks in
              let has_match :=
                negb (Z.lor (vgetq_lane_u64 masks64x2 0) (vgetq_lane_u64 masks64x2 1) =? 0) in
              if has_match
              then _ <~~ verify_block 16 hb i n ;; Ret (Next (i + 16))
              else Ret (Next (i + 16)))
           0 ;;
    tail_match <- strzl_naive_find_substr char_signed (h_from h i) n ;;
    Ret (i + tail_match).

End Vector.

(** ** Specification vocabulary *)

(** [H[i..i+k)] *)
Definition slice (l : list byte) (i k : Z) : list byte :=
  firstn (Z.to_nat k) (skipn (Z.to_nat i) l).

(** The needle occurs in the haystack at index [i]. *)
Definition occurs_at (hb nb : list byte) (i : Z) : Prop :=
  slice hb i (blen nb) = nb.

(** [uint64_t(c)] is the byte itself: [char] is unsigned, or the byte is
    below [0x80]. *)
Definition plain_char (char_signed : bool) (c : byte) : Prop :=
  char_signed = false \/ u8 c < 128.

(** The number of indices [j] with [H[j] == c]. *)
Definition occurrences (hb : list byte) (c : byte) : Z :=
  Z.of_nat (count_occ byte_eq_dec hb c).

(** What the documented preconditions ask of a needle descriptor. *)
Definition needle_ok (n : strzl_needle_t) : Prop :=
  0 <= anomaly_offset n /\ n_len n < 2 ^ 64 /\
  (5 <= n_len n -> anomaly_offset n + 4 <= n_len n).

(** A haystack that fits the 64-bit address space. *)
Definition haystack_ok (h : strzl_haystack_t) : Prop :=
  0 <= h_addr h /\ h_addr h + h_len h < 2 ^ 64.

(** A routine ran to its end, without a load out of bounds, and its result
    satisfies [P]. *)
Definition returns {A : Type} (m : res A) (P : A -> Prop) : Prop :=
  match m with
  | Ret a => P a
  | BadRead => False
  | NoFuel => False
  end.

Definition byte_of_Z (z : Z) : byte :=
  match Byte.of_N (Z.to_N z) with
  | Some b => b
  | None => x00
  end.

(** ** Vocabulary of the bit-level proofs *)

(** Byte lane [k] of a word. *)
Definition lane (x k : Z) : Z := Z.shiftr x (8 * k) mod 2 ^ 8.

(** The three statements that merge the eight bits of every byte into its
    lowest bit. *)
Definition fold8 (x : Z) : Z :=
  let x := Z.land x (Z.shiftr x 1) in
  let x := Z.land x (Z.shiftr x 2) in
  Z.land x (Z.shiftr x 4).

Definition bitv (b : bool) (p : Z) : Z := if b then 2 ^ p else 0.

(** The word whose bit [p] is [b], for every [(p, b)] of the list. *)
Fixpoint bits_at (l : list (Z * bool)) : Z :=
  match l with
  | [] => 0
  | (p, b) :: r => Z.lor (bitv b p) (bits_at r)
  end.

Definition mask_of (ps : list Z) : Z := bits_at (map (fun p => (p, true)) ps).

Fixpoint first_true (l : list bool) : option Z :=
  match l with
  | [] => None
  | b :: r => if b then Some 0 else option_map Z.succ (first_true r)
  end.

Fixpoint bytes_eqb (a b : list byte) : bool :=
  match a, b with
  | [], [] => true
  | x :: a', y :: b' => Byte.eqb x y && bytes_eqb a' b'
  | _, _ => false
  end.

(** The byte at offset [j] of a buffer. *)
Definition at_ (l : list byte) (j : Z) : byte := nth (Z.to_nat j) l x00.

(** The offsets [0 .. stride-1]. *)
Definition offsets (stride : Z) : list Z := map Z.of_nat (seq 0 (Z.to_nat stride)).

(** The first of the [stride] indices from [i] on at which the needle
    occurs, as an offset from [i]. *)
Definition first_hit (hb nb : list byte) (i stride : Z) : option Z :=
  first_true (map (fun o => bytes_eqb (slice hb (i + o) (blen nb)) nb) (offsets stride)).

(** The postcondition of a search: [r] is the first index at which the
    needle occurs, or the haystack length when it occurs nowhere from
    [0] to [limit]. *)
Definition first_occurrence (hb nb : list byte) (limit r : Z) : Prop :=
  (0 <= r <= blen hb - blen nb /\ occurs_at hb nb r /\
   forall j, 0 <= j < r -> ~ occurs_at hb nb j) \/
  (r = blen hb /\ forall j, 0 <= j <= limit -> ~ occurs_at hb nb j).

(** The folds for 16- and 32-bit lanes. *)
Definition fold16 (x : Z) : Z :=
  let f := fold8 x in Z.land f (Z.shiftr f 8).

Definition fold32 (x : Z) : Z :=
  let f := fold16 x in Z.land f (Z.shiftr f 16).

(** Two adjacent byte lanes of [x] from [k] on agree with those of [t]. *)
Definition lanes2_eq (x t k : Z) : bool :=
  (lane x k =? lane t k) && (lane x (k + 1) =? lane t (k + 1)).

Definition lanes3_eq (x t k : Z) : bool :=
  (lane x k =? lane t k) &&
  ((lane x (k + 1) =? lane t (k + 1)) && (lane x (k + 2) =? lane t (k + 2))).

Definition lanes4_eq (x t k : Z) : bool :=
  (lane x k =? lane t k) &&
  ((lane x (k + 1) =? lane t (k + 1)) &&
   ((lane x (k + 2) =? lane t (k + 2)) && (lane x (k + 3) =? lane t (k + 3)))).

(** The two swizzled words carry the four candidate windows. *)
Definition swizzle01 (x : Z) : Z :=
  Z.lor (Z.land x 0x00000000FFFFFFFF) (shl64 (Z.land x 0x000000FFFFFFFF00) 24).

Definition swizzle23 (x : Z) : Z :=
  Z.lor (Z.shiftr (Z.land x 0x0000FFFFFFFF0000) 16)
        (shl64 (Z.land x 0x00FFFFFFFF000000) 8).

(** The range of what a kernel returns: an index of the haystack or its
    length. *)
Definition in_haystack (h : strzl_haystack_t) (r : Z) : Prop := 0 <= r <= h_len h.

(** [r] is the first index at which the needle occurs. *)
Definition found_first (hb nb : list byte) (r : Z) : Prop :=
  0 <= r <= blen hb - blen nb /\ occurs_at hb nb r /\
  forall j, 0 <= j < r -> ~ occurs_at hb nb j.

(** The needle occurs at no index before [i]. *)
Definition none_before (hb nb : list byte) (i : Z) : Prop :=
  0 <= i <= blen hb /\ forall j, 0 <= j < i -> ~ occurs_at hb nb j.

(** The invariant of the counter: [c] of the first [i] bytes matched. *)
Definition counting_inv (h : strzl_haystack_t) (i c : Z) : Prop :=
  0 <= i <= h_len h /\ 0 <= c <= i.

(** The limit up to which a miss of the scalar search rules occurrences
    out. *)
Definition scalar_limit (h : strzl_haystack_t) (n : strzl_needle_t) : Z :=
  h_len h - n_len n - (if n_len n <=? 4 then 0 else anomaly_offset n).

(** ** Inputs of the worked examples *)

Definition bytes_of (l : list Z) : list byte := map byte_of_Z l.

Module Samples.

Import String.
Local Open Scope string_scope.

Definition abcde : list byte := list_byte_of_string "abcde".

(** 38 bytes with ["NEEDLE"] at index 31. *)
Definition hay38 : list byte :=
  list_byte_of_string "0123456789abcdefghijklmnopqrstuNEEDLEz".

Definition needle6 : list byte := list_byte_of_string "NEEDLE".

Definition need : list byte := list_byte_of_string "NEED".

Definition banana : list byte := list_byte_of_string "banana".

Definition abracadabra : list byte := list_byte_of_string "abracadabra".

Definition cad : list byte := list_byte_of_string "cad".

Definition xyz : list byte := list_byte_of_string "xyz".

Definition aaaaaaaa : list byte := list_byte_of_string "aaaaaaaa".

Definition aaaa : list byte := list_byte_of_string "aaaa".

Definition pangram : list byte :=
  list_byte_of_string "the quick brown fox jumps over the lazy dog".

Definition fox : list byte := list_byte_of_string "fox".

Definition lazy_word : list byte := list_byte_of_string "lazy".

Definition abc : list byte := list_byte_of_string "abc".

Definition abcd : list byte := list_byte_of_string "abcd".

End Samples.

Import Samples.

(** Every entry point ran to its end: no load left its buffer. *)
Definition all_loads_in_bounds (char_signed : bool) (h : strzl_haystack_t)
    (n : strzl_needle_t) (c : byte) : Prop :=
  (exists k, strzl_naive_count_char char_signed h c = Ret k) /\
  (exists r, strzl_naive_find_char char_signed h c = Ret r) /\
  (2 <= n_len n -> exists r, strzl_naive_find_2chars char_signed h (n_bytes n) = Ret r) /\
  (3 <= n_len n -> exists r, strzl_naive_find_3chars char_signed h (n_bytes n) = Ret r) /\
  (4 <= n_len n -> exists r, strzl_naive_find_4chars char_signed h (n_bytes n) = Ret r) /\
  (exists r, strzl_naive_find_substr char_signed h n = Ret r) /\
  (exists r, strzl_avx2_find_substr char_signed h n = Ret r) /\
  (exists k, strzl_neon_count_char char_signed h c = Ret k) /\
  (exists r, strzl_neon_find_substr char_signed h n = Ret r).


(** ** Vocabulary of the further properties *)

(** The exact result of a scan that visits the indices [0 .. limit]: the
    first of them at which the needle occurs, or the haystack length when
    it occurs at none of them. *)
Definition first_occurrence_within (hb nb : list byte) (limit r : Z) : Prop :=
  (0 <= r <= limit /\ occurs_at hb nb r /\
   forall j, 0 <= j < r -> ~ occurs_at hb nb j) \/
  (r = blen hb /\ forall j, 0 <= j <= limit -> ~ occurs_at hb nb j).

(** [r] is the miss value, or an index with [w] bytes of the haystack from
    it on. *)
Definition hit_fits (h : strzl_haystack_t) (w r : Z) : Prop :=
  r = h_len h \/ (0 <= r /\ r + w <= h_len h).

(** * The C++ wrapper: [string_view] and [range_matches]

    The part of [stringzilla.hpp] that stands on its own: the view
    arithmetic of [string_view], its [null_terminated_length], and the
    iteration of [range_matches] over a matcher.  A view is the address of
    its first character and its length; the matcher is the template
    parameter of [range_matches] and stays a parameter here. *)

Module View.

(** The two fields of [string_view]. *)
Record string_view : Type := mk_view {
  start_ : Z;
  length_ : Z
}.

(** [static constexpr size_type npos = size_type(-1)] *)
Definition npos : Z := wrap64 (-1).

(** [string_view()]: the null pointer and length 0. *)
Definition null_view : string_view := mk_view 0 0.

Definition size (v : string_view) : Z := length_ v.

(** A member function with an [assert] either runs or fails its
    assertion; loops over views run on fuel. *)
Inductive outcome (A : Type) : Type :=
| Done (a : A)
| AssertFailed
| OutOfFuel.
Arguments Done {A} a.
Arguments AssertFailed {A}.
Arguments OutOfFuel {A}.

(** [assert(n <= size()), start_ += n, length_ -= n] *)
Definition remove_prefix (v : string_view) (n : Z) : outcome string_view :=
  if n <=? size v
  then Done (mk_view (start_ v + n) (wrap64 (length_ v - n)))
  else AssertFailed.

(** [substr(pos)]: [string_view(start_ + pos, length_ - pos)], no check. *)
Definition substr (v : string_view) (pos : Z) : string_view :=
  mk_view (start_ v + pos) (wrap64 (length_ v - pos)).

(** [while ( *p ) ++p;] of [null_terminated_length], from the address [p]
    on: the address of the first zero character. *)
Fixpoint null_terminated_scan (fuel : nat) (mem : list byte) (p : Z) : res Z :=
  match fuel with
  | O => NoFuel
  | Datatypes.S fuel' =>
      c <- read_byte mem p ;;
      if Byte.eqb c x00 then Ret p else null_terminated_scan fuel' mem (p + 1)
  end.

(** [null_terminated_length(s)]: [p - s] for the [p] the loop stops at. *)
Definition null_terminated_length (mem : list byte) (s : Z) : res Z :=
  p <- null_terminated_scan (Datatypes.S (length mem)) mem s ;; Ret (p - s).

(** [string_view(const_pointer c_string)] *)
Definition of_c_string (mem : list byte) (c_string : Z) : res string_view :=
  len <- null_terminated_length mem c_string ;; Ret (mk_view c_string len).

(** What [range_matches] uses of its [matcher_template_]:
    [needle_length()], and [operator()], the position of a match in the
    view it is given or [npos]. *)
Class matcher : Type := {
  needle_length : Z;
  matcher_call : string_view -> Z
}.

Section RangeMatches.

Context {matcher_ : matcher}.

(** [range_matches::iterator] holds the view [remaining_], which starts at
    the current match. *)
Definition iterator : Type := string_view.

(** [begin()] *)
Definition begin_ (haystack_ : string_view) : iterator :=
  let position := matcher_call haystack_ in
  if negb (position =? npos) then substr haystack_ position else null_view.

(** [end()] *)
Definition end_ : iterator := null_view.

(** [operator!=]: the sizes of the two remaining views differ. *)
Definition iterator_ne (a b : iterator) : bool := negb (size a =? size b).

(** [operator++] *)
Definition increment (it : iterator) : outcome iterator :=
  match remove_prefix it 1 with
  | Done remaining_ =>
      let position := matcher_call remaining_ in
      Done (if negb (position =? npos) then substr remaining_ position else null_view)
  | AssertFailed => AssertFailed
  | OutOfFuel => OutOfFuel
  end.

(** [for (auto it = begin(); it != end(); ++it)]: the iterators the loop
    body sees, in order. *)
Fixpoint visit (fuel : nat) (it : iterator) : outcome (list iterator) :=
  match fuel with
  | O => OutOfFuel
  | Datatypes.S fuel' =>
      if iterator_ne it end_ then
        match increment it with
        | Done it' =>
            match visit fuel' it' with
            | Done l => Done (it :: l)
            | AssertFailed => AssertFailed
            | OutOfFuel => OutOfFuel
            end
        | AssertFailed => AssertFailed
        | OutOfFuel => OutOfFuel
        end
      else Done []
  end.

(** [std::distance(first, end())] on a forward iterator: the number of
    increments that take [first] to [end()]. *)
Fixpoint distance (fuel : nat) (first : iterator) : outcome Z :=
  match fuel with
  | O => OutOfFuel
  | Datatypes.S fuel' =>
      if iterator_ne first end_ then
        match increment first with
        | Done next =>
            match distance fuel' next with
            | Done d => Done (d + 1)
            | AssertFailed => AssertFailed
            | OutOfFuel => OutOfFuel
            end
        | AssertFailed => AssertFailed
        | OutOfFuel => OutOfFuel
        end
      else Done 0
  end.

(** [range_matches::size()] *)
Definition range_size (haystack_ : string_view) : outcome Z :=
  distance (Datatypes.S (Z.to_nat (size haystack_))) (begin_ haystack_).

End RangeMatches.

End View.

(** ** Vocabulary for the wrapper *)

(** The addresses [a, a + 1, ..., a + n - 1]. *)
Definition addresses (a : Z) (n : nat) : list Z :=
  map (fun k => a + Z.of_nat k) (seq 0 n).

(** The addresses at which a match of [needle_length] characters can start
    inside a view. *)
Definition match_starts (nl : Z) (v : View.string_view) : list Z :=
  addresses (View.start_ v) (Z.to_nat (View.length_ v - nl + 1)).

(** The matches from address [a] to the end [e] of the haystack. *)
Definition matches_from (hit : Z -> bool) (nl a e : Z) : list Z :=
  filter hit (addresses a (Z.to_nat (e - nl + 1 - a))).

(** The contract of a forward matcher over the views inside
    [[0, limit)]: it returns the position of the first address of the view
    at which [hit] holds with room for the needle, and [npos] when there
    is none. *)
Definition finds_first_hit (hit : Z -> bool) (limit : Z) (m : View.matcher) : Prop :=
  forall v,
    0 <= View.start_ v -> 0 <= View.length_ v ->
    View.start_ v + View.length_ v <= limit ->
    let p := @View.matcher_call m v in
    let nl := @View.needle_length m in
    (p = View.npos /\
     forall a, View.start_ v <= a <= View.start_ v + View.length_ v - nl -> hit a = false) \/
    (0 <= p /\ p + nl <= View.length_ v /\ hit (View.start_ v + p) = true /\
     forall a, View.start_ v <= a < View.start_ v + p -> hit a = false).

(** A matcher for the worked examples: the scalar finder of
    [stringzilla.h] on the characters of the view, a miss reported as
    [npos]. *)
Definition scalar_matcher (mem needle : list byte) : View.matcher :=
  {| View.needle_length := blen needle;
     View.matcher_call := fun v =>
       match strzl_naive_find_substr false
               (mk_haystack (View.start_ v) (slice mem (View.start_ v) (View.length_ v)))
               (mk_needle needle 0) with
       | Ret r => if r =? View.length_ v then View.npos else r
       | BadRead => View.npos
       | NoFuel => View.npos
       end |}.

(** The needle stands at address [a] of the memory. *)
Definition stands_at (mem needle : list byte) (a : Z) : bool :=
  bytes_eqb (slice mem a (blen needle)) needle.

Definition ana : list byte := bytes_of [97; 110; 97].

Definition abra : list byte := bytes_of [97; 98; 114; 97].

(** ["hello"], its terminator, and two more bytes. *)
Definition hello_z : list byte := bytes_of [104; 101; 108; 108; 111; 0; 120; 0].
(** * Proofs *)

(** ** The loop rule *)

Section LoopRule.

Context {S R : Type}.
Variables (cond : S -> bool) (body : S -> res (flow S R)).
Variables (Inv : S -> Prop) (Post : R -> Prop) (measure : S -> Z).

Hypothesis measure_nonneg : forall s, Inv s -> 0 <= measure s.
Hypothesis body_ok : forall s, Inv s -> cond s = true ->
  returns (body s) (fun f =>
    match f with
    | Next s' => Inv s' /\ measure s' < measure s
    | Return r => Post r
    end).

Lemma for_loop_total : forall fuel s,
  Inv s -> measure s < Z.of_nat fuel ->
  returns (for_loop fuel cond body s) (fun f =>
    match f with
    | Next s' => Inv s' /\ cond s' = false
    | Return r => Post r
    end).
Proof.
  induction fuel as [|fuel IH]; intros s Hs Hm.
  - specialize (measure_nonneg s Hs). lia.
  - cbn [for_loop]. destruct (cond s) eqn:Hc.
    + specialize (body_ok s Hs Hc).
      destruct (body s) as [[s'|r]| |]; cbn in body_ok |- *; try contradiction.
      * apply IH; [tauto|lia].
      * exact body_ok.
    + cbn. auto.
Qed.

End LoopRule.

Lemma returns_bind {A B : Type} (m : res A) (k : A -> res B) (P : A -> Prop) (Q : B -> Prop) :
  returns m P -> (forall a, P a -> returns (k a) Q) -> returns (bind m k) Q.
Proof. destruct m; cbn; auto; contradiction. Qed.

Lemma returns_and_then {S R : Type} (m : res (flow S R)) (k : S -> res R)
    (P : flow S R -> Prop) (Q : R -> Prop) :
  returns m P ->
  (forall r, P (Return r) -> Q r) ->
  (forall s, P (Next s) -> returns (k s) Q) ->
  returns (and_then m k) Q.
Proof. destruct m as [[s|r]| |]; cbn; auto; contradiction. Qed.

Lemma returns_and_on {S R T : Type} (m : res (flow S R)) (k : S -> res (flow T R))
    (P : flow S R -> Prop) (Q : flow T R -> Prop) :
  returns m P ->
  (forall r, P (Return r) -> Q (Return r)) ->
  (forall s, P (Next s) -> returns (k s) Q) ->
  returns (and_on m k) Q.
Proof. destruct m as [[s|r]| |]; cbn; auto; contradiction. Qed.

Lemma returns_weaken {A : Type} (m : res A) (P Q : A -> Prop) :
  returns m P -> (forall a, P a -> Q a) -> returns m Q.
Proof. destruct m; cbn; auto. Qed.

Lemma returns_ret {A : Type} (m : res A) (P : A -> Prop) :
  returns m P -> exists a, m = Ret a /\ P a.
Proof. destruct m; cbn; try contradiction. eauto. Qed.

(** ** Guarded loads *)

Lemma blen_nonneg l : 0 <= blen l.
Proof. unfold blen. lia. Qed.

Lemma read_byte_in l i :
  0 <= i < blen l -> read_byte l i = Ret (nth (Z.to_nat i) l x00).
Proof.
  intros H. unfold read_byte.
  replace (0 <=? i) with true by (symmetry; apply Z.leb_le; lia).
  replace (i <? blen l) with true by (symmetry; apply Z.ltb_lt; lia).
  reflexivity.
Qed.

Lemma read_bytes_in l i n :
  0 <= i -> 0 <= n -> i + n <= blen l -> read_bytes l i n = Ret (slice l i n).
Proof.
  intros Hi Hn H. unfold read_bytes.
  replace (0 <=? i) with true by (symmetry; apply Z.leb_le; lia).
  replace (0 <=? n) with true by (symmetry; apply Z.leb_le; lia).
  replace (i + n <=? blen l) with true by (symmetry; apply Z.leb_le; lia).
  reflexivity.
Qed.

Lemma load_le_in l i n :
  0 <= i -> 0 <= n -> i + n <= blen l -> load_le l i n = Ret (le_combine (slice l i n)).
Proof. intros. unfold load_le. rewrite read_bytes_in by assumption. reflexivity. Qed.

Lemma slice_length l i n :
  0 <= i -> 0 <= n -> i + n <= blen l -> length (slice l i n) = Z.to_nat n.
Proof.
  intros. unfold slice, blen in *. rewrite length_firstn, length_skipn. lia.
Qed.
(** ** Bits, lanes and masks *)

Lemma land_bit x p : 0 <= p -> Z.land x (2 ^ p) = bitv (Z.testbit x p) p.
Proof.
  intros Hp. apply Z.bits_inj'. intros i Hi.
  rewrite Z.land_spec, Z.pow2_bits_eqb by lia.
  destruct (Z.eqb_spec p i) as [->|Hne].
  - unfold bitv. destruct (Z.testbit x i); cbn.
    + rewrite Z.pow2_bits_true; auto.
    + rewrite Z.bits_0. reflexivity.
  - rewrite andb_false_r. unfold bitv. destruct (Z.testbit x p).
    + rewrite Z.pow2_bits_false; auto.
    + rewrite Z.bits_0. reflexivity.
Qed.

Lemma fold8_testbit x p :
  0 <= p ->
  Z.testbit (fold8 x) p =
  forallb (fun j => Z.testbit x (p + j)) [0; 1; 2; 3; 4; 5; 6; 7].
Proof.
  intros Hp. unfold fold8. cbv zeta.
  repeat (rewrite ?Z.land_spec, ?Z.shiftr_spec by lia).
  cbn [forallb].
  replace (p + 4 + 2 + 1) with (p + 7) by lia.
  replace (p + 4 + 2) with (p + 6) by lia.
  replace (p + 4 + 1) with (p + 5) by lia.
  replace (p + 2 + 1) with (p + 3) by lia.
  replace (p + 0) with p by lia.
  set (a0 := Z.testbit x p); set (a5 := Z.testbit x (p + 5)).
  destruct a0, (Z.testbit x (p + 1)), (Z.testbit x (p + 2)), (Z.testbit x (p + 3)),
    (Z.testbit x (p + 4)), a5, (Z.testbit x (p + 6)), (Z.testbit x (p + 7)); reflexivity.
Qed.

Lemma not64_testbit x i :
  0 <= i < 64 -> Z.testbit (not64 x) i = negb (Z.testbit x i).
Proof.
  intros Hi. unfold not64, wrap64.
  rewrite Z.mod_pow2_bits_low by lia. apply Z.lnot_spec. lia.
Qed.

Lemma lane_testbit x k j :
  0 <= k -> 0 <= j < 8 -> Z.testbit (lane x k) j = Z.testbit x (8 * k + j).
Proof.
  intros Hk Hj. unfold lane. rewrite Z.mod_pow2_bits_low by lia.
  rewrite Z.shiftr_spec by lia. f_equal. lia.
Qed.

Lemma lane_range x k : 0 <= lane x k < 256.
Proof. unfold lane. change 256 with (2 ^ 8). apply Z.mod_pos_bound. lia. Qed.

Lemma lane_eq_bits x y k :
  0 <= k ->
  (forall j, 0 <= j < 8 -> Z.testbit x (8 * k + j) = Z.testbit y (8 * k + j)) ->
  lane x k = lane y k.
Proof.
  intros Hk H. apply Z.bits_inj'. intros j Hj.
  destruct (Z.lt_ge_cases j 8).
  - rewrite !lane_testbit by lia. apply H. lia.
  - unfold lane. rewrite !Z.mod_pow2_bits_high by lia. reflexivity.
Qed.

Lemma fold8_lane x y k :
  0 <= k < 8 ->
  Z.testbit (fold8 (not64 (Z.lxor x y))) (8 * k) = (lane x k =? lane y k).
Proof.
  intros Hk. rewrite fold8_testbit by lia.
  destruct (Z.eqb_spec (lane x k) (lane y k)) as [E|E].
  - apply forallb_forall. intros j Hj.
    assert (0 <= j < 8) by (cbn in Hj; lia).
    rewrite not64_testbit, Z.lxor_spec by lia.
    rewrite <- !lane_testbit, E by lia. now rewrite xorb_nilpotent.
  - apply not_true_is_false. intros A. apply E. apply lane_eq_bits; [lia|].
    intros j Hj. rewrite forallb_forall in A.
    specialize (A j). rewrite not64_testbit, Z.lxor_spec in A by lia.
    assert (In j [0; 1; 2; 3; 4; 5; 6; 7]) as HIn by (cbn; lia).
    specialize (A HIn). apply negb_true_iff, xorb_eq in A. exact A.
Qed.

Lemma u8_range b : 0 <= u8 b < 256.
Proof.
  unfold u8. pose proof (Byte.to_N_bounded b). lia.
Qed.

Lemma u8_inj a b : u8 a = u8 b -> a = b.
Proof.
  unfold u8. intros H. apply N2Z.inj in H.
  apply (f_equal Byte.of_N) in H. rewrite !Byte.of_to_N in H. congruence.
Qed.

Lemma u8_eqb a b : (u8 a =? u8 b) = Byte.eqb a b.
Proof.
  destruct (Z.eqb_spec (u8 a) (u8 b)) as [E|E].
  - apply u8_inj in E. subst. symmetry. apply Byte.byte_dec_lb. reflexivity.
  - destruct (Byte.eqb a b) eqn:F; [|reflexivity].
    apply Byte.byte_dec_bl in F. subst. contradiction.
Qed.

Lemma small_testbit_high x i : 0 <= x < 2 ^ 8 -> 8 <= i -> Z.testbit x i = false.
Proof.
  intros Hx Hi. rewrite <- (Z.mod_small x (2 ^ 8)) by lia.
  apply Z.mod_pow2_bits_high. lia.
Qed.

Lemma le_combine_testbit bs i :
  0 <= i ->
  Z.testbit (le_combine bs) i = Z.testbit (u8 (nth (Z.to_nat (i / 8)) bs x00)) (i mod 8).
Proof.
  revert i. induction bs as [|b t IH]; intros i Hi.
  - cbn [le_combine]. rewrite Z.bits_0. destruct (Z.to_nat (i / 8)); cbn; now rewrite Z.bits_0.
  - cbn [le_combine]. rewrite Z.lor_spec.
    destruct (Z.lt_ge_cases i 8) as [L|G].
    + rewrite Z.shiftl_spec_low by lia. rewrite orb_false_r.
      rewrite Z.div_small, Z.mod_small by lia. reflexivity.
    + rewrite small_testbit_high by (try apply u8_range; lia).
      rewrite Z.shiftl_spec by lia. cbn [orb]. rewrite IH by lia.
      replace (i / 8) with ((i - 8) / 8 + 1) by
        (replace i with ((i - 8) + 1 * 8) at 2 by lia; rewrite Z.div_add by lia; lia).
      replace (i mod 8) with ((i - 8) mod 8) by
        (replace i with ((i - 8) + 1 * 8) at 2 by lia; now rewrite Z.mod_add by lia).
      rewrite Z2Nat.inj_add by (try apply Z.div_pos; lia).
      rewrite Nat.add_comm. reflexivity.
Qed.

Lemma byte_ext a b :
  0 <= a < 256 -> 0 <= b < 256 ->
  (forall j, 0 <= j < 8 -> Z.testbit a j = Z.testbit b j) -> a = b.
Proof.
  intros Ha Hb H. apply Z.bits_inj'. intros j Hj.
  destruct (Z.lt_ge_cases j 8).
  - apply H. lia.
  - rewrite !small_testbit_high by (change (2 ^ 8) with 256; lia). reflexivity.
Qed.

Lemma lane_le_combine bs k :
  0 <= k -> lane (le_combine bs) k = u8 (nth (Z.to_nat k) bs x00).
Proof.
  intros Hk. apply byte_ext; [apply lane_range|apply u8_range|].
  intros j Hj. rewrite lane_testbit, le_combine_testbit by lia.
  replace ((8 * k + j) / 8) with k by
    (rewrite Z.mul_comm, Z.add_comm, Z.div_add by lia; rewrite Z.div_small by lia; lia).
  replace ((8 * k + j) mod 8) with j by
    (rewrite Z.mul_comm, Z.add_comm, Z.mod_add by lia; rewrite Z.mod_small by lia; lia).
  reflexivity.
Qed.

Lemma lane_lor x y k : 0 <= k -> lane (Z.lor x y) k = Z.lor (lane x k) (lane y k).
Proof.
  intros Hk. unfold lane. rewrite <- !Z.land_ones by lia.
  rewrite Z.shiftr_lor. apply Z.land_lor_distr_l.
Qed.

Lemma lane_land x y k : 0 <= k -> lane (Z.land x y) k = Z.land (lane x k) (lane y k).
Proof.
  intros Hk. unfold lane. rewrite <- !Z.land_ones by lia.
  rewrite Z.shiftr_land. apply Z.bits_inj'. intros j Hj.
  rewrite !Z.land_spec.
  destruct (Z.testbit (Z.ones 8) j); rewrite ?andb_false_r, ?andb_true_r; reflexivity.
Qed.

Lemma lane_shiftr x t k : 0 <= k -> 0 <= t -> lane (Z.shiftr x (8 * t)) k = lane x (k + t).
Proof.
  intros Hk Ht. unfold lane. rewrite Z.shiftr_shiftr by lia.
  do 2 f_equal. lia.
Qed.

Lemma lane_shl64 x t k :
  0 <= t -> 0 <= k < 8 ->
  lane (shl64 x (8 * t)) k = if k <? t then 0 else lane x (k - t).
Proof.
  intros Ht Hk. destruct (Z.ltb_spec k t).
  - apply byte_ext; [apply lane_range|lia|]. intros j Hj.
    rewrite lane_testbit, Z.bits_0 by lia. unfold shl64, wrap64.
    rewrite Z.mod_pow2_bits_low by lia. apply Z.shiftl_spec_low. lia.
  - apply byte_ext; try apply lane_range. intros j Hj.
    rewrite !lane_testbit by lia. unfold shl64, wrap64.
    rewrite Z.mod_pow2_bits_low by lia. rewrite Z.shiftl_spec by lia.
    f_equal. lia.
Qed.

Lemma lane_small x k : 0 <= x < 256 -> 0 <= k -> lane x k = if k =? 0 then x else 0.
Proof.
  intros Hx Hk. destruct (Z.eqb_spec k 0) as [->|N].
  - unfold lane. change (8 * 0) with 0. rewrite Z.shiftr_0_r.
    apply Z.mod_small. change (2 ^ 8) with 256. lia.
  - apply byte_ext; [apply lane_range|lia|]. intros j Hj.
    rewrite lane_testbit, Z.bits_0 by lia. apply small_testbit_high; [change (2^8) with 256|]; lia.
Qed.

Lemma land_mask x ps :
  Forall (fun p => 0 <= p) ps ->
  Z.land x (mask_of ps) = bits_at (map (fun p => (p, Z.testbit x p)) ps).
Proof.
  unfold mask_of. induction 1 as [|p ps Hp _ IH]; cbn [map bits_at].
  - apply Z.land_0_r.
  - rewrite Z.land_lor_distr_r, IH. f_equal.
    change (bitv true p) with (2 ^ p). now apply land_bit.
Qed.

Lemma fold8_lane_at x y p :
  0 <= p < 64 -> p mod 8 = 0 ->
  Z.testbit (fold8 (not64 (Z.lxor x y))) p = (lane x (p / 8) =? lane y (p / 8)).
Proof.
  intros Hp Hm. rewrite <- fold8_lane.
  - f_equal. rewrite (Z.div_mod p 8) at 1 by lia. lia.
  - split; [apply Z.div_pos; lia|apply Z.div_lt_upper_bound; lia].
Qed.

(** ** Slices and occurrences *)

Lemma bytes_eqb_eq a b : bytes_eqb a b = true <-> a = b.
Proof.
  revert b. induction a as [|x a IH]; destruct b as [|y b]; cbn; split; intros H;
    try reflexivity; try discriminate.
  - apply andb_true_iff in H as [H1 H2]. apply Byte.byte_dec_bl in H1.
    apply IH in H2. congruence.
  - injection H as -> ->. apply andb_true_iff. split.
    + now apply Byte.byte_dec_lb.
    + now apply IH.
Qed.

Lemma bytes_eqb_neq a b : bytes_eqb a b = false <-> a <> b.
Proof.
  rewrite <- bytes_eqb_eq. destruct (bytes_eqb a b); split; congruence.
Qed.

Lemma skipn_nth_cons (l : list byte) k :
  (k < length l)%nat -> skipn k l = nth k l x00 :: skipn (Datatypes.S k) l.
Proof.
  revert k. induction l as [|x l IH]; intros k Hk; cbn in Hk; [lia|].
  destruct k; [reflexivity|]. cbn [skipn nth]. apply IH. lia.
Qed.

Lemma slice_cons l i k :
  0 <= i < blen l -> 0 <= k ->
  slice l i (k + 1) = at_ l i :: slice l (i + 1) k.
Proof.
  intros Hi Hk. unfold slice, at_, blen in *.
  rewrite skipn_nth_cons by lia.
  replace (Z.to_nat (k + 1)) with (Datatypes.S (Z.to_nat k)) by lia.
  cbn [firstn]. do 2 f_equal. f_equal. lia.
Qed.

Lemma slice_nil l i : slice l i 0 = [].
Proof. reflexivity. Qed.

Lemma firstn_plus (l : list byte) a b :
  firstn (a + b) l = firstn a l ++ firstn b (skipn a l).
Proof.
  revert l. induction a as [|a IH]; intros l; [reflexivity|].
  destruct l as [|x l]; cbn [Nat.add firstn skipn app].
  - now rewrite firstn_nil.
  - now rewrite IH.
Qed.

Lemma slice_app l i a b :
  0 <= i -> 0 <= a -> 0 <= b ->
  slice l i (a + b) = slice l i a ++ slice l (i + a) b.
Proof.
  intros Hi Ha Hb. unfold slice.
  rewrite Z2Nat.inj_add by lia. rewrite firstn_plus. f_equal.
  rewrite skipn_skipn. do 2 f_equal. lia.
Qed.

Lemma slice_slice l i w o k :
  0 <= i -> 0 <= o -> 0 <= k -> o + k <= w ->
  slice (slice l i w) o k = slice l (i + o) k.
Proof.
  intros Hi Ho Hk Hw. unfold slice.
  rewrite skipn_firstn_comm, firstn_firstn, skipn_skipn.
  f_equal; [lia|]. f_equal. lia.
Qed.

Lemma slice_all l : slice l 0 (blen l) = l.
Proof.
  unfold slice, blen. rewrite Nat2Z.id. cbn [Z.to_nat skipn]. apply firstn_all.
Qed.

Lemma at_slice l i w k :
  0 <= i -> 0 <= k < w -> i + w <= blen l -> at_ (slice l i w) k = at_ l (i + k).
Proof.
  intros Hi Hk Hw. unfold at_, slice, blen in *.
  rewrite nth_firstn. replace (Z.to_nat k <? Z.to_nat w)%nat with true
    by (symmetry; apply Nat.ltb_lt; lia).
  rewrite nth_skipn. f_equal. lia.
Qed.

Lemma occurs_at_range hb nb i :
  0 <= i -> 1 <= blen nb -> occurs_at hb nb i -> i + blen nb <= blen hb.
Proof.
  unfold occurs_at, slice, blen. intros Hi Hn H.
  apply (f_equal (@length byte)) in H.
  rewrite length_firstn, length_skipn in H. lia.
Qed.

(** ** The first true of a list *)

Lemma first_true_some l o :
  first_true l = Some o ->
  0 <= o < Z.of_nat (length l) /\ nth (Z.to_nat o) l false = true /\
  forall o', 0 <= o' < o -> nth (Z.to_nat o') l false = false.
Proof.
  revert o. induction l as [|b l IH]; intros o H; cbn in H; [discriminate|].
  destruct b.
  - injection H as <-. cbn [length nth Z.to_nat]. repeat split; try lia.
  - destruct (first_true l) as [o1|] eqn:E; cbn in H; [|discriminate].
    injection H as <-. destruct (IH o1 eq_refl) as (R & T & F).
    cbn [length]. repeat split; try lia.
    + replace (Z.to_nat (Z.succ o1)) with (Datatypes.S (Z.to_nat o1)) by lia. exact T.
    + intros o' Ho'. destruct (Z.eq_dec o' 0) as [->|N]; [reflexivity|].
      replace (Z.to_nat o') with (Datatypes.S (Z.to_nat (o' - 1))) by lia.
      cbn [nth]. apply F. lia.
Qed.

Lemma first_true_none l :
  first_true l = None -> forall k, nth k l false = false.
Proof.
  induction l as [|b l IH]; intros H k; cbn in H.
  - destruct k; reflexivity.
  - destruct b; [discriminate|].
    destruct (first_true l); cbn in H; [discriminate|].
    destruct k; [reflexivity|]. cbn. now apply IH.
Qed.

Lemma offsets_length s : 0 <= s -> Z.of_nat (length (offsets s)) = s.
Proof. intros. unfold offsets. rewrite length_map, length_seq. lia. Qed.

Lemma offsets_nth (f : Z -> bool) s o :
  0 <= o < s -> nth (Z.to_nat o) (map f (offsets s)) false = f o.
Proof.
  intros H. unfold offsets. rewrite map_map.
  rewrite nth_indep with (d' := f (Z.of_nat 0)) by (rewrite length_map, length_seq; lia).
  rewrite (map_nth (fun k => f (Z.of_nat k)) (seq 0 (Z.to_nat s)) 0%nat).
  rewrite seq_nth by lia. f_equal. lia.
Qed.

Lemma first_hit_some hb nb i s o :
  0 <= s -> first_hit hb nb i s = Some o ->
  0 <= o < s /\ occurs_at hb nb (i + o) /\
  forall o', 0 <= o' < o -> ~ occurs_at hb nb (i + o').
Proof.
  intros Hs H. unfold first_hit in H. apply first_true_some in H as (R & T & F).
  rewrite length_map, offsets_length in R by lia.
  split; [lia|]. split.
  - rewrite offsets_nth in T by lia. now apply bytes_eqb_eq in T.
  - intros o' Ho'. specialize (F o' Ho'). rewrite offsets_nth in F by lia.
    now apply bytes_eqb_neq in F.
Qed.

Lemma first_hit_none hb nb i s :
  0 <= s -> first_hit hb nb i s = None ->
  forall o, 0 <= o < s -> ~ occurs_at hb nb (i + o).
Proof.
  intros Hs H o Ho. unfold first_hit in H.
  pose proof (first_true_none _ H (Z.to_nat o)) as F.
  rewrite offsets_nth in F by lia. now apply bytes_eqb_neq in F.
Qed.

(** ** Scanning loops

    A loop that, on every pass, reports the first occurrence among the next
    [stride] indices or moves on by [stride], finds the first occurrence
    overall. *)

Section ScanLoop.

Variables (hb nb : list byte) (cond : Z -> bool) (body : Z -> res (flow Z Z)).
Variables (stride w : Z).

Hypothesis stride_pos : 1 <= stride.
Hypothesis needle_pos : 1 <= blen nb.
Hypothesis window : stride + blen nb - 1 <= w.
Hypothesis body_scans : forall i, 0 <= i -> cond i = true ->
  i + w <= blen hb /\
  body i = match first_hit hb nb i stride with
           | Some o => Ret (Return (i + o))
           | None => Ret (Next (i + stride))
           end.

Lemma scan_loop fuel i0 :
  none_before hb nb i0 -> blen hb - i0 < Z.of_nat fuel ->
  returns (for_loop fuel cond body i0) (fun f =>
    match f with
    | Next i => (none_before hb nb i /\ i0 <= i) /\ cond i = false
    | Return r => found_first hb nb r
    end).
Proof.
  intros H0 Hf.
  apply for_loop_total with
    (Inv := fun i => none_before hb nb i /\ i0 <= i) (measure := fun i => blen hb - i).
  - intros i [[Hi _] _]. lia.
  - intros i [[Hi Hn] Hle] Hc.
    destruct (body_scans i (proj1 Hi) Hc) as [Hw ->].
    destruct (first_hit hb nb i stride) as [o|] eqn:E; cbn.
    + apply first_hit_some in E as (Ro & Occ & Fo); [|lia].
      unfold found_first. repeat split; try lia; [exact Occ|].
      intros j Hj. destruct (Z.lt_ge_cases j i).
      * apply Hn. lia.
      * replace j with (i + (j - i)) by lia. apply Fo. lia.
    + assert (0 <= stride) as Hs0 by lia. pose proof (first_hit_none hb nb i stride Hs0 E) as Fo.
      unfold none_before. repeat split; try lia.
      intros j Hj. destruct (Z.lt_ge_cases j i).
      * apply Hn. lia.
      * replace j with (i + (j - i)) by lia. apply Fo. lia.
  - split; [exact H0|lia].
  - lia.
Qed.

End ScanLoop.

(** ** Lanes of shifted and masked words, at fixed positions *)

Lemma lane_shl64_lo x s k :
  0 <= s -> s mod 8 = 0 -> 0 <= k < 8 -> k < s / 8 -> lane (shl64 x s) k = 0.
Proof.
  intros Hs Hm Hk Hlt.
  replace s with (8 * (s / 8)) by (rewrite (Z.div_mod s 8) at 2 by lia; lia).
  rewrite lane_shl64 by (try apply Z.div_pos; lia).
  destruct (Z.ltb_spec k (s / 8)); [reflexivity|lia].
Qed.

Lemma lane_shl64_hi x s k d :
  0 <= s -> s mod 8 = 0 -> 0 <= k < 8 -> s / 8 <= k -> d = k - s / 8 ->
  lane (shl64 x s) k = lane x d.
Proof.
  intros Hs Hm Hk Hge ->.
  replace s with (8 * (s / 8)) at 1 by (rewrite (Z.div_mod s 8) at 2 by lia; lia).
  rewrite lane_shl64 by (try apply Z.div_pos; lia).
  destruct (Z.ltb_spec k (s / 8)); [lia|reflexivity].
Qed.

Lemma lane_shiftr_at x s k d :
  0 <= s -> s mod 8 = 0 -> 0 <= k -> d = k + s / 8 ->
  lane (Z.shiftr x s) k = lane x d.
Proof.
  intros Hs Hm Hk ->.
  replace s with (8 * (s / 8)) at 1 by (rewrite (Z.div_mod s 8) at 2 by lia; lia).
  apply lane_shiftr; [lia|apply Z.div_pos; lia].
Qed.

Lemma lane_u8_0 b : lane (u8 b) 0 = u8 b.
Proof. rewrite lane_small by (try apply u8_range; lia). reflexivity. Qed.

Lemma lane_u8_pos b k : 0 < k -> lane (u8 b) k = 0.
Proof.
  intros Hk. rewrite lane_small by (try apply u8_range; lia).
  destruct (Z.eqb_spec k 0); [lia|reflexivity].
Qed.

Lemma lane_le_combine_at bs k : 0 <= k -> lane (le_combine bs) k = u8 (at_ bs k).
Proof. apply lane_le_combine. Qed.

Lemma land_ones_byte x : 0 <= x < 256 -> Z.land x 255 = x.
Proof.
  intros Hx. change 255 with (Z.ones 8). rewrite Z.land_ones by lia.
  apply Z.mod_small. change (2 ^ 8) with 256. lia.
Qed.

Lemma land_lane_255 x k : Z.land (lane x k) 255 = lane x k.
Proof. apply land_ones_byte, lane_range. Qed.

Lemma land_u8_255 b : Z.land (u8 b) 255 = u8 b.
Proof. apply land_ones_byte, u8_range. Qed.

Ltac closed_arith :=
  first [ lia | reflexivity | (vm_compute; first [reflexivity | discriminate]) ].

(** Pushes [lane] through the words the kernels build, at closed
    positions and shift amounts. *)
Ltac lane_norm :=
  repeat match goal with
  | |- context [lane (Z.lor ?a ?b) ?k] => rewrite (lane_lor a b k) by lia
  | |- context [lane (Z.land ?a ?b) ?k] => rewrite (lane_land a b k) by lia
  | |- context [lane (shl64 ?x ?s) ?k] =>
      let d := eval vm_compute in (k - s / 8) in
      first [ rewrite (lane_shl64_lo x s k) by closed_arith
            | rewrite (lane_shl64_hi x s k d) by closed_arith ]
  | |- context [lane (Z.shiftr ?x ?s) ?k] =>
      let d := eval vm_compute in (k + s / 8) in
      rewrite (lane_shiftr_at x s k d) by closed_arith
  | |- context [lane (u8 ?b) ?k] =>
      first [ rewrite (lane_u8_0 b) | rewrite (lane_u8_pos b k) by lia ]
  | |- context [lane (le_combine ?bs) ?k] =>
      let v := eval cbv [at_ nth Z.to_nat Pos.to_nat Pos.iter_op Nat.add] in (at_ bs k) in
      rewrite (lane_le_combine_at bs k) by lia; change (at_ bs k) with v
  | |- context [lane (Zpos ?p) ?k] =>
      let v := eval vm_compute in (lane (Zpos p) k) in
      change (lane (Zpos p) k) with v
  | |- context [lane 0 ?k] =>
      let v := eval vm_compute in (lane 0 k) in
      change (lane 0 k) with v
  | |- context [Z.land (lane ?x ?k) 255] => rewrite (land_lane_255 x k)
  | |- context [Z.land (u8 ?b) 255] => rewrite (land_u8_255 b)
  | |- context [Z.land ?a 0] => rewrite (Z.land_0_r a)
  | |- context [Z.lor 0 ?a] => rewrite (Z.lor_0_l a)
  | |- context [Z.lor ?a 0] => rewrite (Z.lor_0_r a)
  end.

Lemma plain_char_to_u64 sgn c : plain_char sgn c -> char_to_u64 sgn c = u8 c.
Proof.
  unfold plain_char, char_to_u64. intros [->|H]; [reflexivity|].
  replace (128 <=? u8 c) with false by (symmetry; apply Z.leb_gt; lia).
  now rewrite andb_false_r.
Qed.

Lemma slice_8 l i :
  0 <= i -> i + 8 <= blen l ->
  slice l i 8 = [at_ l (i + 0); at_ l (i + 1); at_ l (i + 2); at_ l (i + 3);
                 at_ l (i + 4); at_ l (i + 5); at_ l (i + 6); at_ l (i + 7)].
Proof.
  intros Hi Hl.
  change 8 with (0 + 1 + 1 + 1 + 1 + 1 + 1 + 1 + 1).
  rewrite !slice_cons by lia. rewrite slice_nil.
  replace (i + 0) with i by lia.
  replace (i + 1 + 1) with (i + 2) by lia.
  replace (i + 2 + 1) with (i + 3) by lia.
  replace (i + 3 + 1) with (i + 4) by lia.
  replace (i + 4 + 1) with (i + 5) by lia.
  replace (i + 5 + 1) with (i + 6) by lia.
  replace (i + 6 + 1) with (i + 7) by lia.
  reflexivity.
Qed.

Lemma slice_1 l i : 0 <= i -> i + 1 <= blen l -> slice l i 1 = [at_ l i].
Proof. intros. change 1 with (0 + 1). rewrite slice_cons by lia. reflexivity. Qed.

Lemma slice_2 l i :
  0 <= i -> i + 2 <= blen l -> slice l i 2 = [at_ l i; at_ l (i + 1)].
Proof.
  intros. change 2 with (1 + 1). rewrite slice_cons by lia.
  now rewrite slice_1 by lia.
Qed.

Lemma slice_3 l i :
  0 <= i -> i + 3 <= blen l -> slice l i 3 = [at_ l i; at_ l (i + 1); at_ l (i + 2)].
Proof.
  intros. change 3 with (2 + 1). rewrite slice_cons by lia.
  rewrite slice_2 by lia. replace (i + 1 + 1) with (i + 2) by lia. reflexivity.
Qed.

Lemma slice_4 l i :
  0 <= i -> i + 4 <= blen l ->
  slice l i 4 = [at_ l i; at_ l (i + 1); at_ l (i + 2); at_ l (i + 3)].
Proof.
  intros. change 4 with (3 + 1). rewrite slice_cons by lia.
  rewrite slice_3 by lia. replace (i + 1 + 1) with (i + 2) by lia.
  replace (i + 1 + 2) with (i + 3) by lia. reflexivity.
Qed.

(** ** The single-byte kernels: one 8-byte slice *)

Lemma char_indicators_lanes x t :
  char_indicators x t =
  bits_at [(0, lane x 0 =? lane t 0); (8, lane x 1 =? lane t 1);
           (16, lane x 2 =? lane t 2); (24, lane x 3 =? lane t 3);
           (32, lane x 4 =? lane t 4); (40, lane x 5 =? lane t 5);
           (48, lane x 6 =? lane t 6); (56, lane x 7 =? lane t 7)].
Proof.
  unfold char_indicators. cbv zeta.
  change (Z.land _ 0x0101010101010101) with
    (Z.land (fold8 (not64 (Z.lxor x t))) (mask_of [0; 8; 16; 24; 32; 40; 48; 56])).
  rewrite land_mask by (repeat constructor; lia).
  cbn [map]. rewrite !fold8_lane_at by (first [lia | reflexivity]).
  reflexivity.
Qed.

Lemma char_logic b0 b1 b2 b3 b4 b5 b6 b7 :
  let l := [b0; b1; b2; b3; b4; b5; b6; b7] in
  let m := bits_at [(0, b0); (8, b1); (16, b2); (24, b3);
                    (32, b4); (40, b5); (48, b6); (56, b7)] in
  match first_true l with
  | None => m = 0
  | Some o => m <> 0 /\ ctzll m / 8 = o
  end /\
  popcountll m = fold_right Z.add 0 (map Z.b2z l).
Proof.
  destruct b0, b1, b2, b3, b4, b5, b6, b7; vm_compute;
    (split; [first [reflexivity | split; [discriminate|reflexivity]]|reflexivity]).
Qed.

(** Whatever the template, a non-zero indicator word points into the slice
    and its population count is at most 8. *)
Lemma char_probe_range x t :
  let m := char_indicators x t in
  (m <> 0 -> 0 <= ctzll m / 8 < 8) /\ 0 <= popcountll m <= 8 /\
  (m = 0 <-> popcountll m = 0).
Proof.
  cbv zeta. rewrite char_indicators_lanes.
  destruct (lane x 0 =? lane t 0), (lane x 1 =? lane t 1), (lane x 2 =? lane t 2),
    (lane x 3 =? lane t 3), (lane x 4 =? lane t 4), (lane x 5 =? lane t 5),
    (lane x 6 =? lane t 6), (lane x 7 =? lane t 7); vm_compute;
    intuition (try discriminate; try congruence).
Qed.

Lemma char_template_lane sgn n k :
  plain_char sgn n -> 0 <= k < 8 -> lane (char_template sgn n) k = u8 n.
Proof.
  intros Hp Hk. unfold char_template. cbv zeta. rewrite plain_char_to_u64 by assumption.
  assert (k = 0 \/ k = 1 \/ k = 2 \/ k = 3 \/ k = 4 \/ k = 5 \/ k = 6 \/ k = 7)
    as C by lia.
  repeat (destruct C as [->|C]); try subst k; lane_norm; reflexivity.
Qed.

Lemma char_slice_exact sgn hb n i :
  plain_char sgn n -> 0 <= i -> i + 8 <= blen hb ->
  let m := char_indicators (le_combine (slice hb i 8)) (char_template sgn n) in
  match first_hit hb [n] i 8 with
  | None => m = 0
  | Some o => m <> 0 /\ ctzll m / 8 = o
  end /\
  popcountll m = fold_right Z.add 0 (map (fun c => Z.b2z (Byte.eqb c n)) (slice hb i 8)).
Proof.
  intros Hp Hi Hl. cbv zeta. rewrite char_indicators_lanes.
  rewrite !char_template_lane by (assumption || lia).
  rewrite slice_8 by lia. lane_norm. rewrite !u8_eqb.
  unfold first_hit. change (offsets 8) with [0; 1; 2; 3; 4; 5; 6; 7].
  cbn [map blen length Z.of_nat Pos.of_succ_nat].
  rewrite !slice_1 by lia. cbn [bytes_eqb]. rewrite !andb_true_r.
  apply char_logic.
Qed.

(** ** [strzl_naive_find_char] and [strzl_naive_count_char] *)

Lemma h_len_fuel h i : 0 <= i -> h_len h - i < Z.of_nat (loop_fuel h).
Proof. unfold h_len, blen, loop_fuel. lia. Qed.

Lemma first_hit_1 hb nb i :
  first_hit hb nb i 1 =
  if bytes_eqb (slice hb (i + 0) (blen nb)) nb then Some 0 else None.
Proof.
  unfold first_hit. change (offsets 1) with [0]. cbn [map first_true].
  destruct (bytes_eqb _ _); reflexivity.
Qed.

(** The byte-by-byte loops of the single-byte finder scan with stride 1. *)
Lemma test_byte_scans hb n i :
  0 <= i -> i < blen hb ->
  (c <- read_byte hb i ;;
   if Byte.eqb c n then Ret (Return i) else Ret (Next (i + 1))) =
  match first_hit hb [n] i 1 with
  | Some o => Ret (Return (i + o))
  | None => Ret (Next (i + 1))
  end.
Proof.
  intros Hi Hl. rewrite read_byte_in by lia. cbn [bind].
  rewrite first_hit_1. rewrite Z.add_0_r.
  change (blen [n]) with 1. rewrite slice_1 by lia.
  cbn [bytes_eqb]. rewrite andb_true_r. fold (at_ hb i).
  destruct (Byte.eqb (at_ hb i) n); rewrite ?Z.add_0_r; reflexivity.
Qed.

Lemma none_before_0 hb nb : none_before hb nb 0.
Proof. split; [pose proof (blen_nonneg hb); lia|intros; lia]. Qed.

Lemma found_first_occurrence hb nb limit r :
  found_first hb nb r -> first_occurrence hb nb limit r.
Proof. intros H. left. exact H. Qed.

(** On bytes that convert without sign extension the finder returns the
    first index holding the byte, or the length when there is none. *)
Lemma find_char_first sgn h n :
  plain_char sgn n ->
  returns (strzl_naive_find_char sgn h n)
          (first_occurrence (h_bytes h) [n] (h_len h - 1)).
Proof.
  intros Hp. unfold strzl_naive_find_char. cbv zeta.
  eapply returns_and_then.
  { apply scan_loop with (hb := h_bytes h) (nb := [n]) (stride := 1) (w := 1); try (cbn; lia).
    - intros i Hi Hc. apply andb_true_iff in Hc as [_ Hc]. apply Z.ltb_lt in Hc.
      unfold h_len in Hc. split; [lia|]. now apply test_byte_scans.
    - apply none_before_0.
    - apply h_len_fuel. lia. }
  { intros r Hr. now apply found_first_occurrence. }
  intros i1 [[Hn1 _] _].
  eapply returns_and_then.
  { apply scan_loop with (hb := h_bytes h) (nb := [n]) (stride := 8) (w := 8); try (cbn; lia).
    - intros i Hi Hc. apply Z.leb_le in Hc. unfold h_len in Hc. split; [lia|].
      rewrite load_le_in by lia. cbn [bind].
      destruct (char_slice_exact sgn (h_bytes h) n i Hp Hi Hc) as [E _].
      cbv zeta in E. destruct (first_hit (h_bytes h) [n] i 8) as [o|].
      + destruct E as [E1 E2]. apply Z.eqb_neq in E1. rewrite E1, E2. reflexivity.
      + rewrite E. reflexivity.
    - exact Hn1.
    - apply h_len_fuel. apply Hn1. }
  { intros r Hr. now apply found_first_occurrence. }
  intros i2 [[Hn2 _] _].
  eapply returns_and_then.
  { apply scan_loop with (hb := h_bytes h) (nb := [n]) (stride := 1) (w := 1); try (cbn; lia).
    - intros i Hi Hc. apply Z.ltb_lt in Hc.
      unfold h_len in Hc. split; [lia|]. now apply test_byte_scans.
    - exact Hn2.
    - apply h_len_fuel. apply Hn2. }
  { intros r Hr. now apply found_first_occurrence. }
  intros i3 [[[Hr3 Hn3] _] Hc3]. cbn. right. split; [reflexivity|].
  apply Z.ltb_ge in Hc3. intros j Hj. apply Hn3. lia.
Qed.

(** ** The finder and the counter, pass by pass

    Two loops over the same indices, one that may return and one that
    accumulates, run in lock step: while the finder falls through the
    count stands still, and once the finder has returned the count has
    grown. *)

Section PairLoop.

Variables (condF : Z -> bool) (bodyF : Z -> res (flow Z Z)).
Variables (condC : Z * Z -> bool) (bodyC : Z * Z -> res (flow (Z * Z) Z)).
Variables (Inv : Z -> Z -> Prop) (Hit : Z -> Prop) (measure : Z -> Z).

Hypothesis cond_same : forall i c, condC (i, c) = condF i.
Hypothesis measure_nonneg : forall i c, Inv i c -> 0 <= measure i.
Hypothesis step : forall i c, Inv i c -> condF i = true ->
  exists i' c',
    bodyC (i, c) = Ret (Next (i', c')) /\ Inv i' c' /\ measure i' < measure i /\
    ((bodyF i = Ret (Next i') /\ c' = c) \/
     (c < c' /\ exists r, bodyF i = Ret (Return r) /\ Hit r)).

Lemma pair_loop : forall fuel i c,
  Inv i c -> measure i < Z.of_nat fuel ->
  exists i' c',
    for_loop fuel condC bodyC (i, c) = Ret (Next (i', c')) /\
    Inv i' c' /\ condF i' = false /\ c <= c' /\
    ((for_loop fuel condF bodyF i = Ret (Next i') /\ c' = c) \/
     (c < c' /\ exists r, for_loop fuel condF bodyF i = Ret (Return r) /\ Hit r)).
Proof.
  induction fuel as [|fuel IH]; intros i c HI Hm.
  - specialize (measure_nonneg i c HI). lia.
  - cbn [for_loop]. rewrite cond_same. destruct (condF i) eqn:Hc.
    + destruct (step i c HI Hc) as (i' & c' & EC & HI' & Hm' & Hcase).
      rewrite EC.
      destruct (IH i' c' HI' ltac:(lia)) as (i2 & c2 & EC2 & HI2 & Hc2 & Hle & Hcase2).
      exists i2, c2. rewrite EC2.
      destruct Hcase as [[EF ->]|[Hlt (r & EF & Hr)]]; rewrite EF.
      * repeat split; auto.
      * repeat split; auto; try lia. right. split; [lia|]. exists r. auto.
    + exists i, c. repeat split; auto; try lia.
Qed.

End PairLoop.

Lemma add64_small a b : 0 <= a -> 0 <= b -> a + b < 2 ^ 64 -> add64 a b = a + b.
Proof. intros. unfold add64, wrap64. apply Z.mod_small. lia. Qed.

Lemma pair_bytes h n i c :
  h_len h < 2 ^ 64 -> counting_inv h i c -> i < h_len h ->
  exists i' c',
    (let '(i, result) := (i, c) in
     x <- read_byte (h_bytes h) i ;;
     Ret (Next (i + 1, add64 result (Z.b2z (Byte.eqb x n)))))
    = Ret (Next (i', c') : flow (Z * Z) Z) /\
    counting_inv h i' c' /\ h_len h - i' < h_len h - i /\
    (((x <- read_byte (h_bytes h) i ;;
       if Byte.eqb x n then Ret (Return i) else Ret (Next (i + 1)))
      = Ret (Next i') /\ c' = c) \/
     (c < c' /\ exists r,
        (x <- read_byte (h_bytes h) i ;;
         if Byte.eqb x n then Ret (Return i) else Ret (Next (i + 1)))
        = Ret (Return r) /\ 0 <= r < h_len h)).
Proof.
  intros H64 [Hi Hc] Hlt. exists (i + 1).
  exists (c + Z.b2z (Byte.eqb (at_ (h_bytes h) i) n)).
  unfold h_len in *. rewrite read_byte_in by lia. cbn [bind]. fold (at_ (h_bytes h) i).
  destruct (Byte.eqb (at_ (h_bytes h) i) n); cbn [Z.b2z].
  - rewrite add64_small by lia.
    split; [reflexivity|]. split; [unfold counting_inv, h_len; lia|]. split; [lia|].
    right. split; [lia|]. exists i. split; [reflexivity|lia].
  - rewrite add64_small by lia.
    split; [reflexivity|]. split; [unfold counting_inv, h_len; lia|]. split; [lia|].
    left. split; [reflexivity|lia].
Qed.

Lemma pair_slices sgn h n i c :
  h_len h < 2 ^ 64 -> counting_inv h i c -> i + 8 <= h_len h ->
  exists i' c',
    (let '(i, result) := (i, c) in
     h_slice <- load_le (h_bytes h) i 8 ;;
     let match_indicators := char_indicators h_slice (char_template sgn n) in
     Ret (Next (i + 8, add64 result (popcountll match_indicators))))
    = Ret (Next (i', c') : flow (Z * Z) Z) /\
    counting_inv h i' c' /\ h_len h - i' < h_len h - i /\
    (((h_slice <- load_le (h_bytes h) i 8 ;;
       let match_indicators := char_indicators h_slice (char_template sgn n) in
       if negb (match_indicators =? 0)
       then Ret (Return (i + ctzll match_indicators / 8))
       else Ret (Next (i + 8)))
      = Ret (Next i') /\ c' = c) \/
     (c < c' /\ exists r,
        (h_slice <- load_le (h_bytes h) i 8 ;;
         let match_indicators := char_indicators h_slice (char_template sgn n) in
         if negb (match_indicators =? 0)
         then Ret (Return (i + ctzll match_indicators / 8))
         else Ret (Next (i + 8)))
        = Ret (Return r) /\ 0 <= r < h_len h)).
Proof.
  intros H64 [Hi Hc] Hle. unfold h_len in *.
  rewrite load_le_in by lia. cbn [bind]. cbv zeta.
  set (m := char_indicators _ _).
  destruct (char_probe_range (le_combine (slice (h_bytes h) i 8)) (char_template sgn n))
    as (Hctz & Hpop & Hzero).
  cbv zeta in Hctz, Hpop, Hzero. fold m in Hctz, Hpop, Hzero.
  exists (i + 8), (c + popcountll m).
  rewrite add64_small by lia. split; [reflexivity|].
  split; [unfold counting_inv, h_len; lia|]. split; [lia|].
  destruct (Z.eqb_spec m 0) as [E|E]; cbn [negb].
  - left. split; [reflexivity|]. apply Hzero in E. lia.
  - right. split.
    + assert (popcountll m <> 0) by (intros A; apply E, Hzero, A). lia.
    + exists (i + ctzll m / 8). split; [reflexivity|]. specialize (Hctz E). lia.
Qed.

(** C10: for every haystack that fits a [size_t] length and every byte,
    [strzl_naive_find_char] returns an index below the length if and only
    if [strzl_naive_count_char] returns a positive count. *)
Theorem find_char_hit_iff_count_positive (char_signed : bool)
    (h : strzl_haystack_t) (c : byte) :
  h_len h < 2 ^ 64 ->
  exists r k,
    strzl_naive_find_char char_signed h c = Ret r /\
    strzl_naive_count_char char_signed h c = Ret k /\
    (r < h_len h <-> 0 < k).
Proof.
  intros H64. unfold strzl_naive_find_char, strzl_naive_count_char. cbv zeta.
  assert (counting_inv h 0 0) as I0
    by (unfold counting_inv, h_len; pose proof (blen_nonneg (h_bytes h)); lia).
  (* prologue *)
  match goal with
  | |- context [and_then (for_loop ?f ?cF ?bF 0)] =>
    match goal with
    | |- context [and_then (for_loop f ?cC ?bC (0, 0))] =>
      destruct (pair_loop cF bF cC bC (counting_inv h) (fun r => 0 <= r < h_len h)
                  (fun j => h_len h - j)) with (fuel := f) (i := 0) (c := 0)
        as (i1 & c1 & EC1 & I1 & _ & Hc1 & Case1)
    end
  end.
  { reflexivity. }
  { intros i c0 [Hi _]. lia. }
  { intros i c0 HI Hc. apply andb_true_iff in Hc as [_ Hc]. apply Z.ltb_lt in Hc.
    now apply pair_bytes. }
  { exact I0. }
  { apply h_len_fuel. lia. }
  rewrite EC1. cbn [and_then].
  (* SWAR loop *)
  match goal with
  | |- context [and_then (for_loop ?f ?cC ?bC (i1, c1))] =>
    match type of Case1 with
    | context [for_loop _ ?cF1 ?bF1 0] =>
      match goal with
      | |- context [and_then (for_loop f cF1 bF1 0) (fun z => and_then (for_loop _ ?cF ?bF z) _)] =>
        destruct (pair_loop cF bF cC bC (counting_inv h) (fun r => 0 <= r < h_len h)
                    (fun j => h_len h - j)) with (fuel := f) (i := i1) (c := c1)
          as (i2 & c2 & EC2 & I2 & _ & Hc2 & Case2)
      end
    end
  end.
  { reflexivity. }
  { intros i c0 [Hi _]. lia. }
  { intros i c0 HI Hc. apply Z.leb_le in Hc. now apply pair_slices. }
  { exact I1. }
  { apply h_len_fuel. apply I1. }
  rewrite EC2. cbn [and_then].
  (* tail *)
  match goal with
  | |- context [and_then (for_loop ?f ?cC ?bC (i2, c2))] =>
    match type of Case2 with
    | context [for_loop _ ?cF2 ?bF2 i1] =>
      match goal with
      | |- context [and_then (for_loop _ cF2 bF2 _) (fun z => and_then (for_loop _ ?cF ?bF z) _)] =>
        destruct (pair_loop cF bF cC bC (counting_inv h) (fun r => 0 <= r < h_len h)
                    (fun j => h_len h - j)) with (fuel := f) (i := i2) (c := c2)
          as (i3 & c3 & EC3 & I3 & _ & Hc3 & Case3)
      end
    end
  end.
  { reflexivity. }
  { intros i c0 [Hi _]. lia. }
  { intros i c0 HI Hc. apply Z.ltb_lt in Hc. now apply pair_bytes. }
  { exact I2. }
  { apply h_len_fuel. apply I2. }
  rewrite EC3. cbn [and_then snd].
  destruct I1 as [_ B1]. destruct I2 as [_ B2]. destruct I3 as [_ B3].
  destruct Case1 as [[EF1 ->]|[Hlt1 (r & EF1 & Hr)]]; rewrite EF1; cbn [and_then].
  2:{ exists r, c3. repeat split; auto; lia. }
  destruct Case2 as [[EF2 ->]|[Hlt2 (r & EF2 & Hr)]]; rewrite EF2; cbn [and_then].
  2:{ exists r, c3. repeat split; auto; lia. }
  destruct Case3 as [[EF3 ->]|[Hlt3 (r & EF3 & Hr)]]; rewrite EF3; cbn [and_then].
  2:{ exists r, c3. repeat split; auto; lia. }
  exists (h_len h), 0. repeat split; auto; lia.
Qed.

(** ** The 2-byte kernel: one 8-byte slice *)

Lemma fold16_lane_at x y p k :
  0 <= k -> k + 2 <= 8 -> p = 8 * k ->
  Z.testbit (fold16 (not64 (Z.lxor x y))) p = lanes2_eq x y k.
Proof.
  intros Hk Hk2 ->. unfold fold16, lanes2_eq. cbv zeta.
  rewrite Z.land_spec, Z.shiftr_spec by lia.
  replace (8 * k + 8) with (8 * (k + 1)) by lia.
  rewrite !fold8_lane by lia. reflexivity.
Qed.

Ltac fold16_bits :=
  repeat match goal with
  | |- context [Z.testbit (fold16 (not64 (Z.lxor ?x ?y))) ?p] =>
      let k := eval vm_compute in (p / 8) in
      rewrite (fold16_lane_at x y p k) by closed_arith
  end.

Lemma indicators_2chars_lanes x t :
  indicators_2chars x t =
  (bits_at [(0, lanes2_eq x t 0); (16, lanes2_eq x t 2);
            (32, lanes2_eq x t 4); (48, lanes2_eq x t 6)],
   bits_at [(16, lanes2_eq (shl64 x 8) t 2); (32, lanes2_eq (shl64 x 8) t 4);
            (48, lanes2_eq (shl64 x 8) t 6)]).
Proof.
  unfold indicators_2chars. cbv zeta. f_equal.
  - change (Z.land _ 0x0001000100010001) with
      (Z.land (fold16 (not64 (Z.lxor x t))) (mask_of [0; 16; 32; 48])).
    rewrite land_mask by (repeat constructor; lia).
    cbn [map]. fold16_bits. reflexivity.
  - change (Z.land _ 0x0001000100010000) with
      (Z.land (fold16 (not64 (Z.lxor (shl64 x 8) t))) (mask_of [16; 32; 48])).
    rewrite land_mask by (repeat constructor; lia).
    cbn [map]. fold16_bits. reflexivity.
Qed.

Lemma two_logic e0 o1 e2 o3 e4 o5 e6 :
  let even := bits_at [(0, e0); (16, e2); (32, e4); (48, e6)] in
  let odd := bits_at [(16, o1); (32, o3); (48, o5)] in
  match first_true [e0; o1; e2; o3; e4; o5; e6] with
  | None => add64 even odd = 0
  | Some o => add64 even odd <> 0 /\ ctzll (Z.lor even (Z.shiftr odd 8)) / 8 = o
  end.
Proof.
  destruct e0, o1, e2, o3, e4, o5, e6; vm_compute;
    first [reflexivity | split; [discriminate|reflexivity]].
Qed.

(** Whatever the template, a hit reported in a slice lies among its first
    seven offsets. *)
Lemma two_probe_range x t :
  let '(even, odd) := indicators_2chars x t in
  add64 even odd <> 0 -> 0 <= ctzll (Z.lor even (Z.shiftr odd 8)) / 8 < 7.
Proof.
  rewrite indicators_2chars_lanes.
  generalize (lanes2_eq x t 0), (lanes2_eq x t 2), (lanes2_eq x t 4), (lanes2_eq x t 6),
    (lanes2_eq (shl64 x 8) t 2), (lanes2_eq (shl64 x 8) t 4), (lanes2_eq (shl64 x 8) t 6).
  intros e0 e2 e4 e6 o1 o3 o5.
  destruct e0, o1, e2, o3, e4, o5, e6; vm_compute; intuition congruence.
Qed.

Lemma template_2chars_lane sgn n0 n1 k :
  plain_char sgn n0 -> plain_char sgn n1 -> 0 <= k < 8 ->
  lane (template_2chars sgn n0 n1) k = u8 (if Z.even k then n0 else n1).
Proof.
  intros H0 H1 Hk. unfold template_2chars. cbv zeta.
  rewrite !plain_char_to_u64 by assumption.
  assert (k = 0 \/ k = 1 \/ k = 2 \/ k = 3 \/ k = 4 \/ k = 5 \/ k = 6 \/ k = 7)
    as C by lia.
  repeat (destruct C as [->|C]); try subst k; lane_norm; reflexivity.
Qed.

(** Brings [i + a + b] with closed [a], [b] to [i + c]. *)
Ltac norm_idx :=
  rewrite <- ?Z.add_assoc;
  repeat match goal with
  | |- context [at_ ?l (?i + (?a + ?b))] =>
      let v := eval vm_compute in (a + b) in change (a + b) with v
  end.

Lemma two_slice_exact sgn hb n0 n1 i :
  plain_char sgn n0 -> plain_char sgn n1 -> 0 <= i -> i + 8 <= blen hb ->
  let '(even, odd) :=
    indicators_2chars (le_combine (slice hb i 8)) (template_2chars sgn n0 n1) in
  match first_hit hb [n0; n1] i 7 with
  | None => add64 even odd = 0
  | Some o => add64 even odd <> 0 /\ ctzll (Z.lor even (Z.shiftr odd 8)) / 8 = o
  end.
Proof.
  intros H0 H1 Hi Hl. rewrite indicators_2chars_lanes. unfold lanes2_eq.
  repeat match goal with
  | |- context [?a + 1] => let v := eval vm_compute in (a + 1) in
                           progress change (a + 1) with v
  end.
  rewrite slice_8 by lia. lane_norm.
  rewrite !(template_2chars_lane sgn n0 n1) by (assumption || lia).
  cbn [Z.even]. rewrite !u8_eqb.
  unfold first_hit. change (offsets 7) with [0; 1; 2; 3; 4; 5; 6].
  cbn [map blen length Z.of_nat Pos.of_succ_nat].
  rewrite !slice_2 by lia. cbn [bytes_eqb]. rewrite !andb_true_r. norm_idx.
  apply two_logic.
Qed.

(** ** The 3-byte kernel: one 8-byte slice *)

Lemma fold_3chars_lanes x t :
  fold_3chars (not64 (Z.lxor x t)) =
  bits_at [(16, lanes3_eq x t 2); (40, lanes3_eq x t 5)].
Proof.
  pose (f := fold8 (not64 (Z.lxor x t))).
  change (fold_3chars (not64 (Z.lxor x t)))
    with (Z.land (Z.land (Z.land (Z.shiftr f 16) (Z.shiftr f 8)) (Z.shiftr f 0))
                 (mask_of [16; 40])).
  rewrite land_mask by (repeat constructor; lia).
  cbn [map]. rewrite !Z.land_spec, !Z.shiftr_spec by lia. subst f.
  change (16 + 16) with (8 * 4). change (16 + 8) with (8 * 3). change (16 + 0) with (8 * 2).
  change (40 + 16) with (8 * 7). change (40 + 8) with (8 * 6). change (40 + 0) with (8 * 5).
  rewrite !fold8_lane by lia. unfold lanes3_eq.
  change (2 + 1) with 3. change (2 + 2) with 4. change (5 + 1) with 6. change (5 + 2) with 7.
  destruct (lane x 2 =? lane t 2), (lane x 3 =? lane t 3), (lane x 4 =? lane t 4),
    (lane x 5 =? lane t 5), (lane x 6 =? lane t 6), (lane x 7 =? lane t 7); reflexivity.
Qed.

Lemma indicators_3chars_lanes x t :
  indicators_3chars x t =
  Z.lor (Z.lor (bits_at [(16, lanes3_eq x t 2); (40, lanes3_eq x t 5)])
               (Z.shiftr (bits_at [(16, lanes3_eq (shl64 x 8) t 2);
                                   (40, lanes3_eq (shl64 x 8) t 5)]) 8))
        (Z.shiftr (bits_at [(16, lanes3_eq (shl64 x 16) t 2);
                            (40, lanes3_eq (shl64 x 16) t 5)]) 16).
Proof.
  unfold indicators_3chars. cbv zeta. now rewrite !fold_3chars_lanes.
Qed.

Lemma three_logic t0 s1 f2 t3 s4 f5 :
  let m := Z.lor (Z.lor (bits_at [(16, f2); (40, f5)])
                        (Z.shiftr (bits_at [(16, s1); (40, s4)]) 8))
                 (Z.shiftr (bits_at [(16, t0); (40, t3)]) 16) in
  match first_true [t0; s1; f2; t3; s4; f5] with
  | None => m = 0
  | Some o => m <> 0 /\ ctzll m / 8 = o
  end.
Proof.
  destruct t0, s1, f2, t3, s4, f5; vm_compute;
    first [reflexivity | split; [discriminate|reflexivity]].
Qed.

Lemma three_probe_range x t :
  let m := indicators_3chars x t in
  m <> 0 -> 0 <= ctzll m / 8 < 6.
Proof.
  cbv zeta. rewrite indicators_3chars_lanes.
  generalize (lanes3_eq x t 2), (lanes3_eq x t 5),
    (lanes3_eq (shl64 x 8) t 2), (lanes3_eq (shl64 x 8) t 5),
    (lanes3_eq (shl64 x 16) t 2), (lanes3_eq (shl64 x 16) t 5).
  intros f2 f5 s1 s4 t0 t3.
  destruct t0, s1, f2, t3, s4, f5; vm_compute; intuition congruence.
Qed.

Lemma template_3chars_lane sgn n0 n1 n2 k :
  plain_char sgn n0 -> plain_char sgn n1 -> plain_char sgn n2 -> 2 <= k < 8 ->
  lane (template_3chars sgn n0 n1 n2) k =
  u8 (if (k =? 2) || (k =? 5) then n0 else if (k =? 3) || (k =? 6) then n1 else n2).
Proof.
  intros H0 H1 H2 Hk. unfold template_3chars. cbv zeta.
  rewrite !plain_char_to_u64 by assumption.
  assert (k = 2 \/ k = 3 \/ k = 4 \/ k = 5 \/ k = 6 \/ k = 7) as C by lia.
  repeat (destruct C as [->|C]); try subst k; lane_norm; reflexivity.
Qed.

Ltac norm_lane_idx :=
  repeat match goal with
  | |- context [lane ?x (?a + ?b)] =>
      let v := eval vm_compute in (a + b) in progress change (a + b) with v
  end.

Lemma three_slice_exact sgn hb n0 n1 n2 i :
  plain_char sgn n0 -> plain_char sgn n1 -> plain_char sgn n2 ->
  0 <= i -> i + 8 <= blen hb ->
  let m := indicators_3chars (le_combine (slice hb i 8)) (template_3chars sgn n0 n1 n2) in
  match first_hit hb [n0; n1; n2] i 6 with
  | None => m = 0
  | Some o => m <> 0 /\ ctzll m / 8 = o
  end.
Proof.
  intros H0 H1 H2 Hi Hl. cbv zeta. rewrite indicators_3chars_lanes. unfold lanes3_eq.
  norm_lane_idx.
  rewrite slice_8 by lia. lane_norm.
  rewrite !(template_3chars_lane sgn n0 n1 n2) by (assumption || lia).
  cbn [Z.eqb Pos.eqb orb]. rewrite !u8_eqb.
  unfold first_hit. change (offsets 6) with [0; 1; 2; 3; 4; 5].
  cbn [map blen length Z.of_nat Pos.of_succ_nat].
  rewrite !slice_3 by lia. cbn [bytes_eqb]. rewrite !andb_true_r. norm_idx.
  apply three_logic.
Qed.

(** ** The 4-byte kernel: one 8-byte slice *)

Lemma fold_4chars_lanes x t :
  fold_4chars (not64 (Z.lxor x t)) =
  bits_at [(0, lanes4_eq x t 0); (32, lanes4_eq x t 4)].
Proof.
  change (fold_4chars (not64 (Z.lxor x t)))
    with (Z.land (fold32 (not64 (Z.lxor x t))) (mask_of [0; 32])).
  rewrite land_mask by (repeat constructor; lia).
  cbn [map]. unfold fold32. cbv zeta.
  rewrite !Z.land_spec, !Z.shiftr_spec by lia.
  change (0 + 16) with 16. change (32 + 16) with 48.
  fold16_bits. unfold lanes4_eq, lanes2_eq. norm_lane_idx.
  destruct (lane x 0 =? lane t 0), (lane x 1 =? lane t 1), (lane x 2 =? lane t 2),
    (lane x 3 =? lane t 3), (lane x 4 =? lane t 4), (lane x 5 =? lane t 5),
    (lane x 6 =? lane t 6), (lane x 7 =? lane t 7); reflexivity.
Qed.

Lemma indicators_4chars_lanes x t :
  indicators_4chars x t =
  (bits_at [(0, lanes4_eq (swizzle01 x) t 0); (32, lanes4_eq (swizzle01 x) t 4)],
   bits_at [(0, lanes4_eq (swizzle23 x) t 0); (32, lanes4_eq (swizzle23 x) t 4)]).
Proof.
  unfold indicators_4chars. cbv zeta.
  fold (swizzle01 x). fold (swizzle23 x). now rewrite !fold_4chars_lanes.
Qed.

Lemma four_logic a0 a1 a2 a3 :
  let h01 := bits_at [(0, a0); (32, a1)] in
  let h23 := bits_at [(0, a2); (32, a3)] in
  match first_true [a0; a1; a2; a3] with
  | None => add64 h01 h23 = 0
  | Some o => add64 h01 h23 <> 0 /\
              table_get lookup_4chars (table_index_4chars h01 h23) = Ret o
  end.
Proof.
  destruct a0, a1, a2, a3; vm_compute;
    first [reflexivity | split; [discriminate|reflexivity]].
Qed.

Lemma four_probe_range x t :
  let '(h01, h23) := indicators_4chars x t in
  add64 h01 h23 <> 0 ->
  exists off, table_get lookup_4chars (table_index_4chars h01 h23) = Ret off /\
              0 <= off < 4.
Proof.
  rewrite indicators_4chars_lanes.
  generalize (lanes4_eq (swizzle01 x) t 0), (lanes4_eq (swizzle01 x) t 4),
    (lanes4_eq (swizzle23 x) t 0), (lanes4_eq (swizzle23 x) t 4).
  intros a0 a1 a2 a3 H.
  pose proof (four_logic a0 a1 a2 a3) as L. cbv zeta in L.
  destruct (first_true [a0; a1; a2; a3]) as [o|] eqn:E; [|contradiction].
  exists o. split; [apply L|].
  apply first_true_some in E. cbn [length] in E. lia.
Qed.

Lemma template_4chars_lane sgn n0 n1 n2 n3 k :
  plain_char sgn n0 -> plain_char sgn n1 -> plain_char sgn n2 -> plain_char sgn n3 ->
  0 <= k < 8 ->
  lane (template_4chars sgn n0 n1 n2 n3) k =
  u8 (if (k =? 0) || (k =? 4) then n0 else if (k =? 1) || (k =? 5) then n1
      else if (k =? 2) || (k =? 6) then n2 else n3).
Proof.
  intros H0 H1 H2 H3 Hk. unfold template_4chars. cbv zeta.
  rewrite !plain_char_to_u64 by assumption.
  assert (k = 0 \/ k = 1 \/ k = 2 \/ k = 3 \/ k = 4 \/ k = 5 \/ k = 6 \/ k = 7)
    as C by lia.
  repeat (destruct C as [->|C]); try subst k; lane_norm; reflexivity.
Qed.

Lemma four_slice_exact sgn hb n0 n1 n2 n3 i :
  plain_char sgn n0 -> plain_char sgn n1 -> plain_char sgn n2 -> plain_char sgn n3 ->
  0 <= i -> i + 8 <= blen hb ->
  let '(h01, h23) :=
    indicators_4chars (le_combine (slice hb i 8)) (template_4chars sgn n0 n1 n2 n3) in
  match first_hit hb [n0; n1; n2; n3] i 4 with
  | None => add64 h01 h23 = 0
  | Some o => add64 h01 h23 <> 0 /\
              table_get lookup_4chars (table_index_4chars h01 h23) = Ret o
  end.
Proof.
  intros H0 H1 H2 H3 Hi Hl. rewrite indicators_4chars_lanes.
  unfold lanes4_eq, swizzle01, swizzle23. norm_lane_idx.
  rewrite slice_8 by lia. lane_norm.
  rewrite !(template_4chars_lane sgn n0 n1 n2 n3) by (assumption || lia).
  cbn [Z.eqb Pos.eqb orb]. rewrite !u8_eqb.
  unfold first_hit. change (offsets 4) with [0; 1; 2; 3].
  cbn [map blen length Z.of_nat Pos.of_succ_nat].
  rewrite !slice_4 by lia. cbn [bytes_eqb]. rewrite !andb_true_r. norm_idx.
  apply four_logic.
Qed.

(** ** The multi-byte kernels as a whole *)

Lemma same_char_in hb i n j :
  0 <= i + j < blen hb -> 0 <= j < blen n ->
  same_char hb i n j = Ret (Byte.eqb (at_ hb (i + j)) (at_ n j)).
Proof.
  intros Hh Hn. unfold same_char. rewrite !read_byte_in by lia. reflexivity.
Qed.

Lemma and_also_ret a b : Ret a &&& Ret b = Ret (a && b).
Proof. destruct a; reflexivity. Qed.

Lemma read_byte_at l i : 0 <= i < blen l -> read_byte l i = Ret (at_ l i).
Proof. apply read_byte_in. Qed.

Lemma find_char_total sgn h n :
  returns (strzl_naive_find_char sgn h n) (in_haystack h).
Proof.
  unfold strzl_naive_find_char, in_haystack. cbv zeta.
  pose proof (blen_nonneg (h_bytes h)) as Hlen. fold (h_len h) in Hlen.
  assert (forall i, 0 <= i < h_len h ->
    returns (c <- read_byte (h_bytes h) i ;;
             if Byte.eqb c n then Ret (Return i) else Ret (Next (i + 1)))
      (fun f => match f with
                | Next s' => 0 <= s' <= h_len h /\ h_len h - s' < h_len h - i
                | Return r => 0 <= r <= h_len h
                end)) as Hbyte.
  { intros i Hi. rewrite read_byte_at by exact Hi. cbn [bind].
    destruct (Byte.eqb _ n); cbn [returns]; lia. }
  eapply returns_and_then.
  { apply for_loop_total with (Inv := fun i => 0 <= i <= h_len h)
      (Post := fun r => 0 <= r <= h_len h) (measure := fun i => h_len h - i).
    - intros; lia.
    - intros i Hi Hc. apply andb_true_iff in Hc as [_ Hc]. apply Z.ltb_lt in Hc.
      apply Hbyte. lia.
    - lia.
    - apply h_len_fuel. lia. }
  { cbn. auto. }
  intros i1 [Hi1 _].
  eapply returns_and_then.
  { apply for_loop_total with (Inv := fun i => 0 <= i <= h_len h)
      (Post := fun r => 0 <= r <= h_len h) (measure := fun i => h_len h - i).
    - intros; lia.
    - intros i Hi Hc. apply Z.leb_le in Hc.
      rewrite load_le_in by (unfold h_len in *; lia). cbn [bind]. cbv zeta.
      match goal with |- context [char_indicators ?x ?t] =>
        destruct (char_probe_range x t) as (Hctz & _ & _); cbv zeta in Hctz
      end.
      destruct (Z.eqb_spec (char_indicators (le_combine (slice (h_bytes h) i 8))
                                            (char_template sgn n)) 0) as [E|E];
        cbn [negb returns]; [lia|]. specialize (Hctz E). lia.
    - exact Hi1.
    - apply h_len_fuel. lia. }
  { cbn. auto. }
  intros i2 [Hi2 _].
  eapply returns_and_then.
  { apply for_loop_total with (Inv := fun i => 0 <= i <= h_len h)
      (Post := fun r => 0 <= r <= h_len h) (measure := fun i => h_len h - i).
    - intros; lia.
    - intros i Hi Hc. apply Z.ltb_lt in Hc. apply Hbyte. lia.
    - exact Hi2.
    - apply h_len_fuel. lia. }
  { cbn. auto. }
  intros i3 _. cbn. lia.
Qed.

Lemma range_loop h cond body fuel i0 :
  (forall i, 0 <= i <= h_len h -> cond i = true ->
     returns (body i) (fun f =>
       match f with
       | Next i' => i < i' <= h_len h
       | Return r => in_haystack h r
       end)) ->
  0 <= i0 <= h_len h -> h_len h - i0 < Z.of_nat fuel ->
  returns (for_loop fuel cond body i0) (fun f : flow Z Z =>
    match f with
    | Next i => 0 <= i <= h_len h /\ cond i = false
    | Return r => in_haystack h r
    end).
Proof.
  intros Hbody Hi0 Hfuel.
  apply for_loop_total with (Inv := fun i => 0 <= i <= h_len h)
    (measure := fun i => h_len h - i); try assumption.
  - intros; lia.
  - intros i Hi Hc. eapply returns_weaken; [apply (Hbody i Hi Hc)|].
    intros [i'|r]; cbn; [lia|auto].
Qed.

Lemma find_2chars_total sgn h n :
  2 <= blen n -> returns (strzl_naive_find_2chars sgn h n) (in_haystack h).
Proof.
  intros Hn. unfold strzl_naive_find_2chars. cbv zeta.
  pose proof (blen_nonneg (h_bytes h)) as Hlen. fold (h_len h) in Hlen.
  rewrite !read_byte_at by lia. cbn [bind].
  eapply returns_and_then.
  { apply range_loop with (h := h); [|lia|apply h_len_fuel; lia].
    intros i Hi Hc. apply Z.leb_le in Hc.
    rewrite load_le_in by (unfold h_len in *; lia). cbn [bind].
    match goal with |- context [indicators_2chars ?x ?t] =>
      pose proof (two_probe_range x t) as R; destruct (indicators_2chars x t) as [ev od]
    end.
    destruct (Z.eqb_spec (add64 ev od) 0) as [E|E]; cbn [negb returns];
      [lia|]. specialize (R E). unfold in_haystack. lia. }
  { cbn. auto. }
  intros i1 [Hi1 _].
  eapply returns_and_then.
  { apply range_loop with (h := h); [|lia|apply h_len_fuel; lia].
    intros i Hi Hc. apply Z.leb_le in Hc. unfold h_len in *.
    rewrite !same_char_in by lia. rewrite !and_also_ret. cbn [bind].
    match goal with |- context [if ?b then _ else _] => destruct b end;
      cbn [returns]; unfold in_haystack, h_len; lia. }
  { cbn. auto. }
  intros i2 _. cbn. unfold in_haystack. lia.
Qed.

Lemma test_2chars_scans hb n0 n1 i :
  0 <= i -> i + 2 <= blen hb ->
  (hit <- same_char hb i [n0; n1] 0 &&& same_char hb i [n0; n1] 1 ;;
   if hit then Ret (Return i) else Ret (Next (i + 1))) =
  match first_hit hb [n0; n1] i 1 with
  | Some o => Ret (Return (i + o))
  | None => Ret (Next (i + 1))
  end.
Proof.
  intros Hi Hl. rewrite !same_char_in by (cbn; lia). rewrite !and_also_ret.
  cbn [bind]. rewrite first_hit_1.
  change (blen [n0; n1]) with 2. rewrite slice_2 by lia.
  cbn [bytes_eqb]. rewrite andb_true_r. norm_idx.
  change (at_ [n0; n1] 0) with n0. change (at_ [n0; n1] 1) with n1.
  match goal with |- context [if ?b then _ else _] => destruct b end;
    rewrite ?Z.add_0_r; reflexivity.
Qed.

(** On needle bytes that convert without sign extension the 2-byte kernel
    returns the first occurrence, or the length when there is none. *)
Lemma find_2chars_first sgn h n0 n1 :
  plain_char sgn n0 -> plain_char sgn n1 ->
  returns (strzl_naive_find_2chars sgn h [n0; n1])
          (first_occurrence (h_bytes h) [n0; n1] (h_len h - 2)).
Proof.
  intros H0 H1. unfold strzl_naive_find_2chars. cbv zeta.
  rewrite !read_byte_at by (cbn; lia). cbn [bind].
  change (at_ [n0; n1] 0) with n0. change (at_ [n0; n1] 1) with n1.
  eapply returns_and_then.
  { apply scan_loop with (hb := h_bytes h) (nb := [n0; n1]) (stride := 7) (w := 8);
      try (cbn; lia).
    - intros i Hi Hc. apply Z.leb_le in Hc. unfold h_len in Hc. split; [lia|].
      rewrite load_le_in by lia. cbn [bind].
      pose proof (two_slice_exact sgn (h_bytes h) n0 n1 i H0 H1 Hi Hc) as E.
      destruct (indicators_2chars _ _) as [ev od].
      destruct (first_hit (h_bytes h) [n0; n1] i 7) as [o|].
      + destruct E as [E1 E2]. apply Z.eqb_neq in E1. rewrite E1. cbn [negb].
        cbv zeta. rewrite E2. reflexivity.
      + rewrite E. reflexivity.
    - apply none_before_0.
    - apply h_len_fuel. lia. }
  { intros r Hr. now apply found_first_occurrence. }
  intros i1 [[Hn1 _] _].
  eapply returns_and_then.
  { apply scan_loop with (hb := h_bytes h) (nb := [n0; n1]) (stride := 1) (w := 2);
      try (cbn; lia).
    - intros i Hi Hc. apply Z.leb_le in Hc. unfold h_len in Hc. split; [lia|].
      now apply test_2chars_scans.
    - exact Hn1.
    - apply h_len_fuel. apply Hn1. }
  { intros r Hr. now apply found_first_occurrence. }
  intros i2 [[[Hr2 Hn2] _] Hc2]. cbn. right. split; [reflexivity|].
  apply Z.leb_gt in Hc2. intros j Hj. apply Hn2. lia.
Qed.

Lemma find_3chars_total sgn h n :
  3 <= blen n -> returns (strzl_naive_find_3chars sgn h n) (in_haystack h).
Proof.
  intros Hn. unfold strzl_naive_find_3chars. cbv zeta.
  pose proof (blen_nonneg (h_bytes h)) as Hlen. fold (h_len h) in Hlen.
  rewrite !read_byte_at by lia. cbn [bind].
  eapply returns_and_then.
  { apply range_loop with (h := h); [|lia|apply h_len_fuel; lia].
    intros i Hi Hc. apply Z.leb_le in Hc.
    rewrite load_le_in by (unfold h_len in *; lia). cbn [bind]. cbv zeta.
    match goal with |- context [indicators_3chars ?x ?t] =>
      pose proof (three_probe_range x t) as R; cbv zeta in R;
      destruct (Z.eqb_spec (indicators_3chars x t) 0) as [E|E]
    end; cbn [negb returns]; [lia|]. specialize (R E). unfold in_haystack. lia. }
  { cbn. auto. }
  intros i1 [Hi1 _].
  eapply returns_and_then.
  { apply range_loop with (h := h); [|lia|apply h_len_fuel; lia].
    intros i Hi Hc. apply Z.leb_le in Hc. unfold h_len in *.
    rewrite !same_char_in by lia. rewrite !and_also_ret. cbn [bind].
    match goal with |- context [if ?b then _ else _] => destruct b end;
      cbn [returns]; unfold in_haystack, h_len; lia. }
  { cbn. auto. }
  intros i2 _. cbn. unfold in_haystack. lia.
Qed.

Lemma test_3chars_scans hb n0 n1 n2 i :
  0 <= i -> i + 3 <= blen hb ->
  (hit <- same_char hb i [n0; n1; n2] 0 &&& same_char hb i [n0; n1; n2] 1
            &&& same_char hb i [n0; n1; n2] 2 ;;
   if hit then Ret (Return i) else Ret (Next (i + 1))) =
  match first_hit hb [n0; n1; n2] i 1 with
  | Some o => Ret (Return (i + o))
  | None => Ret (Next (i + 1))
  end.
Proof.
  intros Hi Hl. rewrite !same_char_in by (cbn; lia). rewrite !and_also_ret.
  cbn [bind]. rewrite first_hit_1.
  change (blen [n0; n1; n2]) with 3. rewrite slice_3 by lia.
  cbn [bytes_eqb]. rewrite andb_true_r. norm_idx.
  change (at_ [n0; n1; n2] 0) with n0. change (at_ [n0; n1; n2] 1) with n1.
  change (at_ [n0; n1; n2] 2) with n2. rewrite <- andb_assoc.
  match goal with |- context [if ?b then _ else _] => destruct b end;
    rewrite ?Z.add_0_r; reflexivity.
Qed.

(** On needle bytes that convert without sign extension the 3-byte kernel
    returns the first occurrence, or the length when there is none. *)
Lemma find_3chars_first sgn h n0 n1 n2 :
  plain_char sgn n0 -> plain_char sgn n1 -> plain_char sgn n2 ->
  returns (strzl_naive_find_3chars sgn h [n0; n1; n2])
          (first_occurrence (h_bytes h) [n0; n1; n2] (h_len h - 3)).
Proof.
  intros H0 H1 H2. unfold strzl_naive_find_3chars. cbv zeta.
  rewrite !read_byte_at by (cbn; lia). cbn [bind].
  change (at_ [n0; n1; n2] 0) with n0. change (at_ [n0; n1; n2] 1) with n1.
  change (at_ [n0; n1; n2] 2) with n2.
  eapply returns_and_then.
  { apply scan_loop with (hb := h_bytes h) (nb := [n0; n1; n2]) (stride := 6) (w := 8);
      try (cbn; lia).
    - intros i Hi Hc. apply Z.leb_le in Hc. unfold h_len in Hc. split; [lia|].
      rewrite load_le_in by lia. cbn [bind].
      pose proof (three_slice_exact sgn (h_bytes h) n0 n1 n2 i H0 H1 H2 Hi Hc) as E.
      cbv zeta in E |- *.
      destruct (first_hit (h_bytes h) [n0; n1; n2] i 6) as [o|].
      + destruct E as [E1 E2]. apply Z.eqb_neq in E1. rewrite E1, E2. reflexivity.
      + rewrite E. reflexivity.
    - apply none_before_0.
    - apply h_len_fuel. lia. }
  { intros r Hr. now apply found_first_occurrence. }
  intros i1 [[Hn1 _] _].
  eapply returns_and_then.
  { apply scan_loop with (hb := h_bytes h) (nb := [n0; n1; n2]) (stride := 1) (w := 3);
      try (cbn; lia).
    - intros i Hi Hc. apply Z.leb_le in Hc. unfold h_len in Hc. split; [lia|].
      now apply test_3chars_scans.
    - exact Hn1.
    - apply h_len_fuel. apply Hn1. }
  { intros r Hr. now apply found_first_occurrence. }
  intros i2 [[[Hr2 Hn2] _] Hc2]. cbn. right. split; [reflexivity|].
  apply Z.leb_gt in Hc2. intros j Hj. apply Hn2. lia.
Qed.

Lemma find_4chars_total sgn h n :
  4 <= blen n -> returns (strzl_naive_find_4chars sgn h n) (in_haystack h).
Proof.
  intros Hn. unfold strzl_naive_find_4chars. cbv zeta.
  pose proof (blen_nonneg (h_bytes h)) as Hlen. fold (h_len h) in Hlen.
  assert (forall i, 0 <= i <= h_len h -> i + 4 <= h_len h ->
    returns (hit <- same_char (h_bytes h) i n 0 &&& same_char (h_bytes h) i n 1
                      &&& same_char (h_bytes h) i n 2 &&& same_char (h_bytes h) i n 3 ;;
             if hit then Ret (Return i) else Ret (Next (i + 1)))
      (fun f : flow Z Z => match f with
                | Next i' => i < i' <= h_len h
                | Return r => in_haystack h r
                end)) as Hbytes.
  { intros i Hi Hc. unfold h_len in *.
    rewrite !same_char_in by lia. rewrite !and_also_ret. cbn [bind].
    match goal with |- context [if ?b then _ else _] => destruct b end;
      cbn [returns]; unfold in_haystack, h_len; lia. }
  eapply returns_and_then.
  { apply range_loop with (h := h); [|lia|apply h_len_fuel; lia].
    intros i Hi Hc. apply andb_true_iff in Hc as [_ Hc]. apply Z.leb_le in Hc.
    now apply Hbytes. }
  { cbn. auto. }
  intros i1 [Hi1 _].
  rewrite !read_byte_at by lia. cbn [bind].
  eapply returns_and_then.
  { apply range_loop with (h := h); [|lia|apply h_len_fuel; lia].
    intros i Hi Hc. apply Z.leb_le in Hc.
    rewrite load_le_in by (unfold h_len in *; lia). cbn [bind].
    match goal with |- context [indicators_4chars ?x ?t] =>
      pose proof (four_probe_range x t) as R; destruct (indicators_4chars x t) as [a b]
    end.
    destruct (Z.eqb_spec (add64 a b) 0) as [E|E]; cbn [negb returns]; [lia|].
    destruct (R E) as (off & -> & Hoff). cbn [bind returns]. unfold in_haystack. lia. }
  { cbn. auto. }
  intros i2 [Hi2 _].
  eapply returns_and_then.
  { apply range_loop with (h := h); [|lia|apply h_len_fuel; lia].
    intros i Hi Hc. apply Z.leb_le in Hc. now apply Hbytes. }
  { cbn. auto. }
  intros i3 _. cbn. unfold in_haystack. lia.
Qed.

Lemma test_4chars_scans hb n0 n1 n2 n3 i :
  0 <= i -> i + 4 <= blen hb ->
  (hit <- same_char hb i [n0; n1; n2; n3] 0 &&& same_char hb i [n0; n1; n2; n3] 1
            &&& same_char hb i [n0; n1; n2; n3] 2
            &&& same_char hb i [n0; n1; n2; n3] 3 ;;
   if hit then Ret (Return i) else Ret (Next (i + 1))) =
  match first_hit hb [n0; n1; n2; n3] i 1 with
  | Some o => Ret (Return (i + o))
  | None => Ret (Next (i + 1))
  end.
Proof.
  intros Hi Hl. rewrite !same_char_in by (cbn; lia). rewrite !and_also_ret.
  cbn [bind]. rewrite first_hit_1.
  change (blen [n0; n1; n2; n3]) with 4. rewrite slice_4 by lia.
  cbn [bytes_eqb]. rewrite andb_true_r. norm_idx.
  change (at_ [n0; n1; n2; n3] 0) with n0. change (at_ [n0; n1; n2; n3] 1) with n1.
  change (at_ [n0; n1; n2; n3] 2) with n2. change (at_ [n0; n1; n2; n3] 3) with n3.
  rewrite <- !andb_assoc.
  match goal with |- context [if ?b then _ else _] => destruct b end;
    rewrite ?Z.add_0_r; reflexivity.
Qed.

(** On needle bytes that convert without sign extension the 4-byte kernel
    returns the first occurrence, or the length when there is none. *)
Lemma find_4chars_first sgn h n0 n1 n2 n3 :
  plain_char sgn n0 -> plain_char sgn n1 -> plain_char sgn n2 -> plain_char sgn n3 ->
  returns (strzl_naive_find_4chars sgn h [n0; n1; n2; n3])
          (first_occurrence (h_bytes h) [n0; n1; n2; n3] (h_len h - 4)).
Proof.
  intros H0 H1 H2 H3. unfold strzl_naive_find_4chars. cbv zeta.
  eapply returns_and_then.
  { apply scan_loop with (hb := h_bytes h) (nb := [n0; n1; n2; n3]) (stride := 1) (w := 4);
      try (cbn; lia).
    - intros i Hi Hc. apply andb_true_iff in Hc as [_ Hc].
      apply Z.leb_le in Hc. unfold h_len in Hc. split; [lia|].
      now apply test_4chars_scans.
    - apply none_before_0.
    - apply h_len_fuel. lia. }
  { intros r Hr. now apply found_first_occurrence. }
  intros i1 [[Hn1 _] _].
  rewrite !read_byte_at by (cbn; lia). cbn [bind].
  change (at_ [n0; n1; n2; n3] 0) with n0. change (at_ [n0; n1; n2; n3] 1) with n1.
  change (at_ [n0; n1; n2; n3] 2) with n2. change (at_ [n0; n1; n2; n3] 3) with n3.
  eapply returns_and_then.
  { apply scan_loop with (hb := h_bytes h) (nb := [n0; n1; n2; n3]) (stride := 4) (w := 8);
      try (cbn; lia).
    - intros i Hi Hc. apply Z.leb_le in Hc. unfold h_len in Hc. split; [lia|].
      rewrite load_le_in by lia. cbn [bind].
      pose proof (four_slice_exact sgn (h_bytes h) n0 n1 n2 n3 i H0 H1 H2 H3 Hi Hc) as E.
      destruct (indicators_4chars _ _) as [a b].
      destruct (first_hit (h_bytes h) [n0; n1; n2; n3] i 4) as [o|].
      + destruct E as [E1 E2]. apply Z.eqb_neq in E1. rewrite E1. cbn [negb].
        cbv zeta. rewrite E2. reflexivity.
      + rewrite E. reflexivity.
    - exact Hn1.
    - apply h_len_fuel. apply Hn1. }
  { intros r Hr. now apply found_first_occurrence. }
  intros i2 [[Hn2 _] _].
  eapply returns_and_then.
  { apply scan_loop with (hb := h_bytes h) (nb := [n0; n1; n2; n3]) (stride := 1) (w := 4);
      try (cbn; lia).
    - intros i Hi Hc. apply Z.leb_le in Hc. unfold h_len in Hc. split; [lia|].
      now apply test_4chars_scans.
    - exact Hn2.
    - apply h_len_fuel. apply Hn2. }
  { intros r Hr. now apply found_first_occurrence. }
  intros i3 [[[Hr3 Hn3] _] Hc3]. cbn. right. split; [reflexivity|].
  apply Z.leb_gt in Hc3. intros j Hj. apply Hn3. lia.
Qed.

(** ** [strzl_equal] and the general scanner *)

Lemma strzl_equal_spec a ai b bi len :
  0 <= ai -> 0 <= bi -> ai + Z.of_nat len <= blen a -> bi + Z.of_nat len <= blen b ->
  strzl_equal a ai b bi len =
  Ret (bytes_eqb (slice a ai (Z.of_nat len)) (slice b bi (Z.of_nat len))).
Proof.
  revert ai bi. induction len as [|len IH]; intros ai bi Ha Hb Hla Hlb.
  - reflexivity.
  - cbn [strzl_equal]. rewrite !read_byte_at by lia. cbn [bind].
    replace (Z.of_nat (Datatypes.S len)) with (Z.of_nat len + 1) by lia.
    rewrite !slice_cons by lia. cbn [bytes_eqb].
    destruct (Byte.eqb (at_ a ai) (at_ b bi)); [|reflexivity].
    cbn [andb]. apply IH; lia.
Qed.

Lemma at_ext (a b : list byte) :
  length a = length b -> (forall k, 0 <= k < blen a -> at_ a k = at_ b k) -> a = b.
Proof.
  intros Hl H. apply nth_ext with (d := x00) (d' := x00); [exact Hl|].
  intros k Hk. specialize (H (Z.of_nat k)). unfold at_, blen in H.
  rewrite Nat2Z.id in H. apply H. lia.
Qed.

Lemma le_combine_inj a b :
  length a = length b -> le_combine a = le_combine b -> a = b.
Proof.
  intros Hl H. apply at_ext; [exact Hl|]. intros k Hk.
  apply u8_inj. rewrite <- !lane_le_combine_at by lia. now rewrite H.
Qed.

Lemma le_combine_eqb a b :
  length a = length b -> (le_combine a =? le_combine b) = bytes_eqb a b.
Proof.
  intros Hl. destruct (Z.eqb_spec (le_combine a) (le_combine b)) as [E|E].
  - symmetry. apply bytes_eqb_eq. now apply le_combine_inj.
  - symmetry. apply bytes_eqb_neq. congruence.
Qed.

Lemma bytes_eqb_app a1 a2 b1 b2 :
  length a1 = length b1 ->
  bytes_eqb (a1 ++ a2) (b1 ++ b2) = bytes_eqb a1 b1 && bytes_eqb a2 b2.
Proof.
  revert b1. induction a1 as [|x a1 IH]; destruct b1 as [|y b1]; cbn; intros Hl;
    try discriminate; [reflexivity|].
  rewrite IH by lia. now rewrite andb_assoc.
Qed.

(** The three tests of one pass of the general scanner: the anomaly, the
    suffix and the prefix agree exactly when the needle occurs at the
    position the prefix starts at. *)
Lemma anomaly_tests hb nb i ao :
  0 <= ao -> ao + 4 <= blen nb -> ao <= i -> i - ao + blen nb <= blen hb ->
  (le_combine (slice hb i 4) =? le_combine (slice nb ao 4)) &&
  bytes_eqb (slice hb (i + 4) (blen nb - 4 - ao)) (slice nb (4 + ao) (blen nb - 4 - ao)) &&
  bytes_eqb (slice hb (i - ao) ao) (slice nb 0 ao) =
  bytes_eqb (slice hb (i - ao) (blen nb)) nb.
Proof.
  intros Hao Hn Hi Hh.
  rewrite le_combine_eqb by (rewrite !slice_length by lia; reflexivity).
  set (sl := blen nb - 4 - ao).
  assert (slice hb (i - ao) (blen nb)
          = slice hb (i - ao) ao ++ slice hb i 4 ++ slice hb (i + 4) sl) as Eh.
  { replace (blen nb) with (ao + (4 + sl)) by (unfold sl; lia).
    rewrite !slice_app by (unfold sl; lia).
    replace (i - ao + ao) with i by lia. reflexivity. }
  assert (nb = slice nb 0 ao ++ slice nb ao 4 ++ slice nb (4 + ao) sl) as En.
  { rewrite <- (slice_all nb) at 1.
    replace (blen nb) with (ao + (4 + sl)) by (unfold sl; lia).
    rewrite !slice_app by (unfold sl; lia).
    replace (0 + ao) with ao by lia. replace (ao + 4) with (4 + ao) by lia.
    reflexivity. }
  transitivity (bytes_eqb (slice hb (i - ao) ao ++ slice hb i 4 ++ slice hb (i + 4) sl)
                          (slice nb 0 ao ++ slice nb ao 4 ++ slice nb (4 + ao) sl)).
  - rewrite !bytes_eqb_app by (rewrite !slice_length by (unfold sl; lia); reflexivity).
    destruct (bytes_eqb (slice hb i 4) (slice nb ao 4)),
      (bytes_eqb (slice hb (i + 4) sl) (slice nb (4 + ao) sl)),
      (bytes_eqb (slice hb (i - ao) ao) (slice nb 0 ao)); reflexivity.
  - rewrite <- Eh. f_equal. symmetry. exact En.
Qed.

(** For needles of five bytes and more the scanner returns the first
    occurrence; it reports a miss when the needle occurs at none of the
    indices that leave [anomaly_offset] bytes of room behind it. *)
Lemma find_long_first sgn h n :
  5 <= n_len n -> needle_ok n ->
  returns (strzl_naive_find_substr sgn h n)
          (first_occurrence (h_bytes h) (n_bytes n)
             (h_len h - n_len n - anomaly_offset n)).
Proof.
  intros H5 (Hao & H64 & Hfit). specialize (Hfit H5).
  unfold strzl_naive_find_substr.
  destruct (Z.ltb_spec (h_len h) (n_len n)) as [Hshort|Hlong].
  { cbn. right. split; [reflexivity|]. intros j Hj. lia. }
  replace (n_len n =? 0) with false by (symmetry; apply Z.eqb_neq; lia).
  replace (n_len n =? 1) with false by (symmetry; apply Z.eqb_neq; lia).
  replace (n_len n =? 2) with false by (symmetry; apply Z.eqb_neq; lia).
  replace (n_len n =? 3) with false by (symmetry; apply Z.eqb_neq; lia).
  replace (n_len n =? 4) with false by (symmetry; apply Z.eqb_neq; lia).
  cbv zeta. unfold n_len, h_len in *.
  rewrite load_le_in by lia. cbn [bind].
  assert (wrap64 (blen (n_bytes n) - 4 - anomaly_offset n)
          = blen (n_bytes n) - 4 - anomaly_offset n) as Hw
    by (unfold wrap64; apply Z.mod_small; lia).
  rewrite Hw.
  set (ao := anomaly_offset n) in *. set (hb := h_bytes h) in *.
  set (nb := n_bytes n) in *.
  eapply returns_and_then.
  { apply for_loop_total with
      (Inv := fun i => ao <= i <= blen hb /\
                       forall j, 0 <= j < i - ao -> ~ occurs_at hb nb j)
      (Post := found_first hb nb) (measure := fun i => blen hb - i).
    - intros i [Hi _]. lia.
    - intros i [Hi Hnone] Hc. apply Z.leb_le in Hc.
      rewrite load_le_in by lia. cbn [bind].
      rewrite !strzl_equal_spec by lia.
      rewrite !Z2Nat.id by lia. rewrite !and_also_ret. cbn [bind].
      rewrite anomaly_tests by lia.
      destruct (bytes_eqb (slice hb (i - ao) (blen nb)) nb) eqn:E; cbn [returns].
      + unfold found_first. split; [lia|]. split.
        * now apply bytes_eqb_eq in E.
        * exact Hnone.
      + split; [|lia]. split; [lia|]. intros j Hj.
        destruct (Z.eq_dec j (i - ao)) as [->|Hne].
        * now apply bytes_eqb_neq in E.
        * apply Hnone. lia.
    - split; [lia|]. intros j Hj. lia.
    - unfold hb, blen, loop_fuel. lia. }
  { intros r Hr. now apply found_first_occurrence. }
  intros i [[Hi Hnone] Hc]. cbn. right. split; [reflexivity|].
  apply Z.leb_gt in Hc. intros j Hj. apply Hnone. lia.
Qed.

(** ** [strzl_naive_find_substr] as a whole *)

Lemma blen_1 (l : list byte) : blen l = 1 -> exists a, l = [a].
Proof.
  destruct l as [|a [|? ?]]; unfold blen; cbn [length]; intros H; try lia. eauto.
Qed.

Lemma blen_2 (l : list byte) : blen l = 2 -> exists a b, l = [a; b].
Proof.
  destruct l as [|a [|b [|? ?]]]; unfold blen; cbn [length]; intros H; try lia. eauto.
Qed.

Lemma blen_3 (l : list byte) : blen l = 3 -> exists a b c, l = [a; b; c].
Proof.
  destruct l as [|a [|b [|c [|? ?]]]]; unfold blen; cbn [length]; intros H; try lia.
  eauto.
Qed.

Lemma blen_4 (l : list byte) : blen l = 4 -> exists a b c d, l = [a; b; c; d].
Proof.
  destruct l as [|a [|b [|c [|d [|? ?]]]]]; unfold blen; cbn [length]; intros H;
    try lia. eauto 6.
Qed.

Lemma first_occurrence_in_haystack h nb limit r :
  first_occurrence (h_bytes h) nb limit r -> in_haystack h r.
Proof.
  unfold first_occurrence, in_haystack, h_len.
  pose proof (blen_nonneg (h_bytes h)). pose proof (blen_nonneg nb).
  intros [(Hr & _)|(-> & _)]; lia.
Qed.

(** Whatever the bytes and the signedness of [char], the scalar search runs
    to its end without a load out of bounds and returns an index of the
    haystack or its length. *)
Lemma find_substr_total sgn h n :
  needle_ok n -> returns (strzl_naive_find_substr sgn h n) (in_haystack h).
Proof.
  intros Hok.
  pose proof (blen_nonneg (h_bytes h)) as Hh. pose proof (blen_nonneg (n_bytes n)) as Hn.
  destruct (Z.le_gt_cases 5 (n_len n)) as [H5|H4].
  { eapply returns_weaken; [apply find_long_first; assumption|].
    intros r. apply first_occurrence_in_haystack. }
  unfold strzl_naive_find_substr.
  destruct (Z.ltb_spec (h_len h) (n_len n)); [cbn; unfold in_haystack, h_len; lia|].
  destruct (Z.eqb_spec (n_len n) 0); [cbn; unfold in_haystack, h_len in *; lia|].
  destruct (Z.eqb_spec (n_len n) 1) as [E|N1].
  { unfold n_len in E. rewrite read_byte_at by lia. cbn [bind]. apply find_char_total. }
  unfold n_len in *.
  destruct (Z.eqb_spec (blen (n_bytes n)) 2); [apply find_2chars_total; lia|].
  destruct (Z.eqb_spec (blen (n_bytes n)) 3); [apply find_3chars_total; lia|].
  destruct (Z.eqb_spec (blen (n_bytes n)) 4); [apply find_4chars_total; lia|].
  lia.
Qed.

(** The scalar search returns the first occurrence of the needle, or the
    length when the needle occurs at none of the indices it visits:
    all of them for needles of up to four bytes, those up to
    [H.length - N.length - anomaly_offset] for longer ones.  Needles of up
    to four bytes must convert to [uint64_t] without sign extension. *)
Lemma find_substr_first sgn h n :
  needle_ok n ->
  (n_len n <= 4 -> Forall (plain_char sgn) (n_bytes n)) ->
  returns (strzl_naive_find_substr sgn h n)
          (first_occurrence (h_bytes h) (n_bytes n)
             (h_len h - n_len n - (if n_len n <=? 4 then 0 else anomaly_offset n))).
Proof.
  intros Hok Hplain.
  pose proof (blen_nonneg (h_bytes h)) as Hh. pose proof (blen_nonneg (n_bytes n)) as Hn.
  destruct (Z.leb_spec (n_len n) 4) as [H4|H5].
  2:{ apply find_long_first; [lia|assumption]. }
  specialize (Hplain H4). rewrite Z.sub_0_r.
  unfold strzl_naive_find_substr.
  destruct (Z.ltb_spec (h_len h) (n_len n)).
  { cbn. right. split; [reflexivity|]. intros j Hj. lia. }
  unfold n_len in *.
  destruct (Z.eqb_spec (blen (n_bytes n)) 0) as [E0|N0].
  { cbn. left. unfold occurs_at. rewrite E0. split; [lia|]. split.
    - destruct (n_bytes n); [reflexivity|]. unfold blen in E0. cbn in E0. lia.
    - intros j Hj. lia. }
  destruct (Z.eqb_spec (blen (n_bytes n)) 1) as [E1|N1].
  { rewrite E1. destruct (blen_1 _ E1) as (a & Ea). rewrite Ea in *.
    rewrite read_byte_at by lia. cbn [bind]. change (at_ [a] 0) with a.
    apply find_char_first. now inversion Hplain. }
  destruct (Z.eqb_spec (blen (n_bytes n)) 2) as [E2|N2].
  { rewrite E2. destruct (blen_2 _ E2) as (a & b & Ea). rewrite Ea in *.
    inversion Hplain as [|? ? Pa Hp1]; subst. inversion Hp1 as [|? ? Pb _]; subst.
    now apply find_2chars_first. }
  destruct (Z.eqb_spec (blen (n_bytes n)) 3) as [E3|N3].
  { rewrite E3. destruct (blen_3 _ E3) as (a & b & c & Ea). rewrite Ea in *.
    inversion Hplain as [|? ? Pa Hp1]; subst. inversion Hp1 as [|? ? Pb Hp2]; subst.
    inversion Hp2 as [|? ? Pc _]; subst.
    now apply find_3chars_first. }
  destruct (Z.eqb_spec (blen (n_bytes n)) 4) as [E4|N4].
  { rewrite E4. destruct (blen_4 _ E4) as (a & b & c & d & Ea). rewrite Ea in *.
    inversion Hplain as [|? ? Pa Hp1]; subst. inversion Hp1 as [|? ? Pb Hp2]; subst.
    inversion Hp2 as [|? ? Pc Hp3]; subst. inversion Hp3 as [|? ? Pd _]; subst.
    now apply find_4chars_first. }
  lia.
Qed.

(** ** [strzl_naive_count_char] as a whole *)

Lemma wrap64_range x : 0 <= wrap64 x < 2 ^ 64.
Proof. unfold wrap64. apply Z.mod_pos_bound. lia. Qed.

(** Whatever the byte and the signedness of [char], the counter runs to its
    end without a load out of bounds. *)
Lemma count_char_total sgn h n :
  returns (strzl_naive_count_char sgn h n) (fun k => 0 <= k < 2 ^ 64).
Proof.
  unfold strzl_naive_count_char. cbv zeta.
  pose proof (blen_nonneg (h_bytes h)) as Hlen. fold (h_len h) in Hlen.
  set (Inv := fun s : Z * Z => 0 <= fst s <= h_len h /\ 0 <= snd s < 2 ^ 64).
  assert (forall s, Inv s -> fst s < h_len h ->
    returns (let '(i, result) := s in
             c <- read_byte (h_bytes h) i ;;
             Ret (Next (i + 1, add64 result (Z.b2z (Byte.eqb c n)))))
      (fun f : flow (Z * Z) Z => match f with
                | Next s' => Inv s' /\ h_len h - fst s' < h_len h - fst s
                | Return r => False
                end)) as Hbyte.
  { intros [i c] [Hi Hc] Hlt. cbn [fst snd] in *.
    rewrite read_byte_at by (unfold h_len in *; lia). cbn [bind returns].
    unfold Inv. cbn [fst snd].
    pose proof (wrap64_range (c + Z.b2z (Byte.eqb (at_ (h_bytes h) i) n))).
    unfold add64. lia. }
  eapply returns_and_then.
  { apply for_loop_total with (Inv := Inv) (Post := fun _ => False)
      (measure := fun s => h_len h - fst s).
    - intros s [Hi _]. lia.
    - intros s Hs Hc. apply andb_true_iff in Hc as [_ Hc]. apply Z.ltb_lt in Hc.
      now apply Hbyte.
    - unfold Inv. cbn. lia.
    - apply h_len_fuel. cbn. lia. }
  { cbn. contradiction. }
  intros s1 [Hs1 _].
  eapply returns_and_then.
  { apply for_loop_total with (Inv := Inv) (Post := fun _ => False)
      (measure := fun s => h_len h - fst s).
    - intros s [Hi _]. lia.
    - intros [i c] [Hi Hc] Hcond. cbn [fst snd] in *. apply Z.leb_le in Hcond.
      rewrite load_le_in by (unfold h_len in *; lia). cbn [bind returns]. cbv zeta.
      unfold Inv. cbn [fst snd].
      match goal with |- context [add64 ?a ?b] => pose proof (wrap64_range (a + b)) end.
      unfold add64. lia.
    - exact Hs1.
    - apply h_len_fuel. apply Hs1. }
  { cbn. contradiction. }
  intros s2 [Hs2 _].
  eapply returns_and_then.
  { apply for_loop_total with (Inv := Inv) (Post := fun _ => False)
      (measure := fun s => h_len h - fst s).
    - intros s [Hi _]. lia.
    - intros s Hs Hc. apply Z.ltb_lt in Hc. now apply Hbyte.
    - exact Hs2.
    - apply h_len_fuel. apply Hs2. }
  { cbn. contradiction. }
  intros s3 [Hs3 _]. cbn. apply Hs3.
Qed.

Lemma occurrences_app a b c : occurrences (a ++ b) c = occurrences a c + occurrences b c.
Proof. unfold occurrences. rewrite count_occ_app. lia. Qed.

Lemma occurrences_sum l c :
  occurrences l c = fold_right Z.add 0 (map (fun x => Z.b2z (Byte.eqb x c)) l).
Proof.
  unfold occurrences. induction l as [|x l IH]; [reflexivity|].
  cbn [map fold_right]. rewrite <- IH. cbn [count_occ].
  destruct (byte_eq_dec x c) as [->|N].
  - replace (Byte.eqb c c) with true by (symmetry; apply Byte.byte_dec_lb; reflexivity).
    cbn [Z.b2z]. lia.
  - destruct (Byte.eqb x c) eqn:E; [apply Byte.byte_dec_bl in E; contradiction|].
    cbn [Z.b2z]. lia.
Qed.

Lemma occurrences_range l c : 0 <= occurrences l c <= blen l.
Proof.
  unfold occurrences, blen. pose proof (count_occ_bound byte_eq_dec c l). lia.
Qed.

Lemma prefix_extend hb i k :
  0 <= i -> 0 <= k -> slice hb 0 (i + k) = slice hb 0 i ++ slice hb i k.
Proof. intros. rewrite slice_app by lia. reflexivity. Qed.

(** On a byte that converts without sign extension the counter returns the
    number of indices holding the byte. *)
Lemma count_char_exact sgn h n :
  plain_char sgn n -> h_len h < 2 ^ 64 ->
  returns (strzl_naive_count_char sgn h n) (fun k => k = occurrences (h_bytes h) n).
Proof.
  intros Hp H64. unfold strzl_naive_count_char. cbv zeta.
  pose proof (blen_nonneg (h_bytes h)) as Hlen. fold (h_len h) in Hlen.
  set (Inv := fun s : Z * Z =>
    0 <= fst s <= h_len h /\ snd s = occurrences (slice (h_bytes h) 0 (fst s)) n).
  assert (forall i, 0 <= i <= h_len h ->
            0 <= occurrences (slice (h_bytes h) 0 i) n <= i) as Hocc.
  { intros i Hi. pose proof (occurrences_range (slice (h_bytes h) 0 i) n) as R.
    unfold blen in R. rewrite slice_length in R by (unfold h_len in *; lia). lia. }
  assert (forall s, Inv s -> fst s < h_len h ->
    returns (let '(i, result) := s in
             c <- read_byte (h_bytes h) i ;;
             Ret (Next (i + 1, add64 result (Z.b2z (Byte.eqb c n)))))
      (fun f : flow (Z * Z) Z => match f with
                | Next s' => Inv s' /\ h_len h - fst s' < h_len h - fst s
                | Return r => False
                end)) as Hbyte.
  { intros [i c] [Hi Hc] Hlt. cbn [fst snd] in *.
    rewrite read_byte_at by (unfold h_len in *; lia). cbn [bind returns].
    unfold Inv. cbn [fst snd]. split; [|lia]. split; [lia|].
    rewrite prefix_extend by lia. rewrite occurrences_app.
    rewrite slice_1 by (unfold h_len in *; lia).
    rewrite (occurrences_sum [at_ (h_bytes h) i]). cbn [map fold_right].
    pose proof (Hocc i ltac:(lia)). subst c.
    rewrite add64_small; [lia| lia | destruct (Byte.eqb (at_ (h_bytes h) i) n); cbn; lia
                         | destruct (Byte.eqb (at_ (h_bytes h) i) n); cbn; lia]. }
  eapply returns_and_then.
  { apply for_loop_total with (Inv := Inv) (Post := fun _ => False)
      (measure := fun s => h_len h - fst s).
    - intros s [Hi _]. lia.
    - intros s Hs Hc. apply andb_true_iff in Hc as [_ Hc]. apply Z.ltb_lt in Hc.
      now apply Hbyte.
    - unfold Inv. cbn. split; [lia|reflexivity].
    - apply h_len_fuel. cbn. lia. }
  { cbn. contradiction. }
  intros s1 [Hs1 _].
  eapply returns_and_then.
  { apply for_loop_total with (Inv := Inv) (Post := fun _ => False)
      (measure := fun s => h_len h - fst s).
    - intros s [Hi _]. lia.
    - intros [i c] [Hi Hc] Hcond. cbn [fst snd] in *. apply Z.leb_le in Hcond.
      rewrite load_le_in by (unfold h_len in *; lia). cbn [bind returns]. cbv zeta.
      unfold Inv. cbn [fst snd]. split; [|lia]. split; [lia|].
      destruct (char_slice_exact sgn (h_bytes h) n i Hp ltac:(lia) Hcond) as [_ Epop].
      cbv zeta in Epop. rewrite Epop. rewrite <- occurrences_sum.
      rewrite prefix_extend by lia. rewrite occurrences_app.
      pose proof (Hocc i ltac:(lia)).
      pose proof (occurrences_range (slice (h_bytes h) i 8) n) as R8.
      unfold blen in R8. rewrite slice_length in R8 by (unfold h_len in *; lia).
      subst c. rewrite add64_small; lia.
    - exact Hs1.
    - apply h_len_fuel. apply Hs1. }
  { cbn. contradiction. }
  intros s2 [Hs2 _].
  eapply returns_and_then.
  { apply for_loop_total with (Inv := Inv) (Post := fun _ => False)
      (measure := fun s => h_len h - fst s).
    - intros s [Hi _]. lia.
    - intros s Hs Hc. apply Z.ltb_lt in Hc. now apply Hbyte.
    - exact Hs2.
    - apply h_len_fuel. apply Hs2. }
  { cbn. contradiction. }
  intros [i3 c3] [[Hi3 Hc3] Hcond]. cbn [fst snd] in *. cbn [returns].
  apply Z.ltb_ge in Hcond. replace i3 with (blen (h_bytes h)) in Hc3 by (unfold h_len in *; lia).
  now rewrite slice_all in Hc3.
Qed.

(** ** The vector scanners: termination and loads *)

Lemma h_from_len h i : 0 <= i <= h_len h -> h_len (h_from h i) = h_len h - i.
Proof.
  intros Hi. unfold h_len, h_from, blen in *. cbn [h_bytes].
  rewrite length_skipn. lia.
Qed.

Lemma h_upto_len h k : 0 <= k <= h_len h -> h_len (h_upto h k) = k.
Proof.
  intros Hk. unfold h_len, h_upto, blen in *. cbn [h_bytes].
  rewrite length_firstn. lia.
Qed.

Lemma verify_block_total width hb i n :
  0 <= width -> 0 <= i -> i + width + n_len n <= blen hb + 1 ->
  returns (verify_block width hb i n) (fun f =>
    match f with
    | Next _ => True
    | Return r => i <= r < i + width
    end).
Proof.
  intros Hw Hi Hfit. unfold verify_block.
  pose proof (blen_nonneg (n_bytes n)) as Hn. fold (n_len n) in Hn.
  eapply returns_weaken.
  { apply for_loop_total with (Inv := fun j => 0 <= j <= width)
      (Post := fun r => i <= r < i + width) (measure := fun j => width - j).
    - intros; lia.
    - intros j Hj Hc. apply Z.ltb_lt in Hc.
      rewrite strzl_equal_spec by (rewrite ?Z2Nat.id by lia; unfold n_len in *; lia).
      cbn [bind].
      match goal with |- context [if ?b then _ else _] => destruct b end;
        cbn [returns]; lia.
    - lia.
    - lia. }
  intros [j|r]; cbn; auto.
Qed.

(** Whatever the bytes, the AVX2 scanner runs to its end without a load out
    of bounds and returns an index of the haystack or its length. *)
Lemma avx2_find_substr_total sgn h n :
  needle_ok n -> returns (strzl_avx2_find_substr sgn h n) (in_haystack h).
Proof.
  intros Hok. unfold strzl_avx2_find_substr.
  pose proof (blen_nonneg (h_bytes h)) as Hh. fold (h_len h) in Hh.
  destruct (Z.ltb_spec (n_len n) 4) as [H3|H4]; [now apply find_substr_total|].
  cbv zeta. rewrite load_le_in by (unfold n_len in *; lia). cbn [bind].
  eapply returns_and_then.
  { apply range_loop with (h := h); [|lia|apply h_len_fuel; lia].
    intros i Hi Hc. apply Z.leb_le in Hc.
    unfold AVX2._mm256_loadu_si256.
    rewrite !read_bytes_in by (unfold h_len in *; lia). cbn [bind].
    match goal with |- context [if ?b then _ else _] => destruct b end;
      [|cbn [returns]; lia].
    eapply returns_and_on.
    - apply verify_block_total; unfold h_len in *; lia.
    - cbn. unfold in_haystack. intros r Hr. lia.
    - intros j _. cbn [returns]. lia. }
  { cbn. auto. }
  intros i [Hi _].
  eapply returns_bind; [apply find_substr_total; exact Hok|].
  intros r Hr. unfold in_haystack in *. rewrite h_from_len in Hr by lia. cbn. lia.
Qed.

(** Whatever the bytes, the NEON scanner runs to its end without a load out
    of bounds and returns an index of the haystack or its length. *)
Lemma neon_find_substr_total sgn h n :
  needle_ok n -> returns (strzl_neon_find_substr sgn h n) (in_haystack h).
Proof.
  intros Hok. unfold strzl_neon_find_substr.
  pose proof (blen_nonneg (h_bytes h)) as Hh. fold (h_len h) in Hh.
  destruct (Z.ltb_spec (n_len n) 4) as [H3|H4]; [now apply find_substr_total|].
  cbv zeta. unfold NEON.vld1q_dup_u32.
  rewrite load_le_in by (unfold n_len in *; lia). cbn [bind].
  eapply returns_and_then.
  { apply range_loop with (h := h); [|lia|apply h_len_fuel; lia].
    intros i Hi Hc. apply Z.leb_le in Hc.
    unfold NEON.vld1q_u32.
    rewrite !read_bytes_in by (unfold h_len in *; lia). cbn [bind].
    match goal with |- context [if ?b then _ else _] => destruct b end;
      [|cbn [returns]; lia].
    eapply returns_and_on.
    - apply verify_block_total; unfold h_len in *; lia.
    - cbn. unfold in_haystack. intros r Hr. lia.
    - intros j _. cbn [returns]. lia. }
  { cbn. auto. }
  intros i [Hi _].
  eapply returns_bind; [apply find_substr_total; exact Hok|].
  intros r Hr. unfold in_haystack in *. rewrite h_from_len in Hr by lia. cbn. lia.
Qed.

(** The NEON counter runs to its end without a load out of bounds. *)
Lemma neon_count_char_total sgn h n :
  returns (strzl_neon_count_char sgn h n) (fun k => 0 <= k < 2 ^ 64).
Proof.
  unfold strzl_neon_count_char. cbv zeta.
  pose proof (blen_nonneg (h_bytes h)) as Hh. fold (h_len h) in Hh.
  set (aligned_start := wrap64 (strzl_divide_round_up (h_addr h) 16 * 16)).
  pose proof (wrap64_range (aligned_start - h_addr h)) as Hoff.
  set (off := wrap64 (aligned_start - h_addr h)) in *.
  eapply returns_bind; [apply count_char_total|].
  intros result Hres. cbv beta in Hres.
  destruct (Z.ltb_spec off (h_len h)) as [Hlt|Hge].
  2:{ rewrite Z.leb_refl. cbn. exact Hres. }
  replace (h_len h <=? off) with false by (symmetry; apply Z.leb_gt; lia).
  eapply returns_and_then.
  { apply for_loop_total with
      (Inv := fun s : Z * Z => 0 <= fst s <= h_len h /\ 0 <= snd s < 2 ^ 64)
      (Post := fun _ : Z => False) (measure := fun s => h_len h - fst s).
    - intros s [Hi _]. lia.
    - intros [i c] [Hi Hc] Hcond. cbn [fst snd] in *. apply Z.leb_le in Hcond.
      unfold NEON.vld1q_u8.
      rewrite read_bytes_in by (unfold h_len in *; lia). cbn [bind returns].
      cbn [fst snd]. split; [|lia]. split; [lia|]. apply wrap64_range.
    - cbn [fst snd]. lia.
    - apply h_len_fuel. cbn. lia. }
  { cbn. contradiction. }
  intros [i c] [[Hi Hc] _]. cbn [fst snd] in *.
  eapply returns_bind; [apply count_char_total|].
  intros tail _. cbn. apply wrap64_range.
Qed.

(** ** The vector scanners: what they return *)

Lemma occurs_prefix hb nb p k :
  occurs_at hb nb p -> 0 <= p -> 0 <= k <= blen nb -> slice hb p k = slice nb 0 k.
Proof.
  unfold occurs_at. intros Occ Hp Hk.
  transitivity (slice (slice hb p (blen nb)) 0 k); [|now rewrite Occ].
  rewrite slice_slice by lia. now rewrite Z.add_0_r.
Qed.

Lemma occurs_from hb nb i j :
  0 <= i -> 0 <= j ->
  (occurs_at (skipn (Z.to_nat i) hb) nb j <-> occurs_at hb nb (i + j)).
Proof.
  intros Hi Hj. unfold occurs_at, slice. rewrite skipn_skipn.
  replace (Z.to_nat j + Z.to_nat i)%nat with (Z.to_nat (i + j)) by lia. reflexivity.
Qed.

(** The scalar verification of a block returns the first occurrence in the
    block, and falls through when there is none. *)
Lemma verify_block_first width hb i n :
  0 <= width -> 0 <= i -> i + width + n_len n <= blen hb + 1 ->
  returns (verify_block width hb i n) (fun f =>
    match f with
    | Next _ => forall j, 0 <= j < width -> ~ occurs_at hb (n_bytes n) (i + j)
    | Return r => i <= r < i + width /\ occurs_at hb (n_bytes n) r /\
                  forall j, i <= j < r -> ~ occurs_at hb (n_bytes n) j
    end).
Proof.
  intros Hw Hi Hfit. unfold verify_block.
  pose proof (blen_nonneg (n_bytes n)) as Hn. fold (n_len n) in Hn.
  eapply returns_weaken.
  { apply for_loop_total with
      (Inv := fun j => 0 <= j <= width /\
                       forall j', 0 <= j' < j -> ~ occurs_at hb (n_bytes n) (i + j'))
      (Post := fun r => i <= r < i + width /\ occurs_at hb (n_bytes n) r /\
                        forall j, i <= j < r -> ~ occurs_at hb (n_bytes n) j)
      (measure := fun j => width - j).
    - intros j [Hj _]. lia.
    - intros j [Hj Hnone] Hc. apply Z.ltb_lt in Hc.
      rewrite strzl_equal_spec by (rewrite ?Z2Nat.id by lia; unfold n_len in *; lia).
      cbn [bind]. rewrite Z2Nat.id by lia. unfold n_len.
      rewrite slice_all.
      destruct (bytes_eqb (slice hb (i + j) (blen (n_bytes n))) (n_bytes n)) eqn:E;
        cbn [returns].
      + split; [lia|]. split.
        * apply bytes_eqb_eq in E. replace (j + i) with (i + j) by lia. exact E.
        * intros j' Hj'. replace j' with (i + (j' - i)) by lia. apply Hnone. lia.
      + split; [|lia]. split; [lia|]. intros j' Hj'.
        destruct (Z.eq_dec j' j) as [->|Hne]; [now apply bytes_eqb_neq in E|].
        apply Hnone. lia.
    - split; [lia|]. intros j' Hj'. lia.
    - lia. }
  intros [j|r]; cbn; [|auto].
  intros [[Hj Hnone] Hc]. apply Z.ltb_ge in Hc. intros j' Hj'. apply Hnone. lia.
Qed.

Lemma lanes_of_bytes_slices hb width count s :
  0 <= s -> s + Z.of_nat width * Z.of_nat count <= blen hb ->
  lanes_of_bytes width count (slice hb s (Z.of_nat width * Z.of_nat count)) =
  map (fun q => le_combine (slice hb (s + Z.of_nat width * Z.of_nat q) (Z.of_nat width)))
      (seq 0 count).
Proof.
  revert s. induction count as [|count IH]; intros s Hs Hfit; [reflexivity|].
  cbn [lanes_of_bytes seq map]. rewrite <- seq_shift, map_map. f_equal.
  - f_equal. unfold slice. rewrite firstn_firstn. f_equal; [lia|].
    do 2 f_equal. lia.
  - replace (skipn width (slice hb s (Z.of_nat width * Z.of_nat (Datatypes.S count))))
      with (slice hb (s + Z.of_nat width) (Z.of_nat width * Z.of_nat count)).
    + rewrite IH by lia. apply map_ext. intros q. do 2 f_equal. lia.
    + unfold slice. rewrite skipn_firstn_comm, skipn_skipn. f_equal; [lia|].
      f_equal. lia.
Qed.

(** No lane of a compared register equals the prefix when its mask is 0. *)
Lemma movemask_zero a0 a1 a2 a3 a4 a5 a6 a7 p :
  AVX2._mm256_movemask_epi8
    (AVX2._mm256_cmpeq_epi32 [a0; a1; a2; a3; a4; a5; a6; a7]
       (AVX2._mm256_set1_epi32 p)) = 0 ->
  Forall (fun x => x <> p) [a0; a1; a2; a3; a4; a5; a6; a7].
Proof.
  unfold AVX2._mm256_cmpeq_epi32, AVX2._mm256_set1_epi32, lanes_cmpeq.
  cbn [repeat combine map fst snd].
  destruct (Z.eqb_spec a0 p), (Z.eqb_spec a1 p), (Z.eqb_spec a2 p), (Z.eqb_spec a3 p),
    (Z.eqb_spec a4 p), (Z.eqb_spec a5 p), (Z.eqb_spec a6 p), (Z.eqb_spec a7 p);
    intros H; try (vm_compute in H; discriminate H).
  repeat constructor; assumption.
Qed.

Lemma avx2_mask_zero hb p s :
  0 <= s -> s + 32 <= blen hb ->
  AVX2._mm256_movemask_epi8
    (AVX2._mm256_cmpeq_epi32 (lanes_of_bytes 4 8 (slice hb s 32))
       (AVX2._mm256_set1_epi32 p)) = 0 ->
  forall q, 0 <= q < 8 -> le_combine (slice hb (s + 4 * q) 4) <> p.
Proof.
  intros Hs Hfit H q Hq.
  change 32 with (Z.of_nat 4 * Z.of_nat 8) in H.
  rewrite lanes_of_bytes_slices in H by (cbn; lia).
  cbn [seq map] in H. apply movemask_zero in H.
  assert (q = 0 \/ q = 1 \/ q = 2 \/ q = 3 \/ q = 4 \/ q = 5 \/ q = 6 \/ q = 7)
    as C by lia.
  repeat match type of H with Forall _ (_ :: _) =>
    let H1 := fresh in let H2 := fresh in
    inversion H as [|? ? H1 H2]; subst; clear H; rename H2 into H end.
  repeat (destruct C as [->|C]); try subst q; assumption.
Qed.

Lemma prefix_differs hb nb p j :
  4 <= blen nb -> 0 <= p ->
  le_combine (slice hb p 4) <> le_combine (slice nb 0 4) ->
  j = p -> ~ occurs_at hb nb j.
Proof.
  intros Hn Hp Hne -> Occ. apply Hne. f_equal. apply occurs_prefix; [exact Occ|lia|lia].
Qed.

(** A stride whose four masks are all 0 holds no occurrence. *)
Lemma avx2_stride_clear hb nb i :
  4 <= blen nb -> 0 <= i -> i + 35 <= blen hb ->
  let n_prefix := AVX2._mm256_set1_epi32 (le_combine (slice nb 0 4)) in
  let mask k := AVX2._mm256_movemask_epi8
    (AVX2._mm256_cmpeq_epi32 (lanes_of_bytes 4 8 (slice hb (i + k) 32)) n_prefix) in
  Z.lor (Z.lor (Z.lor (mask 0) (mask 1)) (mask 2)) (mask 3) = 0 ->
  forall j, 0 <= j < 32 -> ~ occurs_at hb nb (i + j).
Proof.
  intros Hn Hi Hfit n_prefix mask H j Hj.
  apply Z.lor_eq_0_iff in H as [H H3]. apply Z.lor_eq_0_iff in H as [H H2].
  apply Z.lor_eq_0_iff in H as [H0 H1].
  unfold mask, n_prefix in H0, H1, H2, H3.
  assert (j mod 4 = 0 \/ j mod 4 = 1 \/ j mod 4 = 2 \/ j mod 4 = 3) as C
    by (pose proof (Z.mod_pos_bound j 4); lia).
  assert (0 <= j / 4 < 8) as Hq
    by (split; [apply Z.div_pos; lia|apply Z.div_lt_upper_bound; lia]).
  pose proof (Z.div_mod j 4 ltac:(lia)) as Hdm.
  destruct C as [C|[C|[C|C]]].
  - apply prefix_differs with (p := i + 0 + 4 * (j / 4)); try lia.
    apply avx2_mask_zero; [lia|lia|exact H0|lia].
  - apply prefix_differs with (p := i + 1 + 4 * (j / 4)); try lia.
    apply avx2_mask_zero; [lia|lia|exact H1|lia].
  - apply prefix_differs with (p := i + 2 + 4 * (j / 4)); try lia.
    apply avx2_mask_zero; [lia|lia|exact H2|lia].
  - apply prefix_differs with (p := i + 3 + 4 * (j / 4)); try lia.
    apply avx2_mask_zero; [lia|lia|exact H3|lia].
Qed.

Lemma none_before_extend hb nb i w :
  none_before hb nb i -> 0 <= w -> i + w <= blen hb ->
  (forall j, 0 <= j < w -> ~ occurs_at hb nb (i + j)) ->
  none_before hb nb (i + w).
Proof.
  intros [Hi Hnone] Hw Hfit Hblock. split; [lia|].
  intros j Hj. destruct (Z.lt_ge_cases j i); [apply Hnone; lia|].
  replace j with (i + (j - i)) by lia. apply Hblock. lia.
Qed.

(** What the tail call on [{h_ptr, tail_len}] returns, seen from the whole
    haystack. *)
Lemma tail_first_occurrence h nb i limit r :
  none_before (h_bytes h) nb i -> 1 <= blen nb ->
  first_occurrence (h_bytes (h_from h i)) nb limit r ->
  first_occurrence (h_bytes h) nb (i + limit) (i + r).
Proof.
  intros [Hi Hnone] Hn. unfold h_from. cbn [h_bytes].
  assert (blen (skipn (Z.to_nat i) (h_bytes h)) = blen (h_bytes h) - i) as Hlen
    by (unfold blen in *; rewrite length_skipn; lia).
  unfold first_occurrence. rewrite Hlen.
  intros [(Hr & Occ & Fst)|(-> & None)].
  - left. split; [lia|]. split.
    + apply occurs_from; [lia|lia|exact Occ].
    + intros j Hj. destruct (Z.lt_ge_cases j i); [apply Hnone; lia|].
      replace j with (i + (j - i)) by lia. intros Occj.
      apply (Fst (j - i)); [lia|]. apply occurs_from; [lia|lia|exact Occj].
  - right. split; [lia|]. intros j Hj.
    destruct (Z.lt_ge_cases j i); [apply Hnone; lia|].
    replace j with (i + (j - i)) by lia. intros Occj.
    apply (None (j - i)); [lia|]. apply occurs_from; [lia|lia|exact Occj].
Qed.

(** The AVX2 scanner returns the first occurrence, or the length when the
    needle occurs at none of the indices up to the limit of the scalar
    search. *)
Lemma avx2_find_substr_first sgn h n :
  needle_ok n ->
  (n_len n <= 4 -> Forall (plain_char sgn) (n_bytes n)) ->
  returns (strzl_avx2_find_substr sgn h n)
          (first_occurrence (h_bytes h) (n_bytes n) (scalar_limit h n)).
Proof.
  intros Hok Hplain. unfold strzl_avx2_find_substr.
  pose proof (blen_nonneg (h_bytes h)) as Hh. fold (h_len h) in Hh.
  destruct (Z.ltb_spec (n_len n) 4) as [H3|H4]; [now apply find_substr_first|].
  cbv zeta. rewrite load_le_in by (unfold n_len in *; lia). cbn [bind].
  eapply returns_and_then.
  { apply for_loop_total with
      (Inv := fun i => none_before (h_bytes h) (n_bytes n) i)
      (Post := found_first (h_bytes h) (n_bytes n)) (measure := fun i => h_len h - i).
    - intros i [Hi _]. unfold h_len. lia.
    - intros i [Hi Hnone] Hc. apply Z.leb_le in Hc. unfold h_len, n_len in *.
      unfold AVX2._mm256_loadu_si256.
      rewrite !read_bytes_in by lia. cbn [bind].
      match goal with |- context [if negb (?m =? 0) then _ else _] =>
        destruct (Z.eqb_spec m 0) as [E|E]
      end; cbn [negb].
      + cbn [returns]. split; [|lia].
        apply none_before_extend; [split; assumption|lia|lia|].
        apply avx2_stride_clear; try lia.
        replace (i + 0) with i by lia. exact E.
      + eapply returns_and_on.
        * apply verify_block_first; unfold n_len; lia.
        * cbn. intros r (Hr & Occ & Fst). split; [lia|]. split; [exact Occ|].
          intros j Hj. destruct (Z.lt_ge_cases j i); [apply Hnone; lia|].
          apply Fst. lia.
        * cbn. intros _ Hblock. split; [|lia].
          apply none_before_extend; [split; assumption|lia|lia|exact Hblock].
    - apply none_before_0.
    - apply h_len_fuel. lia. }
  { intros r Hr. now apply found_first_occurrence. }
  intros i [Hnone Hc]. pose proof Hnone as [Hi _]. fold (h_len h) in Hi.
  eapply returns_bind; [apply find_substr_first; eassumption|].
  intros r Hr. cbn [returns].
  apply tail_first_occurrence in Hr; [|exact Hnone|unfold n_len in *; lia].
  rewrite h_from_len in Hr by lia.
  replace (i + (h_len h - i - n_len n - (if n_len n <=? 4 then 0 else anomaly_offset n)))
    with (scalar_limit h n) in Hr by (unfold scalar_limit; lia).
  exact Hr.
Qed.

Lemma cmpeq_lane_zero x p :
  (if x =? p then 0xFFFFFFFF else 0) = 0 -> x <> p.
Proof. destruct (Z.eqb_spec x p); [discriminate|auto]. Qed.

(** No lane of the four compared registers equals the prefix when
    [has_match] is false. *)
Lemma neon_has_match_false a0 a1 a2 a3 b0 b1 b2 b3 c0 c1 c2 c3 d0 d1 d2 d3 p :
  let n_prefix := repeat p 4 in
  let masks0 := NEON.vceqq_u32 [a0; a1; a2; a3] n_prefix in
  let masks1 := NEON.vceqq_u32 [b0; b1; b2; b3] n_prefix in
  let masks2 := NEON.vceqq_u32 [c0; c1; c2; c3] n_prefix in
  let masks3 := NEON.vceqq_u32 [d0; d1; d2; d3] n_prefix in
  let masks := NEON.vorrq_u32 (NEON.vorrq_u32 masks0 masks1)
                              (NEON.vorrq_u32 masks2 masks3) in
  let masks64x2 := NEON.vreinterpretq_u64_u32 masks in
  Z.lor (NEON.vgetq_lane_u64 masks64x2 0) (NEON.vgetq_lane_u64 masks64x2 1) = 0 ->
  Forall (fun x => x <> p) [a0; a1; a2; a3] /\ Forall (fun x => x <> p) [b0; b1; b2; b3] /\
  Forall (fun x => x <> p) [c0; c1; c2; c3] /\ Forall (fun x => x <> p) [d0; d1; d2; d3].
Proof.
  cbv zeta.
  unfold NEON.vceqq_u32, NEON.vorrq_u32, NEON.vreinterpretq_u64_u32,
    NEON.vgetq_lane_u64, lanes_cmpeq, lanes_or.
  cbn [repeat combine map fst snd skipn lanes_widen nth].
  intros H.
  repeat match goal with
  | H : Z.lor _ _ = 0 |- _ => apply Z.lor_eq_0_iff in H; destruct H
  | H : Z.shiftl _ 32 = 0 |- _ => apply Z.shiftl_eq_0_iff in H; [|lia]
  | H : (if _ =? _ then _ else _) = 0 |- _ => apply cmpeq_lane_zero in H
  end.
  repeat split; repeat constructor; assumption.
Qed.

Lemma lanes_4x4 hb s :
  0 <= s -> s + 16 <= blen hb ->
  lanes_of_bytes 4 4 (slice hb s 16) =
  [le_combine (slice hb (s + 4 * 0) 4); le_combine (slice hb (s + 4 * 1) 4);
   le_combine (slice hb (s + 4 * 2) 4); le_combine (slice hb (s + 4 * 3) 4)].
Proof.
  intros Hs Hfit. change 16 with (Z.of_nat 4 * Z.of_nat 4).
  rewrite lanes_of_bytes_slices by (cbn; lia). reflexivity.
Qed.

(** A stride for which [has_match] is false holds no occurrence. *)
Lemma neon_stride_clear hb nb i :
  4 <= blen nb -> 0 <= i -> i + 19 <= blen hb ->
  let n_prefix := repeat (le_combine (slice nb 0 4)) 4 in
  let masks k := NEON.vceqq_u32 (lanes_of_bytes 4 4 (slice hb (i + k) 16)) n_prefix in
  let masks64x2 := NEON.vreinterpretq_u64_u32
    (NEON.vorrq_u32 (NEON.vorrq_u32 (masks 0) (masks 1))
                    (NEON.vorrq_u32 (masks 2) (masks 3))) in
  Z.lor (NEON.vgetq_lane_u64 masks64x2 0) (NEON.vgetq_lane_u64 masks64x2 1) = 0 ->
  forall j, 0 <= j < 16 -> ~ occurs_at hb nb (i + j).
Proof.
  intros Hn Hi Hfit n_prefix masks masks64x2 H j Hj.
  unfold masks64x2, masks, n_prefix in H.
  rewrite !lanes_4x4 in H by lia.
  apply neon_has_match_false in H as (F0 & F1 & F2 & F3).
  assert (forall k q, 0 <= k < 4 -> 0 <= q < 4 ->
            le_combine (slice hb (i + k + 4 * q) 4) <> le_combine (slice nb 0 4)) as D.
  { intros k q Hk Hq.
    assert (k = 0 \/ k = 1 \/ k = 2 \/ k = 3) as Ck by lia.
    assert (q = 0 \/ q = 1 \/ q = 2 \/ q = 3) as Cq by lia.
    repeat match goal with
    | F : Forall _ (_ :: _) |- _ =>
        let H1 := fresh in let H2 := fresh in
        inversion F as [|? ? H1 H2]; subst; clear F
    end.
    destruct Ck as [-> | [-> | [-> | ->]]]; destruct Cq as [-> | [-> | [-> | ->]]];
      assumption. }
  assert (0 <= j mod 4 < 4) as Hk by (apply Z.mod_pos_bound; lia).
  assert (0 <= j / 4 < 4) as Hq
    by (split; [apply Z.div_pos; lia|apply Z.div_lt_upper_bound; lia]).
  pose proof (Z.div_mod j 4 ltac:(lia)) as Hdm.
  apply prefix_differs with (p := i + j mod 4 + 4 * (j / 4)); try lia.
  now apply D.
Qed.

(** The NEON scanner returns the first occurrence, or the length when the
    needle occurs at none of the indices up to the limit of the scalar
    search. *)
Lemma neon_find_substr_first sgn h n :
  needle_ok n ->
  (n_len n <= 4 -> Forall (plain_char sgn) (n_bytes n)) ->
  returns (strzl_neon_find_substr sgn h n)
          (first_occurrence (h_bytes h) (n_bytes n) (scalar_limit h n)).
Proof.
  intros Hok Hplain. unfold strzl_neon_find_substr.
  pose proof (blen_nonneg (h_bytes h)) as Hh. fold (h_len h) in Hh.
  destruct (Z.ltb_spec (n_len n) 4) as [H3|H4]; [now apply find_substr_first|].
  cbv zeta. unfold NEON.vld1q_dup_u32.
  rewrite load_le_in by (unfold n_len in *; lia). cbn [bind].
  eapply returns_and_then.
  { apply for_loop_total with
      (Inv := fun i => none_before (h_bytes h) (n_bytes n) i)
      (Post := found_first (h_bytes h) (n_bytes n)) (measure := fun i => h_len h - i).
    - intros i [Hi _]. unfold h_len. lia.
    - intros i [Hi Hnone] Hc. apply Z.leb_le in Hc. unfold h_len, n_len in *.
      unfold NEON.vld1q_u32.
      rewrite !read_bytes_in by lia. cbn [bind].
      match goal with |- context [if negb (?m =? 0) then _ else _] =>
        destruct (Z.eqb_spec m 0) as [E|E]
      end; cbn [negb].
      + cbn [returns]. split; [|lia].
        apply none_before_extend; [split; assumption|lia|lia|].
        apply neon_stride_clear; try lia.
        replace (i + 0) with i by lia. exact E.
      + eapply returns_and_on.
        * apply verify_block_first; unfold n_len; lia.
        * cbn. intros r (Hr & Occ & Fst). split; [lia|]. split; [exact Occ|].
          intros j Hj. destruct (Z.lt_ge_cases j i); [apply Hnone; lia|].
          apply Fst. lia.
        * cbn. intros _ Hblock. split; [|lia].
          apply none_before_extend; [split; assumption|lia|lia|exact Hblock].
    - apply none_before_0.
    - apply h_len_fuel. lia. }
  { intros r Hr. now apply found_first_occurrence. }
  intros i [Hnone Hc]. pose proof Hnone as [Hi _]. fold (h_len h) in Hi.
  eapply returns_bind; [apply find_substr_first; eassumption|].
  intros r Hr. cbn [returns].
  apply tail_first_occurrence in Hr; [|exact Hnone|unfold n_len in *; lia].
  rewrite h_from_len in Hr by lia.
  replace (i + (h_len h - i - n_len n - (if n_len n <=? 4 then 0 else anomaly_offset n)))
    with (scalar_limit h n) in Hr by (unfold scalar_limit; lia).
  exact Hr.
Qed.

(** With the whole haystack as the limit a search has one possible
    result. *)
Lemma first_occurrence_unique hb nb r1 r2 :
  1 <= blen nb ->
  first_occurrence hb nb (blen hb - blen nb) r1 ->
  first_occurrence hb nb (blen hb - blen nb) r2 ->
  r1 = r2.
Proof.
  intros Hn [(R1 & O1 & F1)|(-> & N1)] [(R2 & O2 & F2)|(-> & N2)].
  - destruct (Z.lt_trichotomy r1 r2) as [L|[E|G]]; [|exact E|].
    + exfalso. apply (F2 r1); [lia|exact O1].
    + exfalso. apply (F1 r2); [lia|exact O2].
  - exfalso. apply (N2 r1); [lia|exact O1].
  - exfalso. apply (N1 r2); [lia|exact O2].
  - reflexivity.
Qed.

(** Where the anomaly sits at offset 0 and the needle converts without sign
    extension, the scalar, the AVX2 and the NEON path return the same
    index. *)
Lemma backends_agree sgn h n :
  needle_ok n ->
  (n_len n <= 4 -> Forall (plain_char sgn) (n_bytes n)) ->
  (5 <= n_len n -> anomaly_offset n = 0) ->
  strzl_avx2_find_substr sgn h n = strzl_naive_find_substr sgn h n /\
  strzl_neon_find_substr sgn h n = strzl_naive_find_substr sgn h n.
Proof.
  intros Hok Hplain Hao.
  destruct (Z.ltb_spec (n_len n) 4) as [H3|H4].
  { unfold strzl_avx2_find_substr, strzl_neon_find_substr.
    replace (n_len n <? 4) with true by (symmetry; apply Z.ltb_lt; lia). auto. }
  assert (scalar_limit h n = blen (h_bytes h) - blen (n_bytes n)) as Hlim.
  { unfold scalar_limit, h_len, n_len in *.
    destruct (Z.leb_spec (blen (n_bytes n)) 4); [lia|]. rewrite Hao by lia. lia. }
  destruct (returns_ret _ _ (find_substr_first sgn h n Hok Hplain)) as (r & Er & Pr).
  destruct (returns_ret _ _ (avx2_find_substr_first sgn h n Hok Hplain)) as (ra & Ea & Pa).
  destruct (returns_ret _ _ (neon_find_substr_first sgn h n Hok Hplain)) as (rn & En & Pn).
  fold (scalar_limit h n) in Pr. rewrite Hlim in Pr, Pa, Pn.
  rewrite Er, Ea, En. unfold n_len in H4.
  split; f_equal; eapply first_occurrence_unique; eauto; lia.
Qed.

(** * The search contract *)

(** ** What holds of the scalar search *)

Lemma returns_inv {A : Type} (m : res A) (P : A -> Prop) a :
  returns m P -> m = Ret a -> P a.
Proof. intros H ->. exact H. Qed.

(** Soundness, for needles that convert without sign extension: a returned
    index below the length holds the needle. *)
Lemma find_substr_sound sgn h n r :
  needle_ok n ->
  (n_len n <= 4 -> Forall (plain_char sgn) (n_bytes n)) ->
  strzl_naive_find_substr sgn h n = Ret r -> r < h_len h ->
  slice (h_bytes h) r (n_len n) = n_bytes n.
Proof.
  intros Hok Hp E Hr.
  destruct (returns_inv _ _ r (find_substr_first sgn h n Hok Hp) E)
    as [(_ & Occ & _)|(-> & _)]; [exact Occ|unfold h_len in Hr; lia].
Qed.

(** First match, for needles that convert without sign extension: the
    needle occurs at no index before a returned index. *)
Lemma find_substr_first_match sgn h n r j :
  needle_ok n ->
  (n_len n <= 4 -> Forall (plain_char sgn) (n_bytes n)) ->
  strzl_naive_find_substr sgn h n = Ret r -> r < h_len h -> 0 <= j < r ->
  slice (h_bytes h) j (n_len n) <> n_bytes n.
Proof.
  intros Hok Hp E Hr Hj.
  destruct (returns_inv _ _ r (find_substr_first sgn h n Hok Hp) E)
    as [(_ & _ & Fst)|(-> & _)]; [now apply Fst|unfold h_len in Hr; lia].
Qed.

(** Completeness, for non-empty needles that convert without sign extension
    and, from five bytes on, have their anomaly at offset 0: when the
    length is returned the needle occurs nowhere. *)
Lemma find_substr_complete sgn h n j :
  needle_ok n -> 1 <= n_len n ->
  (n_len n <= 4 -> Forall (plain_char sgn) (n_bytes n)) ->
  (5 <= n_len n -> anomaly_offset n = 0) ->
  strzl_naive_find_substr sgn h n = Ret (h_len h) ->
  0 <= j <= h_len h - n_len n ->
  slice (h_bytes h) j (n_len n) <> n_bytes n.
Proof.
  intros Hok H1 Hp Hao E Hj.
  destruct (returns_inv _ _ _ (find_substr_first sgn h n Hok Hp) E)
    as [(Hr & _)|(_ & None)].
  - unfold h_len, n_len in *. lia.
  - apply None. destruct (Z.leb_spec (n_len n) 4); [lia|]. rewrite Hao by lia. lia.
Qed.

Lemma plain_unsigned l : Forall (plain_char false) l.
Proof. apply Forall_forall. intros c _. now left. Qed.

(** Where plain [char] is unsigned the scalar search is sound and returns
    the first match for every needle, and the counter is exact for every
    byte. *)
Lemma unsigned_char_search_correct h n r :
  needle_ok n ->
  strzl_naive_find_substr false h n = Ret r -> r < h_len h ->
  slice (h_bytes h) r (n_len n) = n_bytes n /\
  forall j, 0 <= j < r -> slice (h_bytes h) j (n_len n) <> n_bytes n.
Proof.
  intros Hok E Hr. split.
  - apply (find_substr_sound false h n r Hok); auto using plain_unsigned.
  - intros j Hj.
    apply (find_substr_first_match false h n r j Hok); auto using plain_unsigned.
Qed.

Lemma unsigned_char_count_correct h c :
  h_len h < 2 ^ 64 ->
  strzl_naive_count_char false h c = Ret (occurrences (h_bytes h) c).
Proof.
  intros H64.
  destruct (returns_ret _ _ (count_char_exact false h c (or_introl eq_refl) H64))
    as (k & E & ->). exact E.
Qed.

(** ** The end-to-end scenarios of the specification *)

Example scenario_cad (sgn : bool) :
  strzl_naive_find_substr sgn (mk_haystack 4096 abracadabra)
    (mk_needle cad 0) = Ret 4.
Proof. destruct sgn; vm_compute; reflexivity. Qed.

Example scenario_xyz (sgn : bool) :
  strzl_naive_find_substr sgn (mk_haystack 4096 abracadabra)
    (mk_needle xyz 0) = Ret 11.
Proof. destruct sgn; vm_compute; reflexivity. Qed.

Example scenario_aaaa (sgn : bool) :
  strzl_naive_find_substr sgn (mk_haystack 4099 aaaaaaaa)
    (mk_needle aaaa 0) = Ret 0.
Proof. destruct sgn; vm_compute; reflexivity. Qed.

Example scenario_fox (sgn : bool) :
  strzl_naive_find_substr sgn (mk_haystack 4101 pangram) (mk_needle fox 0)
  = Ret 16 /\
  strzl_avx2_find_substr sgn (mk_haystack 4101 pangram) (mk_needle fox 0)
  = Ret 16 /\
  strzl_neon_find_substr sgn (mk_haystack 4101 pangram) (mk_needle fox 0)
  = Ret 16.
Proof. destruct sgn; vm_compute; auto. Qed.

Example scenario_lazy (sgn : bool) :
  strzl_naive_find_substr sgn (mk_haystack 4101 pangram) (mk_needle lazy_word 0)
  = Ret 35 /\
  strzl_avx2_find_substr sgn (mk_haystack 4101 pangram) (mk_needle lazy_word 0)
  = Ret 35 /\
  strzl_neon_find_substr sgn (mk_haystack 4101 pangram) (mk_needle lazy_word 0)
  = Ret 35.
Proof. destruct sgn; vm_compute; auto. Qed.

Example scenario_empty (sgn : bool) :
  strzl_naive_find_substr sgn (mk_haystack 4096 []) (mk_needle [] 0) = Ret 0.
Proof. destruct sgn; vm_compute; reflexivity. Qed.

Example scenario_abcd (sgn : bool) :
  strzl_naive_find_substr sgn (mk_haystack 4096 abc)
    (mk_needle abcd 0) = Ret 3.
Proof. destruct sgn; vm_compute; reflexivity. Qed.

Example scenario_banana (sgn : bool) :
  strzl_naive_count_char sgn (mk_haystack 4101 banana) "a"%byte = Ret 3 /\
  strzl_neon_count_char sgn (mk_haystack 4101 banana) "a"%byte = Ret 3.
Proof. destruct sgn; vm_compute; auto. Qed.

(** ** The claims *)

(** C1: soundness fails where plain [char] is signed.  The haystack
    [01 FF 00 00 00 00 00 00] at the 8-aligned address 4096 does not hold the
    needle byte [80], yet [strzl_naive_find_substr] returns index 1: the
    template of the 1-byte kernel is sign-extended to [FF..FF80] and its
    lanes 1 to 7 compare against [FF]. *)
Theorem signed_char_needle_false_hit :
  let h := mk_haystack 4096 (bytes_of [1; 255; 0; 0; 0; 0; 0; 0]) in
  let n := mk_needle (bytes_of [128]) 0 in
  strzl_naive_find_substr true h n = Ret 1 /\
  1 < h_len h /\
  slice (h_bytes h) 1 (n_len n) <> n_bytes n.
Proof.
  cbv zeta. split; [vm_compute; reflexivity|]. split; [vm_compute; reflexivity|].
  vm_compute. discriminate.
Qed.

(** C2: completeness fails for a positive anomaly offset.  With haystack
    and needle both ["abcde"] and [anomaly_offset = 1] the cursor starts at
    [h.ptr + 1], the test [h_ptr + n.len <= h_end] fails at once and
    [strzl_naive_find_substr] returns the length 5, although the needle
    occurs at index 0. *)
Theorem anomaly_offset_hides_last_match (char_signed : bool) :
  let h := mk_haystack 4096 abcde in
  let n := mk_needle abcde 1 in
  needle_ok n /\
  strzl_naive_find_substr char_signed h n = Ret (h_len h) /\
  0 <= 0 <= h_len h - n_len n /\
  slice (h_bytes h) 0 (n_len n) = n_bytes n.
Proof.
  cbv zeta. split; [unfold needle_ok; cbn; lia|].
  split; [destruct char_signed; vm_compute; reflexivity|].
  split; [vm_compute; intuition discriminate|]. reflexivity.
Qed.

(** C3: the first-match discipline fails where plain [char] is signed.  In
    the haystack [00 80 00 00 00 00 00 00 80] at the 8-aligned address 4096 the
    needle byte [80] occurs at index 1, yet [strzl_naive_find_substr]
    returns index 8: the 8-byte pass misses index 1 and the byte-by-byte
    tail finds the later occurrence. *)
Theorem signed_char_needle_skips_first_match :
  let h := mk_haystack 4096 (bytes_of [0; 128; 0; 0; 0; 0; 0; 0; 128]) in
  let n := mk_needle (bytes_of [128]) 0 in
  strzl_naive_find_substr true h n = Ret 8 /\
  8 < h_len h /\
  slice (h_bytes h) 1 (n_len n) = n_bytes n.
Proof.
  cbv zeta. split; [vm_compute; reflexivity|]. split; [vm_compute; reflexivity|].
  reflexivity.
Qed.

(** C4: counting fails where plain [char] is signed.  Eight bytes [80] at an
    8-aligned address hold the byte [80] eight times, yet
    [strzl_naive_count_char] returns 1: only lane 0 of the sign-extended
    template still carries the byte. *)
Theorem signed_char_count_misses :
  let h := mk_haystack 4096 (bytes_of [128; 128; 128; 128; 128; 128; 128; 128]) in
  let c := byte_of_Z 128 in
  strzl_naive_count_char true h c = Ret 1 /\
  occurrences (h_bytes h) c = 8.
Proof.
  cbv zeta. split; vm_compute; reflexivity.
Qed.

(** C5: the back-ends disagree for a positive anomaly offset.  On the 38
    bytes ["0123456789abcdefghijklmnopqrstuNEEDLEz"] with needle ["NEEDLE"]
    and [anomaly_offset = 2] the scalar path returns 38, a miss, while the
    AVX2 and the NEON paths return 31, where the needle is. *)
Theorem backends_disagree_on_anomaly_offset (char_signed : bool) :
  let h := mk_haystack 4096 hay38 in
  let n := mk_needle needle6 2 in
  needle_ok n /\
  strzl_naive_find_substr char_signed h n = Ret 38 /\
  strzl_avx2_find_substr char_signed h n = Ret 31 /\
  strzl_neon_find_substr char_signed h n = Ret 31 /\
  slice (h_bytes h) 31 (n_len n) = n_bytes n.
Proof.
  cbv zeta. split; [unfold needle_ok; cbn; lia|].
  repeat split; destruct char_signed; vm_compute; reflexivity.
Qed.

(** C6: for every haystack, every needle descriptor within the documented
    preconditions and every byte, each search and count operation (the
    scalar counter and finder, the 2-, 3- and 4-byte kernels on a needle
    buffer long enough, the scalar, AVX2 and NEON scanners and the NEON
    counter) runs to its end with every load inside the haystack or the
    needle buffer. *)
Theorem loads_in_bounds (char_signed : bool) (h : strzl_haystack_t)
    (n : strzl_needle_t) (c : byte) :
  needle_ok n -> all_loads_in_bounds char_signed h n c.
Proof.
  intros Hok. unfold all_loads_in_bounds.
  repeat match goal with |- _ /\ _ => split end.
  - destruct (returns_ret _ _ (count_char_total char_signed h c)) as (k & E & _). eauto.
  - destruct (returns_ret _ _ (find_char_total char_signed h c)) as (r & E & _). eauto.
  - intros H2.
    destruct (returns_ret _ _ (find_2chars_total char_signed h (n_bytes n) H2))
      as (r & E & _). eauto.
  - intros H3.
    destruct (returns_ret _ _ (find_3chars_total char_signed h (n_bytes n) H3))
      as (r & E & _). eauto.
  - intros H4.
    destruct (returns_ret _ _ (find_4chars_total char_signed h (n_bytes n) H4))
      as (r & E & _). eauto.
  - destruct (returns_ret _ _ (find_substr_total char_signed h n Hok)) as (r & E & _).
    eauto.
  - destruct (returns_ret _ _ (avx2_find_substr_total char_signed h n Hok))
      as (r & E & _). eauto.
  - destruct (returns_ret _ _ (neon_count_char_total char_signed h c)) as (k & E & _).
    eauto.
  - destruct (returns_ret _ _ (neon_find_substr_total char_signed h n Hok))
      as (r & E & _). eauto.
Qed.

Lemma loads_in_bounds_witness :
  needle_ok (mk_needle needle6 2) /\
  all_loads_in_bounds true (mk_haystack 4099 hay38) (mk_needle needle6 2) (byte_of_Z 200).
Proof.
  assert (needle_ok (mk_needle needle6 2)) as Hok by (unfold needle_ok; cbn; lia).
  split; [exact Hok|]. exact (loads_in_bounds true _ _ _ Hok).
Defined.

(** A needle longer than the haystack: for every haystack and needle
    descriptor with [N.length > H.length] the search returns exactly
    [H.length], on the scalar, the AVX2 and the NEON path. *)
Theorem too_long_needle_misses (char_signed : bool) (h : strzl_haystack_t)
    (n : strzl_needle_t) :
  h_len h < n_len n ->
  strzl_naive_find_substr char_signed h n = Ret (h_len h) /\
  strzl_avx2_find_substr char_signed h n = Ret (h_len h) /\
  strzl_neon_find_substr char_signed h n = Ret (h_len h).
Proof.
  intros Hlong.
  pose proof (blen_nonneg (h_bytes h)) as Hh. fold (h_len h) in Hh.
  assert (forall h', h_len h' < n_len n ->
            strzl_naive_find_substr char_signed h' n = Ret (h_len h')) as Hnaive.
  { intros h' H'. unfold strzl_naive_find_substr.
    now replace (h_len h' <? n_len n) with true by (symmetry; apply Z.ltb_lt; lia). }
  assert (h_from h 0 = mk_haystack (h_addr h + 0) (h_bytes h)) as Hfrom by reflexivity.
  split; [now apply Hnaive|].
  split.
  - unfold strzl_avx2_find_substr.
    destruct (Z.ltb_spec (n_len n) 4); [now apply Hnaive|].
    cbv zeta. rewrite load_le_in by (unfold n_len in *; lia). cbn [bind].
    unfold loop_fuel. cbn [for_loop].
    replace (0 + n_len n + 32 <=? h_len h) with false by (symmetry; apply Z.leb_gt; lia).
    cbn [and_then]. rewrite Hfrom, Hnaive by exact Hlong. reflexivity.
  - unfold strzl_neon_find_substr.
    destruct (Z.ltb_spec (n_len n) 4); [now apply Hnaive|].
    cbv zeta. unfold NEON.vld1q_dup_u32.
    rewrite load_le_in by (unfold n_len in *; lia). cbn [bind].
    unfold loop_fuel. cbn [for_loop].
    replace (0 + n_len n + 16 <=? h_len h) with false by (symmetry; apply Z.leb_gt; lia).
    cbn [and_then]. rewrite Hfrom, Hnaive by exact Hlong. reflexivity.
Qed.

Lemma too_long_needle_misses_witness :
  h_len (mk_haystack 4096 abcde) < n_len (mk_needle needle6 0) /\
  strzl_naive_find_substr true (mk_haystack 4096 abcde) (mk_needle needle6 0) = Ret 5 /\
  strzl_avx2_find_substr true (mk_haystack 4096 abcde) (mk_needle needle6 0) = Ret 5 /\
  strzl_neon_find_substr true (mk_haystack 4096 abcde) (mk_needle needle6 0) = Ret 5.
Proof.
  assert (h_len (mk_haystack 4096 abcde) < n_len (mk_needle needle6 0)) as Hlong
    by (vm_compute; reflexivity).
  split; [exact Hlong|].
  exact (too_long_needle_misses true (mk_haystack 4096 abcde) (mk_needle needle6 0) Hlong).
Defined.

(** Where the needle converts without sign extension (needles of five
    bytes and more: whatever their bytes), a needle that occurs at no index
    is reported as exactly [H.length] on the three paths. *)
Lemma absent_needle_misses sgn h n :
  needle_ok n ->
  (n_len n <= 4 -> Forall (plain_char sgn) (n_bytes n)) ->
  (forall j, 0 <= j <= h_len h - n_len n -> ~ occurs_at (h_bytes h) (n_bytes n) j) ->
  strzl_naive_find_substr sgn h n = Ret (h_len h) /\
  strzl_avx2_find_substr sgn h n = Ret (h_len h) /\
  strzl_neon_find_substr sgn h n = Ret (h_len h).
Proof.
  intros Hok Hplain Habsent. unfold h_len, n_len in Habsent.
  assert (forall limit r, first_occurrence (h_bytes h) (n_bytes n) limit r ->
            r = h_len h) as Hmiss.
  { intros limit r [(Hr & Occ & _)|(-> & _)]; [|reflexivity].
    exfalso. exact (Habsent r Hr Occ). }
  destruct (returns_ret _ _ (find_substr_first sgn h n Hok Hplain)) as (r1 & E1 & F1).
  destruct (returns_ret _ _ (avx2_find_substr_first sgn h n Hok Hplain)) as (r2 & E2 & F2).
  destruct (returns_ret _ _ (neon_find_substr_first sgn h n Hok Hplain)) as (r3 & E3 & F3).
  rewrite E1, E2, E3.
  rewrite (Hmiss _ _ F1), (Hmiss _ _ F2), (Hmiss _ _ F3). auto.
Qed.

(** C7: a miss is not always reported as [H.length] where plain [char] is
    signed.  The needle byte [80] occurs at no index of the haystack
    [01 FF 00 00 00 00 00 00] of length 8, yet the scalar, the AVX2 and the
    NEON path all return 1: the template of the 1-byte kernel is
    sign-extended to [FF..FF80], and the byte [FF] at index 1 compares
    equal to its lane 1. *)
Theorem absent_needle_reported_as_index :
  let h := mk_haystack 4096 (bytes_of [1; 255; 0; 0; 0; 0; 0; 0]) in
  let n := mk_needle (bytes_of [128]) 0 in
  (forall j, 0 <= j <= h_len h - n_len n ->
             slice (h_bytes h) j (n_len n) <> n_bytes n) /\
  h_len h = 8 /\
  strzl_naive_find_substr true h n = Ret 1 /\
  strzl_avx2_find_substr true h n = Ret 1 /\
  strzl_neon_find_substr true h n = Ret 1.
Proof.
  cbv zeta. split.
  - intros j Hj. change (0 <= j <= 8 - 1) in Hj.
    assert (j = 0 \/ j = 1 \/ j = 2 \/ j = 3 \/ j = 4 \/ j = 5 \/ j = 6 \/ j = 7)
      as C by lia.
    repeat (destruct C as [-> | C]); try subst j; vm_compute; discriminate.
  - repeat split; vm_compute; reflexivity.
Qed.

(** C8: for every haystack, the empty one included, searching for a needle
    of length 0 returns 0, on the scalar, the AVX2 and the NEON path and
    whatever the anomaly offset. *)
Theorem empty_needle_found_at_0 (char_signed : bool) (h : strzl_haystack_t)
    (anomaly : Z) :
  strzl_naive_find_substr char_signed h (mk_needle [] anomaly) = Ret 0 /\
  strzl_avx2_find_substr char_signed h (mk_needle [] anomaly) = Ret 0 /\
  strzl_neon_find_substr char_signed h (mk_needle [] anomaly) = Ret 0.
Proof.
  pose proof (blen_nonneg (h_bytes h)) as Hh. fold (h_len h) in Hh.
  assert (strzl_naive_find_substr char_signed h (mk_needle [] anomaly) = Ret 0) as E.
  { unfold strzl_naive_find_substr. change (n_len (mk_needle [] anomaly)) with 0.
    now replace (h_len h <? 0) with false by (symmetry; apply Z.ltb_ge; lia). }
  repeat split; [exact E| |];
    [unfold strzl_avx2_find_substr|unfold strzl_neon_find_substr];
    change (n_len (mk_needle [] anomaly) <? 4) with true; exact E.
Qed.

(** C9: for needle lengths 0 to 4 the anomaly offset has no effect: two
    descriptors with the same needle bytes give the same result of
    [strzl_naive_find_substr], whatever their anomaly offsets. *)
Theorem anomaly_offset_unused_up_to_4 (char_signed : bool) (h : strzl_haystack_t)
    (needle : list byte) (anomaly1 anomaly2 : Z) :
  blen needle <= 4 ->
  strzl_naive_find_substr char_signed h (mk_needle needle anomaly1) =
  strzl_naive_find_substr char_signed h (mk_needle needle anomaly2).
Proof.
  intros H4. unfold strzl_naive_find_substr, n_len. cbn [n_bytes].
  pose proof (blen_nonneg needle) as H0.
  destruct (h_len h <? blen needle); [reflexivity|].
  destruct (Z.eqb_spec (blen needle) 0); [reflexivity|].
  destruct (Z.eqb_spec (blen needle) 1); [reflexivity|].
  destruct (Z.eqb_spec (blen needle) 2); [reflexivity|].
  destruct (Z.eqb_spec (blen needle) 3); [reflexivity|].
  destruct (Z.eqb_spec (blen needle) 4); [reflexivity|].
  lia.
Qed.

Lemma anomaly_offset_unused_up_to_4_witness :
  blen need <= 4 /\
  strzl_naive_find_substr true (mk_haystack 4096 hay38) (mk_needle need 0) =
  strzl_naive_find_substr true (mk_haystack 4096 hay38) (mk_needle need 7).
Proof.
  assert (blen need <= 4) as H4 by (vm_compute; discriminate).
  split; [exact H4|].
  exact (anomaly_offset_unused_up_to_4 true (mk_haystack 4096 hay38) _ 0 7 H4).
Defined.

Lemma find_char_hit_iff_count_positive_witness :
  h_len (mk_haystack 4101 banana) < 2 ^ 64 /\
  exists r k,
    strzl_naive_find_char true (mk_haystack 4101 banana) "a"%byte = Ret r /\
    strzl_naive_count_char true (mk_haystack 4101 banana) "a"%byte = Ret k /\
    (r < h_len (mk_haystack 4101 banana) <-> 0 < k).
Proof.
  assert (h_len (mk_haystack 4101 banana) < 2 ^ 64) as H64 by (vm_compute; reflexivity).
  split; [exact H64|].
  exact (find_char_hit_iff_count_positive true (mk_haystack 4101 banana) "a"%byte H64).
Defined.
(** * Further properties of the code

    Properties read off the source beyond the claims above: the two
    helpers, each kernel on its own, the scanners as wholes, and how the
    entry points compose. *)

(** ** [strzl_divide_round_up] and [strzl_equal] *)

(** X1: when [x + (divisor - 1)] fits [size_t], [strzl_divide_round_up]
    returns the ceiling of [x / divisor]: the least [r] with
    [x <= divisor * r]. *)
Theorem divide_round_up_is_ceiling (x divisor : Z) :
  0 <= x -> 0 < divisor -> x + (divisor - 1) < 2 ^ 64 ->
  divisor * (strzl_divide_round_up x divisor - 1) < x <=
  divisor * strzl_divide_round_up x divisor.
Proof.
  intros Hx Hd H64. unfold strzl_divide_round_up, wrap64.
  rewrite Z.mod_small by lia.
  pose proof (Z.div_mod (x + (divisor - 1)) divisor ltac:(lia)) as E.
  pose proof (Z.mod_pos_bound (x + (divisor - 1)) divisor ltac:(lia)) as B.
  nia.
Qed.

Lemma divide_round_up_is_ceiling_witness :
  (0 <= 4099 /\ 0 < 16 /\ 4099 + (16 - 1) < 2 ^ 64) /\
  16 * (strzl_divide_round_up 4099 16 - 1) < 4099 <= 16 * strzl_divide_round_up 4099 16.
Proof.
  assert (0 <= 4099) as Hx by lia.
  assert (0 < 16) as Hd by lia.
  assert (4099 + (16 - 1) < 2 ^ 64) as H64 by lia.
  split; [auto|]. exact (divide_round_up_is_ceiling 4099 16 Hx Hd H64).
Defined.

(** X2: when [x + (divisor - 1)] does not fit [size_t] the sum wraps and
    [strzl_divide_round_up] returns 0, not the ceiling. *)
Theorem divide_round_up_wraps_to_zero (x divisor : Z) :
  0 <= x < 2 ^ 64 -> 0 < divisor < 2 ^ 64 -> 2 ^ 64 <= x + (divisor - 1) ->
  strzl_divide_round_up x divisor = 0.
Proof.
  intros Hx Hd Hover. unfold strzl_divide_round_up, wrap64.
  replace ((x + (divisor - 1)) mod 2 ^ 64) with (x + (divisor - 1) - 2 ^ 64).
  - apply Z.div_small. lia.
  - apply Z.mod_unique with (q := 1); lia.
Qed.

Lemma divide_round_up_wraps_to_zero_witness :
  (0 <= 2 ^ 64 - 3 < 2 ^ 64 /\ 0 < 16 < 2 ^ 64 /\ 2 ^ 64 <= 2 ^ 64 - 3 + (16 - 1)) /\
  strzl_divide_round_up (2 ^ 64 - 3) 16 = 0.
Proof.
  assert (0 <= 2 ^ 64 - 3 < 2 ^ 64) as Hx by lia.
  assert (0 < 16 < 2 ^ 64) as Hd by lia.
  assert (2 ^ 64 <= 2 ^ 64 - 3 + (16 - 1)) as Hover by lia.
  split; [auto|]. exact (divide_round_up_wraps_to_zero _ _ Hx Hd Hover).
Defined.

(** X3: on two ranges of [len] readable bytes [strzl_equal] returns
    [true] exactly when the ranges hold the same bytes. *)
Theorem equal_decides_ranges (a b : list byte) (ai bi : Z) (len : nat) :
  0 <= ai -> 0 <= bi -> ai + Z.of_nat len <= blen a -> bi + Z.of_nat len <= blen b ->
  exists r, strzl_equal a ai b bi len = Ret r /\
            (r = true <-> slice a ai (Z.of_nat len) = slice b bi (Z.of_nat len)).
Proof.
  intros Ha Hb Hla Hlb. rewrite strzl_equal_spec by assumption.
  eexists. split; [reflexivity|]. apply bytes_eqb_eq.
Qed.

Lemma equal_decides_ranges_witness :
  (0 <= 31 /\ 0 <= 0 /\ 31 + Z.of_nat 6 <= blen hay38 /\ 0 + Z.of_nat 6 <= blen needle6) /\
  exists r, strzl_equal hay38 31 needle6 0 6 = Ret r /\
            (r = true <-> slice hay38 31 (Z.of_nat 6) = slice needle6 0 (Z.of_nat 6)).
Proof.
  assert (0 <= 31) as Ha by lia.
  assert (0 <= 0) as Hb by lia.
  assert (31 + Z.of_nat 6 <= blen hay38) as Hla by (vm_compute; discriminate).
  assert (0 + Z.of_nat 6 <= blen needle6) as Hlb by (vm_compute; discriminate).
  split; [auto|]. exact (equal_decides_ranges hay38 needle6 31 0 6 Ha Hb Hla Hlb).
Defined.

(** X4: [strzl_equal] stops at the first pair of bytes that differ: when
    the ranges agree on their first [k] bytes, [k < len], and differ at
    offset [k], it returns [false] having read nothing behind offset [k],
    so also where fewer than [len] bytes are readable. *)
Theorem equal_stops_at_first_difference (a b : list byte) (ai bi : Z) (len : nat)
    (k : Z) :
  0 <= ai -> 0 <= bi -> 0 <= k < Z.of_nat len ->
  ai + k < blen a -> bi + k < blen b ->
  slice a ai k = slice b bi k ->
  at_ a (ai + k) <> at_ b (bi + k) ->
  strzl_equal a ai b bi len = Ret false.
Proof.
  revert ai bi k. induction len as [|len IH]; intros ai bi k Ha Hb Hk Hka Hkb Hpre Hdiff.
  - lia.
  - cbn [strzl_equal]. rewrite !read_byte_at by lia. cbn [bind].
    destruct (Z.eq_dec k 0) as [->|Hk0].
    + rewrite !Z.add_0_r in Hdiff.
      destruct (Byte.eqb (at_ a ai) (at_ b bi)) eqn:E; [|reflexivity].
      apply Byte.byte_dec_bl in E. contradiction.
    + replace k with (k - 1 + 1) in Hpre by lia.
      rewrite !slice_cons in Hpre by lia. injection Hpre as Hhead Htail.
      rewrite Hhead.
      replace (Byte.eqb (at_ b bi) (at_ b bi)) with true
        by (symmetry; apply Byte.byte_dec_lb; reflexivity).
      apply (IH (ai + 1) (bi + 1) (k - 1)); try lia.
      * exact Htail.
      * replace (ai + 1 + (k - 1)) with (ai + k) by lia.
        replace (bi + 1 + (k - 1)) with (bi + k) by lia. exact Hdiff.
Qed.

Lemma equal_stops_at_first_difference_witness :
  (0 <= 7 /\ 0 <= 0 /\ 0 <= 2 < Z.of_nat 6 /\ 7 + 2 < blen abracadabra /\ 0 + 2 < blen abc /\
   slice abracadabra 7 2 = slice abc 0 2 /\ at_ abracadabra (7 + 2) <> at_ abc (0 + 2)) /\
  strzl_equal abracadabra 7 abc 0 6 = Ret false.
Proof.
  assert (0 <= 7) as Ha by lia.
  assert (0 <= 0) as Hb by lia.
  assert (0 <= 2 < Z.of_nat 6) as Hk by lia.
  assert (7 + 2 < blen abracadabra) as Hka by (vm_compute; reflexivity).
  assert (0 + 2 < blen abc) as Hkb by (vm_compute; reflexivity).
  assert (slice abracadabra 7 2 = slice abc 0 2) as Hpre by (vm_compute; reflexivity).
  assert (at_ abracadabra (7 + 2) <> at_ abc (0 + 2)) as Hdiff by (vm_compute; discriminate).
  split; [auto 10|].
  exact (equal_stops_at_first_difference abracadabra abc 7 0 6 2 Ha Hb Hk Hka Hkb Hpre Hdiff).
Defined.
(** ** The single-byte kernels *)

Lemma occurs_at_byte hb c j :
  0 <= j -> (occurs_at hb [c] j <-> j < blen hb /\ at_ hb j = c).
Proof.
  intros Hj. unfold occurs_at. change (blen [c]) with 1. split.
  - intros H. assert (j + 1 <= blen hb) as Hfit.
    { apply (occurs_at_range hb [c] j Hj); [cbn; lia|exact H]. }
    rewrite slice_1 in H by lia. split; [lia|congruence].
  - intros [Hlt E]. rewrite slice_1 by lia. now rewrite E.
Qed.

Lemma in_at_ (hb : list byte) c :
  In c hb <-> exists j, 0 <= j < blen hb /\ at_ hb j = c.
Proof.
  unfold at_, blen. split.
  - intros H. apply (In_nth _ _ x00) in H as (k & Hk & E).
    exists (Z.of_nat k). rewrite Nat2Z.id. split; [lia|exact E].
  - intros (j & Hj & E). rewrite <- E. apply nth_In. lia.
Qed.

(** X5: for a byte that converts to [uint64_t] without sign extension
    [strzl_naive_find_char] returns the least index holding the byte, or
    the length when no index holds it. *)
Theorem find_char_returns_least_index (char_signed : bool) (h : strzl_haystack_t)
    (c : byte) :
  plain_char char_signed c ->
  exists r, strzl_naive_find_char char_signed h c = Ret r /\
    ((0 <= r < h_len h /\ at_ (h_bytes h) r = c /\
      forall j, 0 <= j < r -> at_ (h_bytes h) j <> c) \/
     (r = h_len h /\ ~ In c (h_bytes h))).
Proof.
  intros Hp. destruct (returns_ret _ _ (find_char_first char_signed h c Hp)) as (r & E & F).
  exists r. split; [exact E|]. unfold h_len.
  destruct F as [(Hr & Occ & Fst)|(-> & None)].
  - left. apply occurs_at_byte in Occ as [Hlt Hat]; [|lia].
    split; [lia|]. split; [exact Hat|].
    intros j Hj Hc. apply (Fst j Hj). apply occurs_at_byte; [lia|]. split; [lia|exact Hc].
  - right. split; [reflexivity|]. intros Hin.
    apply in_at_ in Hin as (j & Hj & Hat).
    apply (None j); [unfold h_len; lia|]. apply occurs_at_byte; [lia|]. split; [lia|exact Hat].
Qed.

Lemma find_char_returns_least_index_witness :
  plain_char true "n"%byte /\
  exists r, strzl_naive_find_char true (mk_haystack 4101 banana) "n"%byte = Ret r /\
    ((0 <= r < h_len (mk_haystack 4101 banana) /\
      at_ (h_bytes (mk_haystack 4101 banana)) r = "n"%byte /\
      forall j, 0 <= j < r -> at_ (h_bytes (mk_haystack 4101 banana)) j <> "n"%byte) \/
     (r = h_len (mk_haystack 4101 banana) /\
      ~ In "n"%byte (h_bytes (mk_haystack 4101 banana)))).
Proof.
  assert (plain_char true "n"%byte) as Hp by (right; vm_compute; reflexivity).
  split; [exact Hp|].
  exact (find_char_returns_least_index true (mk_haystack 4101 banana) "n"%byte Hp).
Defined.

(** X6: for a byte that converts without sign extension and a length that
    fits [size_t], [strzl_naive_count_char] returns the number of indices
    holding the byte. *)
Theorem count_char_counts_occurrences (char_signed : bool) (h : strzl_haystack_t)
    (c : byte) :
  plain_char char_signed c -> h_len h < 2 ^ 64 ->
  strzl_naive_count_char char_signed h c = Ret (occurrences (h_bytes h) c).
Proof.
  intros Hp H64.
  destruct (returns_ret _ _ (count_char_exact char_signed h c Hp H64)) as (k & E & ->).
  exact E.
Qed.

Lemma count_char_counts_occurrences_witness :
  (plain_char true "a"%byte /\ h_len (mk_haystack 4099 abracadabra) < 2 ^ 64) /\
  strzl_naive_count_char true (mk_haystack 4099 abracadabra) "a"%byte =
  Ret (occurrences (h_bytes (mk_haystack 4099 abracadabra)) "a"%byte).
Proof.
  assert (plain_char true "a"%byte) as Hp by (right; vm_compute; reflexivity).
  assert (h_len (mk_haystack 4099 abracadabra) < 2 ^ 64) as H64 by (vm_compute; reflexivity).
  split; [auto|].
  exact (count_char_counts_occurrences true (mk_haystack 4099 abracadabra) "a"%byte Hp H64).
Defined.

(** X7: whatever the byte and the signedness of [char], the count that
    [strzl_naive_count_char] returns never exceeds the haystack length. *)
Theorem count_char_at_most_length (char_signed : bool) (h : strzl_haystack_t)
    (c : byte) :
  h_len h < 2 ^ 64 ->
  returns (strzl_naive_count_char char_signed h c) (fun k => 0 <= k <= h_len h).
Proof.
  intros H64. unfold strzl_naive_count_char. cbv zeta.
  pose proof (blen_nonneg (h_bytes h)) as Hlen. fold (h_len h) in Hlen.
  set (Inv := fun s : Z * Z => counting_inv h (fst s) (snd s)).
  assert (forall s, Inv s -> fst s < h_len h ->
    returns (let '(i, result) := s in
             x <- read_byte (h_bytes h) i ;;
             Ret (Next (i + 1, add64 result (Z.b2z (Byte.eqb x c)))))
      (fun f : flow (Z * Z) Z => match f with
                | Next s' => Inv s' /\ h_len h - fst s' < h_len h - fst s
                | Return r => False
                end)) as Hbyte.
  { intros [i k] [Hi Hk] Hlt. cbn [fst snd] in *.
    rewrite read_byte_at by (unfold h_len in *; lia). cbn [bind returns].
    unfold Inv, counting_inv. cbn [fst snd].
    destruct (Byte.eqb (at_ (h_bytes h) i) c); cbn [Z.b2z];
      rewrite add64_small by lia; lia. }
  eapply returns_and_then.
  { apply for_loop_total with (Inv := Inv) (Post := fun _ => False)
      (measure := fun s => h_len h - fst s).
    - intros s [Hi _]. lia.
    - intros s Hs Hc. apply andb_true_iff in Hc as [_ Hc]. apply Z.ltb_lt in Hc.
      now apply Hbyte.
    - unfold Inv, counting_inv. cbn. lia.
    - apply h_len_fuel. cbn. lia. }
  { cbn. contradiction. }
  intros s1 [Hs1 _].
  eapply returns_and_then.
  { apply for_loop_total with (Inv := Inv) (Post := fun _ => False)
      (measure := fun s => h_len h - fst s).
    - intros s [Hi _]. lia.
    - intros [i k] [Hi Hk] Hcond. cbn [fst snd] in *. apply Z.leb_le in Hcond.
      rewrite load_le_in by (unfold h_len in *; lia). cbn [bind returns]. cbv zeta.
      unfold Inv, counting_inv. cbn [fst snd].
      match goal with |- context [char_indicators ?x ?t] =>
        destruct (char_probe_range x t) as (_ & Hpop & _); cbv zeta in Hpop
      end.
      rewrite add64_small by lia. lia.
    - exact Hs1.
    - apply h_len_fuel. apply Hs1. }
  { cbn. contradiction. }
  intros s2 [Hs2 _].
  eapply returns_and_then.
  { apply for_loop_total with (Inv := Inv) (Post := fun _ => False)
      (measure := fun s => h_len h - fst s).
    - intros s [Hi _]. lia.
    - intros s Hs Hc. apply Z.ltb_lt in Hc. now apply Hbyte.
    - exact Hs2.
    - apply h_len_fuel. apply Hs2. }
  { cbn. contradiction. }
  intros [i3 k3] [[Hi3 Hk3] _]. cbn [fst snd returns] in *. lia.
Qed.

Lemma count_char_at_most_length_witness :
  h_len (mk_haystack 4096 (bytes_of [128; 255; 255; 255; 255; 255; 255; 255; 128])) < 2 ^ 64 /\
  returns (strzl_naive_count_char true
             (mk_haystack 4096 (bytes_of [128; 255; 255; 255; 255; 255; 255; 255; 128]))
             (byte_of_Z 128))
          (fun k => 0 <= k <=
             h_len (mk_haystack 4096 (bytes_of [128; 255; 255; 255; 255; 255; 255; 255; 128]))).
Proof.
  assert (h_len (mk_haystack 4096 (bytes_of [128; 255; 255; 255; 255; 255; 255; 255; 128]))
          < 2 ^ 64) as H64 by (vm_compute; reflexivity).
  split; [exact H64|].
  exact (count_char_at_most_length true _ (byte_of_Z 128) H64).
Defined.

(** ** The 2-, 3- and 4-byte kernels

    The kernels take the needle as a bare pointer; they read its first 2,
    3 or 4 bytes and nothing behind them. *)

Lemma for_loop_ext {S R : Type} (fuel : nat) (cond : S -> bool)
    (body1 body2 : S -> res (flow S R)) (s : S) :
  (forall x, body1 x = body2 x) ->
  for_loop fuel cond body1 s = for_loop fuel cond body2 s.
Proof.
  intros E. revert s. induction fuel as [|fuel IH]; intros s; cbn [for_loop];
    [reflexivity|].
  rewrite E. destruct (cond s); [|reflexivity].
  destruct (body2 s) as [[s'|r]| |]; auto.
Qed.

Lemma blen_slice l i n : 0 <= i -> 0 <= n -> i + n <= blen l -> blen (slice l i n) = n.
Proof. intros. unfold blen at 1. rewrite slice_length by assumption. lia. Qed.

Lemma same_char_prefix hb i (n : list byte) j k :
  0 <= j < k -> k <= blen n -> same_char hb i n j = same_char hb i (slice n 0 k) j.
Proof.
  intros Hj Hk. unfold same_char.
  destruct (read_byte hb (i + j)); cbn [bind]; try reflexivity.
  rewrite !read_byte_at by (rewrite ?blen_slice by lia; lia).
  rewrite at_slice by lia. reflexivity.
Qed.

Lemma read_byte_prefix (n : list byte) j k :
  0 <= j < k -> k <= blen n -> read_byte (slice n 0 k) j = read_byte n j.
Proof.
  intros Hj Hk. rewrite !read_byte_at by (rewrite ?blen_slice by lia; lia).
  rewrite at_slice by lia. reflexivity.
Qed.

Lemma find_2chars_prefix sgn h n :
  2 <= blen n ->
  strzl_naive_find_2chars sgn h n = strzl_naive_find_2chars sgn h (slice n 0 2).
Proof.
  intros Hn. unfold strzl_naive_find_2chars. cbv zeta.
  rewrite !(read_byte_prefix n) by lia.
  destruct (read_byte n 0); cbn [bind]; try reflexivity.
  destruct (read_byte n 1); cbn [bind]; try reflexivity.
  match goal with |- and_then ?m _ = _ => destruct m as [[i|r]| |] end;
    cbn [and_then]; try reflexivity.
  f_equal. apply for_loop_ext. intros x.
  rewrite <- !(same_char_prefix _ _ n) by lia. reflexivity.
Qed.

Lemma find_3chars_prefix sgn h n :
  3 <= blen n ->
  strzl_naive_find_3chars sgn h n = strzl_naive_find_3chars sgn h (slice n 0 3).
Proof.
  intros Hn. unfold strzl_naive_find_3chars. cbv zeta.
  rewrite !(read_byte_prefix n) by lia.
  destruct (read_byte n 0); cbn [bind]; try reflexivity.
  destruct (read_byte n 1); cbn [bind]; try reflexivity.
  destruct (read_byte n 2); cbn [bind]; try reflexivity.
  match goal with |- and_then ?m _ = _ => destruct m as [[i|r]| |] end;
    cbn [and_then]; try reflexivity.
  f_equal. apply for_loop_ext. intros x.
  rewrite <- !(same_char_prefix _ _ n) by lia. reflexivity.
Qed.

Lemma find_4chars_prefix sgn h n :
  4 <= blen n ->
  strzl_naive_find_4chars sgn h n = strzl_naive_find_4chars sgn h (slice n 0 4).
Proof.
  intros Hn. unfold strzl_naive_find_4chars. cbv zeta.
  rewrite !(read_byte_prefix n) by lia.
  assert (forall x,
    (hit <- same_char (h_bytes h) x n 0 &&& same_char (h_bytes h) x n 1
              &&& same_char (h_bytes h) x n 2 &&& same_char (h_bytes h) x n 3 ;;
     if hit then Ret (Return x) else Ret (Next (x + 1)) : res (flow Z Z)) =
    (hit <- same_char (h_bytes h) x (slice n 0 4) 0
              &&& same_char (h_bytes h) x (slice n 0 4) 1
              &&& same_char (h_bytes h) x (slice n 0 4) 2
              &&& same_char (h_bytes h) x (slice n 0 4) 3 ;;
     if hit then Ret (Return x) else Ret (Next (x + 1)))) as Hbody.
  { intros x. rewrite <- !(same_char_prefix _ _ n) by lia. reflexivity. }
  rewrite (for_loop_ext _ _ _ _ 0 Hbody).
  match goal with |- and_then ?m _ = _ => destruct m as [[i|r]| |] end;
    cbn [and_then]; try reflexivity.
  destruct (read_byte n 0); cbn [bind]; try reflexivity.
  destruct (read_byte n 1); cbn [bind]; try reflexivity.
  destruct (read_byte n 2); cbn [bind]; try reflexivity.
  destruct (read_byte n 3); cbn [bind]; try reflexivity.
  match goal with |- and_then ?m _ = _ => destruct m as [[i'|r]| |] end;
    cbn [and_then]; try reflexivity.
  f_equal. apply for_loop_ext. exact Hbody.
Qed.

(** X8: on a needle buffer of at least two bytes whose first two convert
    without sign extension, [strzl_naive_find_2chars] returns the first
    index at which those two bytes occur, or the length when they occur
    nowhere; bytes of the buffer behind the second play no part. *)
Theorem find_2chars_returns_first_occurrence (char_signed : bool)
    (h : strzl_haystack_t) (n : list byte) :
  2 <= blen n -> Forall (plain_char char_signed) (slice n 0 2) ->
  returns (strzl_naive_find_2chars char_signed h n)
          (first_occurrence (h_bytes h) (slice n 0 2) (h_len h - 2)).
Proof.
  intros Hn Hp. rewrite find_2chars_prefix by exact Hn.
  destruct (blen_2 (slice n 0 2)) as (a & b & E); [apply blen_slice; lia|].
  rewrite E in *.
  inversion Hp as [|? ? Pa Hp1]; subst. inversion Hp1 as [|? ? Pb _]; subst.
  now apply find_2chars_first.
Qed.

Lemma find_2chars_returns_first_occurrence_witness :
  (2 <= blen cad /\ Forall (plain_char true) (slice cad 0 2)) /\
  returns (strzl_naive_find_2chars true (mk_haystack 4099 abracadabra) cad)
          (first_occurrence (h_bytes (mk_haystack 4099 abracadabra)) (slice cad 0 2)
             (h_len (mk_haystack 4099 abracadabra) - 2)).
Proof.
  assert (2 <= blen cad) as Hn by (vm_compute; discriminate).
  assert (Forall (plain_char true) (slice cad 0 2)) as Hp
    by (repeat constructor; right; vm_compute; reflexivity).
  split; [auto|].
  exact (find_2chars_returns_first_occurrence true (mk_haystack 4099 abracadabra) cad Hn Hp).
Defined.

(** X9: on a needle buffer of at least three bytes whose first three
    convert without sign extension, [strzl_naive_find_3chars] returns the
    first index at which those three bytes occur, or the length when they
    occur nowhere. *)
Theorem find_3chars_returns_first_occurrence (char_signed : bool)
    (h : strzl_haystack_t) (n : list byte) :
  3 <= blen n -> Forall (plain_char char_signed) (slice n 0 3) ->
  returns (strzl_naive_find_3chars char_signed h n)
          (first_occurrence (h_bytes h) (slice n 0 3) (h_len h - 3)).
Proof.
  intros Hn Hp. rewrite find_3chars_prefix by exact Hn.
  destruct (blen_3 (slice n 0 3)) as (a & b & c & E); [apply blen_slice; lia|].
  rewrite E in *.
  inversion Hp as [|? ? Pa Hp1]; subst. inversion Hp1 as [|? ? Pb Hp2]; subst.
  inversion Hp2 as [|? ? Pc _]; subst.
  now apply find_3chars_first.
Qed.

Lemma find_3chars_returns_first_occurrence_witness :
  (3 <= blen lazy_word /\ Forall (plain_char true) (slice lazy_word 0 3)) /\
  returns (strzl_naive_find_3chars true (mk_haystack 4101 pangram) lazy_word)
          (first_occurrence (h_bytes (mk_haystack 4101 pangram)) (slice lazy_word 0 3)
             (h_len (mk_haystack 4101 pangram) - 3)).
Proof.
  assert (3 <= blen lazy_word) as Hn by (vm_compute; discriminate).
  assert (Forall (plain_char true) (slice lazy_word 0 3)) as Hp
    by (repeat constructor; right; vm_compute; reflexivity).
  split; [auto|].
  exact (find_3chars_returns_first_occurrence true (mk_haystack 4101 pangram) lazy_word Hn Hp).
Defined.

(** X10: on a needle buffer of at least four bytes whose first four
    convert without sign extension, [strzl_naive_find_4chars] returns the
    first index at which those four bytes occur, or the length when they
    occur nowhere, whatever the alignment of the haystack. *)
Theorem find_4chars_returns_first_occurrence (char_signed : bool)
    (h : strzl_haystack_t) (n : list byte) :
  4 <= blen n -> Forall (plain_char char_signed) (slice n 0 4) ->
  returns (strzl_naive_find_4chars char_signed h n)
          (first_occurrence (h_bytes h) (slice n 0 4) (h_len h - 4)).
Proof.
  intros Hn Hp. rewrite find_4chars_prefix by exact Hn.
  destruct (blen_4 (slice n 0 4)) as (a & b & c & d & E); [apply blen_slice; lia|].
  rewrite E in *.
  inversion Hp as [|? ? Pa Hp1]; subst. inversion Hp1 as [|? ? Pb Hp2]; subst.
  inversion Hp2 as [|? ? Pc Hp3]; subst. inversion Hp3 as [|? ? Pd _]; subst.
  now apply find_4chars_first.
Qed.

Lemma find_4chars_returns_first_occurrence_witness :
  (4 <= blen needle6 /\ Forall (plain_char true) (slice needle6 0 4)) /\
  returns (strzl_naive_find_4chars true (mk_haystack 4099 hay38) needle6)
          (first_occurrence (h_bytes (mk_haystack 4099 hay38)) (slice needle6 0 4)
             (h_len (mk_haystack 4099 hay38) - 4)).
Proof.
  assert (4 <= blen needle6) as Hn by (vm_compute; discriminate).
  assert (Forall (plain_char true) (slice needle6 0 4)) as Hp
    by (repeat constructor; right; vm_compute; reflexivity).
  split; [auto|].
  exact (find_4chars_returns_first_occurrence true (mk_haystack 4099 hay38) needle6 Hn Hp).
Defined.
(** ** The general scanner *)

Lemma find_long_within sgn h n :
  5 <= n_len n -> needle_ok n ->
  returns (strzl_naive_find_substr sgn h n)
          (first_occurrence_within (h_bytes h) (n_bytes n)
             (h_len h - n_len n - anomaly_offset n)).
Proof.
  intros H5 (Hao & H64 & Hfit). specialize (Hfit H5).
  unfold strzl_naive_find_substr.
  destruct (Z.ltb_spec (h_len h) (n_len n)) as [Hshort|Hlong].
  { cbn. right. split; [reflexivity|]. intros j Hj. lia. }
  replace (n_len n =? 0) with false by (symmetry; apply Z.eqb_neq; lia).
  replace (n_len n =? 1) with false by (symmetry; apply Z.eqb_neq; lia).
  replace (n_len n =? 2) with false by (symmetry; apply Z.eqb_neq; lia).
  replace (n_len n =? 3) with false by (symmetry; apply Z.eqb_neq; lia).
  replace (n_len n =? 4) with false by (symmetry; apply Z.eqb_neq; lia).
  cbv zeta. unfold n_len, h_len in *.
  rewrite load_le_in by lia. cbn [bind].
  assert (wrap64 (blen (n_bytes n) - 4 - anomaly_offset n)
          = blen (n_bytes n) - 4 - anomaly_offset n) as Hw
    by (unfold wrap64; apply Z.mod_small; lia).
  rewrite Hw.
  eapply returns_and_then.
  { apply for_loop_total with
      (Inv := fun i => anomaly_offset n <= i <= blen (h_bytes h) /\
                       forall j, 0 <= j < i - anomaly_offset n ->
                                 ~ occurs_at (h_bytes h) (n_bytes n) j)
      (Post := fun r => 0 <= r <= blen (h_bytes h) - blen (n_bytes n) - anomaly_offset n /\
                        occurs_at (h_bytes h) (n_bytes n) r /\
                        forall j, 0 <= j < r -> ~ occurs_at (h_bytes h) (n_bytes n) j)
      (measure := fun i => blen (h_bytes h) - i).
    - intros i [Hi _]. lia.
    - intros i [Hi Hnone] Hc. apply Z.leb_le in Hc.
      rewrite load_le_in by lia. cbn [bind].
      rewrite !strzl_equal_spec by lia.
      rewrite !Z2Nat.id by lia. rewrite !and_also_ret. cbn [bind].
      rewrite anomaly_tests by lia.
      destruct (bytes_eqb (slice (h_bytes h) (i - anomaly_offset n) (blen (n_bytes n)))
                          (n_bytes n)) eqn:E; cbn [returns].
      + split; [lia|]. split.
        * now apply bytes_eqb_eq in E.
        * exact Hnone.
      + split; [|lia]. split; [lia|]. intros j Hj.
        destruct (Z.eq_dec j (i - anomaly_offset n)) as [->|Hne].
        * now apply bytes_eqb_neq in E.
        * apply Hnone. lia.
    - split; [lia|]. intros j Hj. lia.
    - unfold blen, loop_fuel. lia. }
  { intros r Hr. left. exact Hr. }
  intros i [[Hi Hnone] Hc]. cbn. right. split; [reflexivity|].
  apply Z.leb_gt in Hc. intros j Hj. apply Hnone. lia.
Qed.

(** X11: for a needle of five bytes or more, whatever its bytes, the
    signedness of [char] and the anomaly offset within its bounds,
    [strzl_naive_find_substr] returns the first index among
    [0 .. H.length - N.length - anomaly_offset] at which the needle
    occurs, and no index before it holds the needle; it returns the length
    exactly when the needle occurs at none of those indices. *)
Theorem long_needle_scan_is_exact (char_signed : bool) (h : strzl_haystack_t)
    (n : strzl_needle_t) :
  5 <= n_len n -> needle_ok n ->
  returns (strzl_naive_find_substr char_signed h n)
          (first_occurrence_within (h_bytes h) (n_bytes n)
             (h_len h - n_len n - anomaly_offset n)).
Proof. intros H5 Hok. now apply find_long_within. Qed.

Lemma long_needle_scan_is_exact_witness :
  (5 <= n_len (mk_needle needle6 1) /\ needle_ok (mk_needle needle6 1)) /\
  returns (strzl_naive_find_substr true (mk_haystack 4099 hay38) (mk_needle needle6 1))
          (first_occurrence_within (h_bytes (mk_haystack 4099 hay38))
             (n_bytes (mk_needle needle6 1))
             (h_len (mk_haystack 4099 hay38) - n_len (mk_needle needle6 1)
              - anomaly_offset (mk_needle needle6 1))).
Proof.
  assert (5 <= n_len (mk_needle needle6 1)) as H5 by (vm_compute; discriminate).
  assert (needle_ok (mk_needle needle6 1)) as Hok by (unfold needle_ok; cbn; lia).
  split; [auto|].
  exact (long_needle_scan_is_exact true (mk_haystack 4099 hay38) (mk_needle needle6 1) H5 Hok).
Defined.

(** X12: a haystack shorter than [N.length + anomaly_offset] is never
    searched: for a needle of five bytes or more
    [strzl_naive_find_substr] then returns the length, whatever the bytes
    of the haystack, also when the needle occurs in it. *)
Theorem haystack_below_offset_window_misses (char_signed : bool)
    (h : strzl_haystack_t) (n : strzl_needle_t) :
  5 <= n_len n -> needle_ok n -> h_len h < n_len n + anomaly_offset n ->
  strzl_naive_find_substr char_signed h n = Ret (h_len h).
Proof.
  intros H5 Hok Hshort.
  destruct (returns_ret _ _ (find_long_within char_signed h n H5 Hok)) as (r & E & F).
  rewrite E. f_equal. unfold h_len in *.
  destruct F as [(Hr & _)|(-> & _)]; [lia|reflexivity].
Qed.

Lemma haystack_below_offset_window_misses_witness :
  (5 <= n_len (mk_needle needle6 2) /\ needle_ok (mk_needle needle6 2) /\
   h_len (mk_haystack 4096 needle6) < n_len (mk_needle needle6 2)
                                      + anomaly_offset (mk_needle needle6 2)) /\
  strzl_naive_find_substr true (mk_haystack 4096 needle6) (mk_needle needle6 2)
  = Ret (h_len (mk_haystack 4096 needle6)).
Proof.
  assert (5 <= n_len (mk_needle needle6 2)) as H5 by (vm_compute; discriminate).
  assert (needle_ok (mk_needle needle6 2)) as Hok by (unfold needle_ok; cbn; lia).
  assert (h_len (mk_haystack 4096 needle6)
          < n_len (mk_needle needle6 2) + anomaly_offset (mk_needle needle6 2)) as Hshort
    by (vm_compute; reflexivity).
  split; [auto|].
  exact (haystack_below_offset_window_misses true (mk_haystack 4096 needle6)
           (mk_needle needle6 2) H5 Hok Hshort).
Defined.

(** X13: with needles of up to four bytes that convert without sign
    extension, and [anomaly_offset = 0] from five bytes on,
    [strzl_naive_find_substr] returns the first index at which the needle
    occurs, or the length when it occurs at no index of
    [0 .. H.length - N.length]. *)
Theorem find_substr_returns_first_occurrence (char_signed : bool)
    (h : strzl_haystack_t) (n : strzl_needle_t) :
  needle_ok n ->
  (n_len n <= 4 -> Forall (plain_char char_signed) (n_bytes n)) ->
  (5 <= n_len n -> anomaly_offset n = 0) ->
  returns (strzl_naive_find_substr char_signed h n)
          (first_occurrence (h_bytes h) (n_bytes n) (h_len h - n_len n)).
Proof.
  intros Hok Hplain Hzero.
  eapply returns_weaken; [apply find_substr_first; eassumption|].
  intros r. cbv beta.
  destruct (Z.leb_spec (n_len n) 4) as [H4|H5].
  - now rewrite Z.sub_0_r.
  - rewrite Hzero by lia. now rewrite Z.sub_0_r.
Qed.

Lemma find_substr_returns_first_occurrence_witness :
  (needle_ok (mk_needle fox 0) /\
   (n_len (mk_needle fox 0) <= 4 -> Forall (plain_char true) (n_bytes (mk_needle fox 0))) /\
   (5 <= n_len (mk_needle fox 0) -> anomaly_offset (mk_needle fox 0) = 0)) /\
  returns (strzl_naive_find_substr true (mk_haystack 4101 pangram) (mk_needle fox 0))
          (first_occurrence (h_bytes (mk_haystack 4101 pangram)) (n_bytes (mk_needle fox 0))
             (h_len (mk_haystack 4101 pangram) - n_len (mk_needle fox 0))).
Proof.
  assert (needle_ok (mk_needle fox 0)) as Hok by (unfold needle_ok; cbn; lia).
  assert (n_len (mk_needle fox 0) <= 4 ->
          Forall (plain_char true) (n_bytes (mk_needle fox 0))) as Hplain
    by (intros _; repeat constructor; right; vm_compute; reflexivity).
  assert (5 <= n_len (mk_needle fox 0) -> anomaly_offset (mk_needle fox 0) = 0) as Hzero
    by (intros _; reflexivity).
  split; [auto|].
  exact (find_substr_returns_first_occurrence true (mk_haystack 4101 pangram)
           (mk_needle fox 0) Hok Hplain Hzero).
Defined.

(** ** A reported index leaves room for the needle *)

Lemma fit_loop h w cond body fuel i0 :
  (forall i, 0 <= i <= h_len h -> cond i = true ->
     returns (body i) (fun f =>
       match f with
       | Next i' => i < i' <= h_len h
       | Return r => 0 <= r /\ r + w <= h_len h
       end)) ->
  0 <= i0 <= h_len h -> h_len h - i0 < Z.of_nat fuel ->
  returns (for_loop fuel cond body i0) (fun f : flow Z Z =>
    match f with
    | Next i => 0 <= i <= h_len h /\ cond i = false
    | Return r => 0 <= r /\ r + w <= h_len h
    end).
Proof.
  intros Hbody Hi0 Hfuel.
  apply for_loop_total with (Inv := fun i => 0 <= i <= h_len h)
    (measure := fun i => h_len h - i); try assumption.
  - intros; lia.
  - intros i Hi Hc. eapply returns_weaken; [apply (Hbody i Hi Hc)|].
    intros [i'|r]; cbn; [lia|auto].
Qed.

Lemma hit_fits_return h w r : 0 <= r /\ r + w <= h_len h -> hit_fits h w r.
Proof. intros H. right. exact H. Qed.

Lemma find_char_fits sgn h n :
  returns (strzl_naive_find_char sgn h n) (hit_fits h 1).
Proof.
  unfold strzl_naive_find_char. cbv zeta.
  pose proof (blen_nonneg (h_bytes h)) as Hlen. fold (h_len h) in Hlen.
  assert (forall i, 0 <= i < h_len h ->
    returns (c <- read_byte (h_bytes h) i ;;
             if Byte.eqb c n then Ret (Return i) else Ret (Next (i + 1)))
      (fun f : flow Z Z => match f with
                | Next i' => i < i' <= h_len h
                | Return r => 0 <= r /\ r + 1 <= h_len h
                end)) as Hbyte.
  { intros i Hi. rewrite read_byte_at by exact Hi. cbn [bind].
    destruct (Byte.eqb _ n); cbn [returns]; lia. }
  eapply returns_and_then.
  { apply fit_loop with (h := h) (w := 1); [|lia|apply h_len_fuel; lia].
    intros i Hi Hc. apply andb_true_iff in Hc as [_ Hc]. apply Z.ltb_lt in Hc.
    apply Hbyte. lia. }
  { apply hit_fits_return. }
  intros i1 [Hi1 _].
  eapply returns_and_then.
  { apply fit_loop with (h := h) (w := 1); [|lia|apply h_len_fuel; lia].
    intros i Hi Hc. apply Z.leb_le in Hc.
    rewrite load_le_in by (unfold h_len in *; lia). cbn [bind]. cbv zeta.
    match goal with |- context [char_indicators ?x ?t] =>
      destruct (char_probe_range x t) as (Hctz & _ & _); cbv zeta in Hctz;
      destruct (Z.eqb_spec (char_indicators x t) 0) as [E|E]
    end; cbn [negb returns]; [lia|]. specialize (Hctz E). lia. }
  { apply hit_fits_return. }
  intros i2 [Hi2 _].
  eapply returns_and_then.
  { apply fit_loop with (h := h) (w := 1); [|lia|apply h_len_fuel; lia].
    intros i Hi Hc. apply Z.ltb_lt in Hc. apply Hbyte. lia. }
  { apply hit_fits_return. }
  intros i3 _. cbn. left. reflexivity.
Qed.

Lemma find_2chars_fits sgn h n :
  2 <= blen n -> returns (strzl_naive_find_2chars sgn h n) (hit_fits h 2).
Proof.
  intros Hn. unfold strzl_naive_find_2chars. cbv zeta.
  pose proof (blen_nonneg (h_bytes h)) as Hlen. fold (h_len h) in Hlen.
  rewrite !read_byte_at by lia. cbn [bind].
  eapply returns_and_then.
  { apply fit_loop with (h := h) (w := 2); [|lia|apply h_len_fuel; lia].
    intros i Hi Hc. apply Z.leb_le in Hc.
    rewrite load_le_in by (unfold h_len in *; lia). cbn [bind].
    match goal with |- context [indicators_2chars ?x ?t] =>
      pose proof (two_probe_range x t) as R; destruct (indicators_2chars x t) as [ev od]
    end.
    destruct (Z.eqb_spec (add64 ev od) 0) as [E|E]; cbn [negb returns];
      [lia|]. specialize (R E). lia. }
  { apply hit_fits_return. }
  intros i1 [Hi1 _].
  eapply returns_and_then.
  { apply fit_loop with (h := h) (w := 2); [|lia|apply h_len_fuel; lia].
    intros i Hi Hc. apply Z.leb_le in Hc. unfold h_len in *.
    rewrite !same_char_in by lia. rewrite !and_also_ret. cbn [bind].
    match goal with |- context [if ?b then _ else _] => destruct b end;
      cbn [returns]; unfold h_len; lia. }
  { apply hit_fits_return. }
  intros i2 _. cbn. left. reflexivity.
Qed.

Lemma find_3chars_fits sgn h n :
  3 <= blen n -> returns (strzl_naive_find_3chars sgn h n) (hit_fits h 3).
Proof.
  intros Hn. unfold strzl_naive_find_3chars. cbv zeta.
  pose proof (blen_nonneg (h_bytes h)) as Hlen. fold (h_len h) in Hlen.
  rewrite !read_byte_at by lia. cbn [bind].
  eapply returns_and_then.
  { apply fit_loop with (h := h) (w := 3); [|lia|apply h_len_fuel; lia].
    intros i Hi Hc. apply Z.leb_le in Hc.
    rewrite load_le_in by (unfold h_len in *; lia). cbn [bind]. cbv zeta.
    match goal with |- context [indicators_3chars ?x ?t] =>
      pose proof (three_probe_range x t) as R; cbv zeta in R;
      destruct (Z.eqb_spec (indicators_3chars x t) 0) as [E|E]
    end; cbn [negb returns]; [lia|]. specialize (R E). lia. }
  { apply hit_fits_return. }
  intros i1 [Hi1 _].
  eapply returns_and_then.
  { apply fit_loop with (h := h) (w := 3); [|lia|apply h_len_fuel; lia].
    intros i Hi Hc. apply Z.leb_le in Hc. unfold h_len in *.
    rewrite !same_char_in by lia. rewrite !and_also_ret. cbn [bind].
    match goal with |- context [if ?b then _ else _] => destruct b end;
      cbn [returns]; unfold h_len; lia. }
  { apply hit_fits_return. }
  intros i2 _. cbn. left. reflexivity.
Qed.

Lemma find_4chars_fits sgn h n :
  4 <= blen n -> returns (strzl_naive_find_4chars sgn h n) (hit_fits h 4).
Proof.
  intros Hn. unfold strzl_naive_find_4chars. cbv zeta.
  pose proof (blen_nonneg (h_bytes h)) as Hlen. fold (h_len h) in Hlen.
  assert (forall i, 0 <= i <= h_len h -> i + 4 <= h_len h ->
    returns (hit <- same_char (h_bytes h) i n 0 &&& same_char (h_bytes h) i n 1
                      &&& same_char (h_bytes h) i n 2 &&& same_char (h_bytes h) i n 3 ;;
             if hit then Ret (Return i) else Ret (Next (i + 1)))
      (fun f : flow Z Z => match f with
                | Next i' => i < i' <= h_len h
                | Return r => 0 <= r /\ r + 4 <= h_len h
                end)) as Hbytes.
  { intros i Hi Hc. unfold h_len in *.
    rewrite !same_char_in by lia. rewrite !and_also_ret. cbn [bind].
    match goal with |- context [if ?b then _ else _] => destruct b end;
      cbn [returns]; unfold h_len; lia. }
  eapply returns_and_then.
  { apply fit_loop with (h := h) (w := 4); [|lia|apply h_len_fuel; lia].
    intros i Hi Hc. apply andb_true_iff in Hc as [_ Hc]. apply Z.leb_le in Hc.
    now apply Hbytes. }
  { apply hit_fits_return. }
  intros i1 [Hi1 _].
  rewrite !read_byte_at by lia. cbn [bind].
  eapply returns_and_then.
  { apply fit_loop with (h := h) (w := 4); [|lia|apply h_len_fuel; lia].
    intros i Hi Hc. apply Z.leb_le in Hc.
    rewrite load_le_in by (unfold h_len in *; lia). cbn [bind].
    match goal with |- context [indicators_4chars ?x ?t] =>
      pose proof (four_probe_range x t) as R; destruct (indicators_4chars x t) as [a b]
    end.
    destruct (Z.eqb_spec (add64 a b) 0) as [E|E]; cbn [negb returns]; [lia|].
    destruct (R E) as (off & -> & Hoff). cbn [bind returns]. lia. }
  { apply hit_fits_return. }
  intros i2 [Hi2 _].
  eapply returns_and_then.
  { apply fit_loop with (h := h) (w := 4); [|lia|apply h_len_fuel; lia].
    intros i Hi Hc. apply Z.leb_le in Hc. now apply Hbytes. }
  { apply hit_fits_return. }
  intros i3 _. cbn. left. reflexivity.
Qed.

Lemma find_substr_fits sgn h n :
  needle_ok n -> returns (strzl_naive_find_substr sgn h n) (hit_fits h (n_len n)).
Proof.
  intros Hok.
  pose proof (blen_nonneg (h_bytes h)) as Hh. pose proof (blen_nonneg (n_bytes n)) as Hn.
  destruct (Z.le_gt_cases 5 (n_len n)) as [H5|H4].
  { eapply returns_weaken; [apply find_long_first; assumption|].
    intros r [(Hr & _)|(-> & _)]; [right|left; reflexivity].
    unfold h_len, n_len in *. lia. }
  unfold strzl_naive_find_substr.
  destruct (Z.ltb_spec (h_len h) (n_len n)); [cbn; left; reflexivity|].
  destruct (Z.eqb_spec (n_len n) 0) as [E0|N0].
  { cbn. right. unfold h_len in *. lia. }
  destruct (Z.eqb_spec (n_len n) 1) as [E|N1].
  { rewrite E. unfold n_len in E. rewrite read_byte_at by lia. cbn [bind].
    apply find_char_fits. }
  destruct (Z.eqb_spec (n_len n) 2) as [E|N2];
    [rewrite E; apply find_2chars_fits; unfold n_len in *; lia|].
  destruct (Z.eqb_spec (n_len n) 3) as [E|N3];
    [rewrite E; apply find_3chars_fits; unfold n_len in *; lia|].
  destruct (Z.eqb_spec (n_len n) 4) as [E|N4];
    [rewrite E; apply find_4chars_fits; unfold n_len in *; lia|].
  unfold n_len in *. lia.
Qed.

(** X14: whatever the bytes and the signedness of [char], an index below
    the length that [strzl_naive_find_substr] returns leaves room for the
    needle: [r + N.length <= H.length], so the caller may read the
    reported match. *)
Theorem scalar_hit_leaves_room (char_signed : bool) (h : strzl_haystack_t)
    (n : strzl_needle_t) :
  needle_ok n ->
  returns (strzl_naive_find_substr char_signed h n)
          (fun r => r = h_len h \/ (0 <= r /\ r + n_len n <= h_len h)).
Proof. intros Hok. exact (find_substr_fits char_signed h n Hok). Qed.

Lemma scalar_hit_leaves_room_witness :
  needle_ok (mk_needle (bytes_of [255; 128]) 0) /\
  returns (strzl_naive_find_substr true
             (mk_haystack 4096 (bytes_of [1; 2; 3; 4; 5; 6; 255; 255; 128; 7]))
             (mk_needle (bytes_of [255; 128]) 0))
          (fun r =>
             r = h_len (mk_haystack 4096 (bytes_of [1; 2; 3; 4; 5; 6; 255; 255; 128; 7])) \/
             (0 <= r /\
              r + n_len (mk_needle (bytes_of [255; 128]) 0)
              <= h_len (mk_haystack 4096 (bytes_of [1; 2; 3; 4; 5; 6; 255; 255; 128; 7])))).
Proof.
  assert (needle_ok (mk_needle (bytes_of [255; 128]) 0)) as Hok
    by (unfold needle_ok; cbn; lia).
  split; [exact Hok|].
  exact (scalar_hit_leaves_room true
           (mk_haystack 4096 (bytes_of [1; 2; 3; 4; 5; 6; 255; 255; 128; 7]))
           (mk_needle (bytes_of [255; 128]) 0) Hok).
Defined.
(** ** The vector scanners *)

Lemma avx2_find_substr_fits sgn h n :
  needle_ok n -> returns (strzl_avx2_find_substr sgn h n) (hit_fits h (n_len n)).
Proof.
  intros Hok. unfold strzl_avx2_find_substr.
  pose proof (blen_nonneg (h_bytes h)) as Hh. fold (h_len h) in Hh.
  destruct (Z.ltb_spec (n_len n) 4) as [H3|H4]; [now apply find_substr_fits|].
  cbv zeta. rewrite load_le_in by (unfold n_len in *; lia). cbn [bind].
  eapply returns_and_then.
  { apply fit_loop with (h := h) (w := n_len n); [|lia|apply h_len_fuel; lia].
    intros i Hi Hc. apply Z.leb_le in Hc.
    unfold AVX2._mm256_loadu_si256.
    rewrite !read_bytes_in by (unfold h_len in *; lia). cbn [bind].
    match goal with |- context [if ?b then _ else _] => destruct b end;
      [|cbn [returns]; lia].
    eapply returns_and_on.
    - apply verify_block_total; unfold h_len in *; lia.
    - cbn. intros r Hr. lia.
    - intros j _. cbn [returns]. lia. }
  { apply hit_fits_return. }
  intros i [Hi _].
  eapply returns_bind; [apply find_substr_fits; exact Hok|].
  intros r Hr. unfold hit_fits in *. rewrite h_from_len in Hr by lia. cbn. lia.
Qed.

Lemma neon_find_substr_fits sgn h n :
  needle_ok n -> returns (strzl_neon_find_substr sgn h n) (hit_fits h (n_len n)).
Proof.
  intros Hok. unfold strzl_neon_find_substr.
  pose proof (blen_nonneg (h_bytes h)) as Hh. fold (h_len h) in Hh.
  destruct (Z.ltb_spec (n_len n) 4) as [H3|H4]; [now apply find_substr_fits|].
  cbv zeta. unfold NEON.vld1q_dup_u32.
  rewrite load_le_in by (unfold n_len in *; lia). cbn [bind].
  eapply returns_and_then.
  { apply fit_loop with (h := h) (w := n_len n); [|lia|apply h_len_fuel; lia].
    intros i Hi Hc. apply Z.leb_le in Hc.
    unfold NEON.vld1q_u32.
    rewrite !read_bytes_in by (unfold h_len in *; lia). cbn [bind].
    match goal with |- context [if ?b then _ else _] => destruct b end;
      [|cbn [returns]; lia].
    eapply returns_and_on.
    - apply verify_block_total; unfold h_len in *; lia.
    - cbn. intros r Hr. lia.
    - intros j _. cbn [returns]. lia. }
  { apply hit_fits_return. }
  intros i [Hi _].
  eapply returns_bind; [apply find_substr_fits; exact Hok|].
  intros r Hr. unfold hit_fits in *. rewrite h_from_len in Hr by lia. cbn. lia.
Qed.

(** X15: whatever the bytes and the signedness of [char], an index below
    the length that [strzl_avx2_find_substr] or [strzl_neon_find_substr]
    returns leaves room for the needle: [r + N.length <= H.length]. *)
Theorem vector_hit_leaves_room (char_signed : bool) (h : strzl_haystack_t)
    (n : strzl_needle_t) :
  needle_ok n ->
  returns (strzl_avx2_find_substr char_signed h n)
          (fun r => r = h_len h \/ (0 <= r /\ r + n_len n <= h_len h)) /\
  returns (strzl_neon_find_substr char_signed h n)
          (fun r => r = h_len h \/ (0 <= r /\ r + n_len n <= h_len h)).
Proof.
  intros Hok. split.
  - exact (avx2_find_substr_fits char_signed h n Hok).
  - exact (neon_find_substr_fits char_signed h n Hok).
Qed.

Lemma vector_hit_leaves_room_witness :
  needle_ok (mk_needle needle6 2) /\
  returns (strzl_avx2_find_substr true (mk_haystack 4099 hay38) (mk_needle needle6 2))
          (fun r => r = h_len (mk_haystack 4099 hay38) \/
                    (0 <= r /\ r + n_len (mk_needle needle6 2)
                               <= h_len (mk_haystack 4099 hay38))) /\
  returns (strzl_neon_find_substr true (mk_haystack 4099 hay38) (mk_needle needle6 2))
          (fun r => r = h_len (mk_haystack 4099 hay38) \/
                    (0 <= r /\ r + n_len (mk_needle needle6 2)
                               <= h_len (mk_haystack 4099 hay38))).
Proof.
  assert (needle_ok (mk_needle needle6 2)) as Hok by (unfold needle_ok; cbn; lia).
  split; [exact Hok|].
  exact (vector_hit_leaves_room true (mk_haystack 4099 hay38) (mk_needle needle6 2) Hok).
Defined.

(** X16: [strzl_avx2_find_substr] and [strzl_neon_find_substr] return the
    first index at which the needle occurs, or the length when it occurs
    at none of the indices the scalar tail visits; needles of up to four
    bytes must convert without sign extension. *)
Theorem vector_paths_return_first_occurrence (char_signed : bool)
    (h : strzl_haystack_t) (n : strzl_needle_t) :
  needle_ok n ->
  (n_len n <= 4 -> Forall (plain_char char_signed) (n_bytes n)) ->
  returns (strzl_avx2_find_substr char_signed h n)
          (first_occurrence (h_bytes h) (n_bytes n) (scalar_limit h n)) /\
  returns (strzl_neon_find_substr char_signed h n)
          (first_occurrence (h_bytes h) (n_bytes n) (scalar_limit h n)).
Proof.
  intros Hok Hplain. split.
  - now apply avx2_find_substr_first.
  - now apply neon_find_substr_first.
Qed.

Lemma vector_paths_return_first_occurrence_witness :
  (needle_ok (mk_needle needle6 2) /\
   (n_len (mk_needle needle6 2) <= 4 ->
    Forall (plain_char true) (n_bytes (mk_needle needle6 2)))) /\
  returns (strzl_avx2_find_substr true (mk_haystack 4099 hay38) (mk_needle needle6 2))
          (first_occurrence (h_bytes (mk_haystack 4099 hay38))
             (n_bytes (mk_needle needle6 2))
             (scalar_limit (mk_haystack 4099 hay38) (mk_needle needle6 2))) /\
  returns (strzl_neon_find_substr true (mk_haystack 4099 hay38) (mk_needle needle6 2))
          (first_occurrence (h_bytes (mk_haystack 4099 hay38))
             (n_bytes (mk_needle needle6 2))
             (scalar_limit (mk_haystack 4099 hay38) (mk_needle needle6 2))).
Proof.
  assert (needle_ok (mk_needle needle6 2)) as Hok by (unfold needle_ok; cbn; lia).
  assert (n_len (mk_needle needle6 2) <= 4 ->
          Forall (plain_char true) (n_bytes (mk_needle needle6 2))) as Hplain
    by (intros _; repeat constructor; right; vm_compute; reflexivity).
  split; [auto|].
  exact (vector_paths_return_first_occurrence true (mk_haystack 4099 hay38)
           (mk_needle needle6 2) Hok Hplain).
Defined.

(** X17: with needles of up to four bytes that convert without sign
    extension, and [anomaly_offset = 0] from five bytes on, the scalar,
    the AVX2 and the NEON path return the same index. *)
Theorem three_paths_agree (char_signed : bool) (h : strzl_haystack_t)
    (n : strzl_needle_t) :
  needle_ok n ->
  (n_len n <= 4 -> Forall (plain_char char_signed) (n_bytes n)) ->
  (5 <= n_len n -> anomaly_offset n = 0) ->
  strzl_avx2_find_substr char_signed h n = strzl_naive_find_substr char_signed h n /\
  strzl_neon_find_substr char_signed h n = strzl_naive_find_substr char_signed h n.
Proof. intros Hok Hplain Hzero. now apply backends_agree. Qed.

Lemma three_paths_agree_witness :
  (needle_ok (mk_needle needle6 0) /\
   (n_len (mk_needle needle6 0) <= 4 ->
    Forall (plain_char true) (n_bytes (mk_needle needle6 0))) /\
   (5 <= n_len (mk_needle needle6 0) -> anomaly_offset (mk_needle needle6 0) = 0)) /\
  strzl_avx2_find_substr true (mk_haystack 4099 hay38) (mk_needle needle6 0)
  = strzl_naive_find_substr true (mk_haystack 4099 hay38) (mk_needle needle6 0) /\
  strzl_neon_find_substr true (mk_haystack 4099 hay38) (mk_needle needle6 0)
  = strzl_naive_find_substr true (mk_haystack 4099 hay38) (mk_needle needle6 0).
Proof.
  assert (needle_ok (mk_needle needle6 0)) as Hok by (unfold needle_ok; cbn; lia).
  assert (n_len (mk_needle needle6 0) <= 4 ->
          Forall (plain_char true) (n_bytes (mk_needle needle6 0))) as Hplain
    by (intros _; repeat constructor; right; vm_compute; reflexivity).
  assert (5 <= n_len (mk_needle needle6 0) -> anomaly_offset (mk_needle needle6 0) = 0)
    as Hzero by (intros _; reflexivity).
  split; [auto|].
  exact (three_paths_agree true (mk_haystack 4099 hay38) (mk_needle needle6 0)
           Hok Hplain Hzero).
Defined.

Lemma hit_is_first_occurrence hb nb limit r r' :
  first_occurrence_within hb nb limit r -> r < blen hb ->
  first_occurrence hb nb limit r' -> r' = r.
Proof.
  intros [(Hr & Occ & Fst)|(-> & _)] Hlt F'; [|lia].
  destruct F' as [(Hr' & Occ' & Fst')|(-> & None')].
  - destruct (Z.lt_trichotomy r r') as [L|[E|G]]; [|now symmetry|].
    + exfalso. apply (Fst' r); [lia|exact Occ].
    + exfalso. apply (Fst r'); [lia|exact Occ'].
  - exfalso. apply (None' r); [lia|exact Occ].
Qed.

(** X18: whatever the anomaly offset within its bounds, an index below the
    length that the scalar path returns is returned by the AVX2 and the
    NEON path as well (needles of up to four bytes converting without sign
    extension): the vector paths lose no match the scalar path finds. *)
Theorem vector_paths_find_scalar_hits (char_signed : bool) (h : strzl_haystack_t)
    (n : strzl_needle_t) (r : Z) :
  needle_ok n ->
  (n_len n <= 4 -> Forall (plain_char char_signed) (n_bytes n)) ->
  strzl_naive_find_substr char_signed h n = Ret r -> r < h_len h ->
  strzl_avx2_find_substr char_signed h n = Ret r /\
  strzl_neon_find_substr char_signed h n = Ret r.
Proof.
  intros Hok Hplain Hscalar Hhit.
  destruct (Z.le_gt_cases (n_len n) 4) as [H4|H5].
  { destruct (backends_agree char_signed h n Hok Hplain ltac:(lia)) as [-> ->]. auto. }
  pose proof (find_long_within char_signed h n ltac:(lia) Hok) as W.
  rewrite Hscalar in W. cbn [returns] in W.
  assert (scalar_limit h n = h_len h - n_len n - anomaly_offset n) as Hlim.
  { unfold scalar_limit. now replace (n_len n <=? 4) with false
      by (symmetry; apply Z.leb_gt; lia). }
  split.
  - destruct (returns_ret _ _ (avx2_find_substr_first char_signed h n Hok Hplain))
      as (r' & E & F).
    rewrite E. f_equal. rewrite Hlim in F.
    eapply hit_is_first_occurrence; [exact W|exact Hhit|exact F].
  - destruct (returns_ret _ _ (neon_find_substr_first char_signed h n Hok Hplain))
      as (r' & E & F).
    rewrite E. f_equal. rewrite Hlim in F.
    eapply hit_is_first_occurrence; [exact W|exact Hhit|exact F].
Qed.

Lemma vector_paths_find_scalar_hits_witness :
  (needle_ok (mk_needle needle6 1) /\
   (n_len (mk_needle needle6 1) <= 4 ->
    Forall (plain_char true) (n_bytes (mk_needle needle6 1))) /\
   strzl_naive_find_substr true
     (mk_haystack 4096 (hay38 ++ hay38)) (mk_needle needle6 1) = Ret 31 /\
   31 < h_len (mk_haystack 4096 (hay38 ++ hay38))) /\
  strzl_avx2_find_substr true (mk_haystack 4096 (hay38 ++ hay38)) (mk_needle needle6 1)
  = Ret 31 /\
  strzl_neon_find_substr true (mk_haystack 4096 (hay38 ++ hay38)) (mk_needle needle6 1)
  = Ret 31.
Proof.
  assert (needle_ok (mk_needle needle6 1)) as Hok by (unfold needle_ok; cbn; lia).
  assert (n_len (mk_needle needle6 1) <= 4 ->
          Forall (plain_char true) (n_bytes (mk_needle needle6 1))) as Hplain
    by (intros _; repeat constructor; right; vm_compute; reflexivity).
  assert (strzl_naive_find_substr true
            (mk_haystack 4096 (hay38 ++ hay38)) (mk_needle needle6 1) = Ret 31) as Hscalar
    by (vm_compute; reflexivity).
  assert (31 < h_len (mk_haystack 4096 (hay38 ++ hay38))) as Hhit
    by (vm_compute; reflexivity).
  split; [auto|].
  exact (vector_paths_find_scalar_hits true (mk_haystack 4096 (hay38 ++ hay38))
           (mk_needle needle6 1) 31 Hok Hplain Hscalar Hhit).
Defined.
(** ** [strzl_neon_count_char] *)

Lemma slice_16 l i :
  0 <= i -> i + 16 <= blen l ->
  slice l i 16 =
  [at_ l (i + 0); at_ l (i + 1); at_ l (i + 2); at_ l (i + 3);
   at_ l (i + 4); at_ l (i + 5); at_ l (i + 6); at_ l (i + 7);
   at_ l (i + 8 + 0); at_ l (i + 8 + 1); at_ l (i + 8 + 2); at_ l (i + 8 + 3);
   at_ l (i + 8 + 4); at_ l (i + 8 + 5); at_ l (i + 8 + 6); at_ l (i + 8 + 7)].
Proof.
  intros Hi Hl. change 16 with (8 + 8). rewrite slice_app by lia.
  rewrite !slice_8 by lia. reflexivity.
Qed.

(** Eight byte masks of [vceqq_u8] seen as one 64-bit lane: an eighth of
    its population count is the number of bytes that compared equal. *)
Lemma neon_lane_count (b0 b1 b2 b3 b4 b5 b6 b7 : bool) (rest : vec) :
  popcountll (lanes_widen 8 8
    ((if b0 then 0xFF else 0) :: (if b1 then 0xFF else 0) :: (if b2 then 0xFF else 0) ::
     (if b3 then 0xFF else 0) :: (if b4 then 0xFF else 0) :: (if b5 then 0xFF else 0) ::
     (if b6 then 0xFF else 0) :: (if b7 then 0xFF else 0) :: rest)) / 8 =
  Z.b2z b0 + (Z.b2z b1 + (Z.b2z b2 + (Z.b2z b3 + (Z.b2z b4 + (Z.b2z b5 +
    (Z.b2z b6 + (Z.b2z b7 + 0))))))).
Proof.
  cbn [lanes_widen]. destruct b0, b1, b2, b3, b4, b5, b6, b7; vm_compute; reflexivity.
Qed.

Lemma b2z_range b : 0 <= Z.b2z b <= 1.
Proof. destruct b; cbn; lia. Qed.

Lemma le_combine_1 b : le_combine [b] = u8 b.
Proof. cbn [le_combine]. rewrite Z.shiftl_0_l. apply Z.lor_0_r. Qed.

(** One pass of the vector loop adds the number of bytes of its 16 that
    hold [n], in two halves of at most 8. *)
Lemma neon_count_block hb n i :
  0 <= i -> i + 16 <= blen hb ->
  let masks := NEON.vceqq_u8 (lanes_of_bytes 1 16 (slice hb i 16)) (NEON.vld1q_dup_u8 n) in
  let masks64x2 := NEON.vreinterpretq_u64_u8 masks in
  let lo := popcountll (NEON.vgetq_lane_u64 masks64x2 0) / 8 in
  let hi := popcountll (NEON.vgetq_lane_u64 masks64x2 1) / 8 in
  0 <= lo <= 8 /\ 0 <= hi <= 8 /\ lo + hi = occurrences (slice hb i 16) n.
Proof.
  intros Hi Hfit. cbv zeta.
  assert (occurrences (slice hb i 16) n =
          occurrences (slice hb i 8) n + occurrences (slice hb (i + 8) 8) n) as ->
    by (change 16 with (8 + 8); rewrite slice_app by lia; apply occurrences_app).
  rewrite !(occurrences_sum (slice hb _ 8)).
  rewrite slice_16 by lia. rewrite !slice_8 by lia.
  unfold NEON.vceqq_u8, NEON.vld1q_dup_u8, NEON.vreinterpretq_u64_u8,
    NEON.vgetq_lane_u64, lanes_cmpeq.
  cbn [lanes_of_bytes firstn skipn repeat combine map fst snd nth fold_right].
  rewrite !le_combine_1, !u8_eqb.
  rewrite !neon_lane_count.
  repeat match goal with |- context [Z.b2z ?b] =>
    lazymatch b with
    | Byte.eqb _ _ => let R := fresh "R" in
                      pose proof (b2z_range b) as R; generalize dependent (Z.b2z b)
    end
  end.
  intros. lia.
Qed.

Lemma occurrences_split hb i c :
  0 <= i ->
  occurrences hb c = occurrences (slice hb 0 i) c + occurrences (skipn (Z.to_nat i) hb) c.
Proof.
  intros Hi. rewrite <- occurrences_app. unfold slice. cbn [Z.to_nat skipn].
  now rewrite firstn_skipn.
Qed.

Lemma neon_count_char_exact sgn h n :
  plain_char sgn n -> h_len h < 2 ^ 64 ->
  returns (strzl_neon_count_char sgn h n) (fun k => k = occurrences (h_bytes h) n).
Proof.
  intros Hp H64. unfold strzl_neon_count_char. cbv zeta.
  pose proof (blen_nonneg (h_bytes h)) as Hh. fold (h_len h) in Hh.
  set (aligned_start := wrap64 (strzl_divide_round_up (h_addr h) 16 * 16)).
  pose proof (wrap64_range (aligned_start - h_addr h)) as Hoff.
  set (off := wrap64 (aligned_start - h_addr h)) in *.
  assert (forall i, 0 <= i <= h_len h ->
            0 <= occurrences (slice (h_bytes h) 0 i) n <= i) as Hocc.
  { intros i Hi. pose proof (occurrences_range (slice (h_bytes h) 0 i) n) as R.
    unfold blen in R. rewrite slice_length in R by (unfold h_len in *; lia). lia. }
  destruct (Z.ltb_spec off (h_len h)) as [Hlt|Hge].
  2:{ eapply returns_bind.
      - apply count_char_exact; [exact Hp|]. rewrite h_upto_len by lia. exact H64.
      - intros result ->. rewrite Z.leb_refl. cbn [returns].
        unfold h_upto, h_len, blen. cbn [h_bytes]. rewrite Nat2Z.id.
        now rewrite firstn_all. }
  eapply returns_bind.
  { apply count_char_exact; [exact Hp|]. rewrite h_upto_len by lia. lia. }
  intros result ->.
  replace (h_len h <=? off) with false by (symmetry; apply Z.leb_gt; lia).
  change (h_bytes (h_upto h off)) with (slice (h_bytes h) 0 off).
  eapply returns_and_then.
  { apply for_loop_total with
      (Inv := fun s : Z * Z =>
                0 <= fst s <= h_len h /\
                snd s = occurrences (slice (h_bytes h) 0 (fst s)) n)
      (Post := fun _ : Z => False) (measure := fun s => h_len h - fst s).
    - intros s [Hi _]. lia.
    - intros [i c] [Hi Hc] Hcond. cbn [fst snd] in *. apply Z.leb_le in Hcond.
      unfold NEON.vld1q_u8.
      rewrite read_bytes_in by (unfold h_len in *; lia). cbn [bind returns].
      cbn [fst snd]. split; [|lia]. split; [lia|].
      destruct (neon_count_block (h_bytes h) n i ltac:(lia) ltac:(unfold h_len in *; lia))
        as (Hlo & Hhi & Hsum).
      cbv zeta in Hlo, Hhi, Hsum.
      pose proof (Hocc i ltac:(lia)) as Hc0. rewrite <- Hc in Hc0.
      rewrite prefix_extend by lia. rewrite occurrences_app, <- Hsum, <- Hc.
      match type of Hlo with 0 <= ?x <= 8 => set (lo := x) in * end.
      match type of Hhi with 0 <= ?x <= 8 => set (hi := x) in * end.
      clearbody lo hi.
      rewrite (add64_small c lo) by lia. rewrite add64_small by lia. lia.
    - cbn [fst snd]. split; [lia|reflexivity].
    - apply h_len_fuel. cbn. lia. }
  { cbn. contradiction. }
  intros [i c] [[Hi Hc] _]. cbn [fst snd] in *.
  eapply returns_bind.
  { apply count_char_exact; [exact Hp|]. rewrite h_from_len by lia. lia. }
  intros tail ->. cbn [returns h_from h_bytes].
  pose proof (Hocc i Hi) as Hc0. rewrite <- Hc in Hc0.
  pose proof (occurrences_range (skipn (Z.to_nat i) (h_bytes h)) n) as Rt.
  unfold blen in Rt. rewrite length_skipn in Rt.
  rewrite add64_small by (unfold h_len, blen in *; lia).
  rewrite (occurrences_split (h_bytes h) i n) by lia. now rewrite Hc.
Qed.

(** X19: for a byte that converts without sign extension and a length that
    fits [size_t], [strzl_neon_count_char] returns the number of indices
    holding the byte, wherever the haystack starts relative to the 16-byte
    boundaries. *)
Theorem neon_count_char_counts_occurrences (char_signed : bool)
    (h : strzl_haystack_t) (c : byte) :
  plain_char char_signed c -> h_len h < 2 ^ 64 ->
  strzl_neon_count_char char_signed h c = Ret (occurrences (h_bytes h) c).
Proof.
  intros Hp H64.
  destruct (returns_ret _ _ (neon_count_char_exact char_signed h c Hp H64)) as (k & E & ->).
  exact E.
Qed.

Lemma neon_count_char_counts_occurrences_witness :
  (plain_char false " "%byte /\ h_len (mk_haystack 4101 pangram) < 2 ^ 64) /\
  strzl_neon_count_char false (mk_haystack 4101 pangram) " "%byte
  = Ret (occurrences (h_bytes (mk_haystack 4101 pangram)) " "%byte).
Proof.
  assert (plain_char false " "%byte) as Hp by (left; reflexivity).
  assert (h_len (mk_haystack 4101 pangram) < 2 ^ 64) as H64 by (vm_compute; reflexivity).
  split; [auto|].
  exact (neon_count_char_counts_occurrences false (mk_haystack 4101 pangram) " "%byte Hp H64).
Defined.

(** X20: for a byte that converts without sign extension and a length that
    fits [size_t], the NEON counter and the scalar counter return the same
    count. *)
Theorem neon_count_agrees_with_scalar (char_signed : bool) (h : strzl_haystack_t)
    (c : byte) :
  plain_char char_signed c -> h_len h < 2 ^ 64 ->
  strzl_neon_count_char char_signed h c = strzl_naive_count_char char_signed h c.
Proof.
  intros Hp H64.
  destruct (returns_ret _ _ (neon_count_char_exact char_signed h c Hp H64)) as (k & E & ->).
  destruct (returns_ret _ _ (count_char_exact char_signed h c Hp H64)) as (k' & E' & ->).
  congruence.
Qed.

Lemma neon_count_agrees_with_scalar_witness :
  (plain_char true "o"%byte /\ h_len (mk_haystack 4099 pangram) < 2 ^ 64) /\
  strzl_neon_count_char true (mk_haystack 4099 pangram) "o"%byte
  = strzl_naive_count_char true (mk_haystack 4099 pangram) "o"%byte.
Proof.
  assert (plain_char true "o"%byte) as Hp by (right; vm_compute; reflexivity).
  assert (h_len (mk_haystack 4099 pangram) < 2 ^ 64) as H64 by (vm_compute; reflexivity).
  split; [auto|].
  exact (neon_count_agrees_with_scalar true (mk_haystack 4099 pangram) "o"%byte Hp H64).
Defined.
(** ** How searches compose *)

Lemma first_occurrence_as_within hb nb r :
  first_occurrence hb nb (blen hb - blen nb) r ->
  first_occurrence_within hb nb (blen hb - blen nb) r.
Proof. intros H. exact H. Qed.

(** The scalar search, exactly: the first occurrence among the indices it
    visits, or the length. *)
Lemma find_substr_within sgn h n :
  needle_ok n ->
  (n_len n <= 4 -> Forall (plain_char sgn) (n_bytes n)) ->
  returns (strzl_naive_find_substr sgn h n)
          (first_occurrence_within (h_bytes h) (n_bytes n) (scalar_limit h n)).
Proof.
  intros Hok Hplain. unfold scalar_limit.
  destruct (Z.leb_spec (n_len n) 4) as [H4|H5].
  - eapply returns_weaken; [apply find_substr_first; eassumption|].
    intros r. replace (n_len n <=? 4) with true by (symmetry; apply Z.leb_le; lia).
    rewrite !Z.sub_0_r. apply first_occurrence_as_within.
  - apply find_long_within; [lia|exact Hok].
Qed.

Lemma first_occurrence_within_unique hb nb limit r1 r2 :
  limit < blen hb ->
  first_occurrence_within hb nb limit r1 ->
  first_occurrence_within hb nb limit r2 ->
  r1 = r2.
Proof.
  intros Hlim [(Hr1 & Occ1 & Fst1)|(-> & None1)] [(Hr2 & Occ2 & Fst2)|(-> & None2)].
  - destruct (Z.lt_trichotomy r1 r2) as [L|[E|G]]; [|exact E|].
    + exfalso. apply (Fst2 r1); [lia|exact Occ1].
    + exfalso. apply (Fst1 r2); [lia|exact Occ2].
  - exfalso. apply (None2 r1); [lia|exact Occ1].
  - exfalso. apply (None1 r2); [lia|exact Occ2].
  - reflexivity.
Qed.

(** X21: the result of [strzl_naive_find_substr] does not depend on where
    the haystack lies in memory: the same bytes at two addresses, however
    aligned, give the same index (needles of up to four bytes converting
    without sign extension). *)
Theorem find_substr_ignores_alignment (char_signed : bool) (addr1 addr2 : Z)
    (hb : list byte) (n : strzl_needle_t) :
  needle_ok n ->
  (n_len n <= 4 -> Forall (plain_char char_signed) (n_bytes n)) ->
  strzl_naive_find_substr char_signed (mk_haystack addr1 hb) n =
  strzl_naive_find_substr char_signed (mk_haystack addr2 hb) n.
Proof.
  intros Hok Hplain.
  destruct (returns_ret _ _ (find_substr_within char_signed (mk_haystack addr1 hb) n
                               Hok Hplain)) as (r1 & E1 & F1).
  destruct (returns_ret _ _ (find_substr_within char_signed (mk_haystack addr2 hb) n
                               Hok Hplain)) as (r2 & E2 & F2).
  rewrite E1, E2. f_equal.
  change (scalar_limit (mk_haystack addr2 hb) n)
    with (scalar_limit (mk_haystack addr1 hb) n) in F2.
  cbn [h_bytes] in F1, F2.
  destruct (Z.lt_ge_cases (scalar_limit (mk_haystack addr1 hb) n) (blen hb)) as [Hlim|Hbig].
  - exact (first_occurrence_within_unique _ _ _ _ _ Hlim F1 F2).
  - (* only the empty needle in the empty haystack reaches the length *)
    assert (n_len n = 0) as Hn0.
    { unfold scalar_limit, h_len in Hbig. cbn [h_bytes] in Hbig.
      destruct Hok as (Hao & _ & _). pose proof (blen_nonneg (n_bytes n)).
      unfold n_len in *. destruct (blen (n_bytes n) <=? 4); lia. }
    unfold strzl_naive_find_substr in E1, E2. rewrite Hn0 in E1, E2.
    pose proof (blen_nonneg hb) as Hb.
    replace (h_len (mk_haystack addr1 hb) <? 0) with false in E1
      by (symmetry; apply Z.ltb_ge; exact Hb).
    replace (h_len (mk_haystack addr2 hb) <? 0) with false in E2
      by (symmetry; apply Z.ltb_ge; exact Hb).
    cbn in E1, E2. congruence.
Qed.

Lemma find_substr_ignores_alignment_witness :
  (needle_ok (mk_needle need 0) /\
   (n_len (mk_needle need 0) <= 4 -> Forall (plain_char true) (n_bytes (mk_needle need 0)))) /\
  strzl_naive_find_substr true (mk_haystack 4096 hay38) (mk_needle need 0) =
  strzl_naive_find_substr true (mk_haystack 4101 hay38) (mk_needle need 0).
Proof.
  assert (needle_ok (mk_needle need 0)) as Hok by (unfold needle_ok; cbn; lia).
  assert (n_len (mk_needle need 0) <= 4 ->
          Forall (plain_char true) (n_bytes (mk_needle need 0))) as Hplain
    by (intros _; repeat constructor; right; vm_compute; reflexivity).
  split; [auto|].
  exact (find_substr_ignores_alignment true 4096 4101 hay38 (mk_needle need 0) Hok Hplain).
Defined.

(** X22: searching a haystack for one of its own ranges [H[i .. i+k)]
    (with [anomaly_offset = 0]) never misses: the search returns an index
    [r <= i] at which the same [k] bytes stand. *)
Theorem own_range_is_found (char_signed : bool) (h : strzl_haystack_t) (i k : Z) :
  0 <= i -> 0 <= k < 2 ^ 64 -> i + k <= h_len h ->
  (k <= 4 -> Forall (plain_char char_signed) (slice (h_bytes h) i k)) ->
  returns (strzl_naive_find_substr char_signed h (mk_needle (slice (h_bytes h) i k) 0))
          (fun r => 0 <= r <= i /\ slice (h_bytes h) r k = slice (h_bytes h) i k).
Proof.
  intros Hi Hk Hfit Hplain. unfold h_len in Hfit.
  assert (blen (slice (h_bytes h) i k) = k) as Hlen by (apply blen_slice; lia).
  assert (needle_ok (mk_needle (slice (h_bytes h) i k) 0)) as Hok.
  { unfold needle_ok, n_len. cbn [n_bytes anomaly_offset]. rewrite Hlen. lia. }
  eapply returns_weaken.
  { apply find_substr_first; [exact Hok|].
    unfold n_len. cbn [n_bytes]. rewrite Hlen. exact Hplain. }
  intros r. cbv beta. unfold n_len, h_len. cbn [n_bytes anomaly_offset]. rewrite Hlen.
  assert (occurs_at (h_bytes h) (slice (h_bytes h) i k) i) as Occ
    by (unfold occurs_at; now rewrite Hlen).
  intros [(Hr & Occ' & Fst)|(-> & None)].
  - split.
    + destruct (Z.le_gt_cases r i) as [L|G]; [lia|].
      exfalso. apply (Fst i); [lia|exact Occ].
    + unfold occurs_at in Occ'. now rewrite Hlen in Occ'.
  - exfalso. apply (None i); [destruct (k <=? 4); lia|exact Occ].
Qed.

Lemma own_range_is_found_witness :
  (0 <= 7 /\ 0 <= 4 < 2 ^ 64 /\ 7 + 4 <= h_len (mk_haystack 4099 abracadabra) /\
   (4 <= 4 -> Forall (plain_char true) (slice (h_bytes (mk_haystack 4099 abracadabra)) 7 4)))
  /\
  returns (strzl_naive_find_substr true (mk_haystack 4099 abracadabra)
             (mk_needle (slice (h_bytes (mk_haystack 4099 abracadabra)) 7 4) 0))
          (fun r => 0 <= r <= 7 /\
                    slice (h_bytes (mk_haystack 4099 abracadabra)) r 4 =
                    slice (h_bytes (mk_haystack 4099 abracadabra)) 7 4).
Proof.
  assert (0 <= 7) as Hi by lia.
  assert (0 <= 4 < 2 ^ 64) as Hk by lia.
  assert (7 + 4 <= h_len (mk_haystack 4099 abracadabra)) as Hfit
    by (vm_compute; discriminate).
  assert (4 <= 4 -> Forall (plain_char true)
                      (slice (h_bytes (mk_haystack 4099 abracadabra)) 7 4)) as Hplain
    by (intros _; repeat constructor; right; vm_compute; reflexivity).
  split; [auto|].
  exact (own_range_is_found true (mk_haystack 4099 abracadabra) 7 4 Hi Hk Hfit Hplain).
Defined.

Lemma slice_app_left (l1 l2 : list byte) j k :
  0 <= j -> 0 <= k -> j + k <= blen l1 -> slice (l1 ++ l2) j k = slice l1 j k.
Proof.
  intros Hj Hk Hfit. unfold slice, blen in *.
  rewrite skipn_app, firstn_app, length_skipn.
  replace (Z.to_nat k - (length l1 - Z.to_nat j))%nat with 0%nat by lia.
  cbn [firstn]. apply app_nil_r.
Qed.

Lemma occurs_at_app_left hb extra nb j :
  0 <= j -> j + blen nb <= blen hb ->
  (occurs_at (hb ++ extra) nb j <-> occurs_at hb nb j).
Proof.
  intros Hj Hfit. unfold occurs_at.
  rewrite slice_app_left by (pose proof (blen_nonneg nb); lia). reflexivity.
Qed.

(** X23: a match is stable under appending: when
    [strzl_naive_find_substr] returns an index below the length, it
    returns the same index on the haystack extended by any further bytes
    (needles of up to four bytes converting without sign extension). *)
Theorem hit_survives_append (char_signed : bool) (h : strzl_haystack_t)
    (extra : list byte) (n : strzl_needle_t) (r : Z) :
  needle_ok n ->
  (n_len n <= 4 -> Forall (plain_char char_signed) (n_bytes n)) ->
  strzl_naive_find_substr char_signed h n = Ret r -> r < h_len h ->
  strzl_naive_find_substr char_signed (mk_haystack (h_addr h) (h_bytes h ++ extra)) n
  = Ret r.
Proof.
  intros Hok Hplain Hfind Hhit.
  pose proof (find_substr_within char_signed h n Hok Hplain) as W.
  rewrite Hfind in W. cbn [returns] in W.
  destruct (returns_ret _ _ (find_substr_within char_signed
              (mk_haystack (h_addr h) (h_bytes h ++ extra)) n Hok Hplain))
    as (r' & E' & W').
  rewrite E'. f_equal. cbn [h_bytes] in W'.
  pose proof (blen_nonneg extra) as He. pose proof (blen_nonneg (n_bytes n)) as Hn.
  assert (scalar_limit (mk_haystack (h_addr h) (h_bytes h ++ extra)) n
          = scalar_limit h n + blen extra) as Hlim.
  { unfold scalar_limit, h_len, blen. cbn [h_bytes]. rewrite length_app. lia. }
  assert (scalar_limit h n <= blen (h_bytes h) - blen (n_bytes n)) as Hroom.
  { unfold scalar_limit, h_len, n_len. destruct Hok as (Hao & _ & _).
    destruct (blen (n_bytes n) <=? 4); lia. }
  rewrite Hlim in W'. unfold h_len in Hhit.
  destruct W as [(Hr & Occ & Fst)|(-> & _)]; [|lia].
  assert (occurs_at (h_bytes h ++ extra) (n_bytes n) r) as Occ_ext
    by (apply occurs_at_app_left; [lia|lia|exact Occ]).
  destruct W' as [(Hr' & Occ' & Fst')|(-> & None')].
  - destruct (Z.lt_trichotomy r' r) as [L|[E|G]]; [|exact E|].
    + exfalso. apply (Fst r'); [lia|].
      apply (occurs_at_app_left (h_bytes h) extra); [lia|lia|exact Occ'].
    + exfalso. apply (Fst' r); [lia|exact Occ_ext].
  - exfalso. apply (None' r); [lia|exact Occ_ext].
Qed.

Lemma hit_survives_append_witness :
  (needle_ok (mk_needle cad 0) /\
   (n_len (mk_needle cad 0) <= 4 -> Forall (plain_char true) (n_bytes (mk_needle cad 0))) /\
   strzl_naive_find_substr true (mk_haystack 4099 abracadabra) (mk_needle cad 0) = Ret 4 /\
   4 < h_len (mk_haystack 4099 abracadabra)) /\
  strzl_naive_find_substr true
    (mk_haystack (h_addr (mk_haystack 4099 abracadabra))
                 (h_bytes (mk_haystack 4099 abracadabra) ++ banana))
    (mk_needle cad 0)
  = Ret 4.
Proof.
  assert (needle_ok (mk_needle cad 0)) as Hok by (unfold needle_ok; cbn; lia).
  assert (n_len (mk_needle cad 0) <= 4 ->
          Forall (plain_char true) (n_bytes (mk_needle cad 0))) as Hplain
    by (intros _; repeat constructor; right; vm_compute; reflexivity).
  assert (strzl_naive_find_substr true (mk_haystack 4099 abracadabra) (mk_needle cad 0)
          = Ret 4) as Hfind by (vm_compute; reflexivity).
  assert (4 < h_len (mk_haystack 4099 abracadabra)) as Hhit by (vm_compute; reflexivity).
  split; [auto|].
  exact (hit_survives_append true (mk_haystack 4099 abracadabra) banana (mk_needle cad 0) 4
           Hok Hplain Hfind Hhit).
Defined.

(** X24: resuming a search, for a needle of up to four bytes that converts
    without sign extension, or a longer needle of any bytes, with an
    anomaly offset within its bounds: on the rest of the haystack from
    index [k] on, [0 <= k <= H.length], [strzl_naive_find_substr] returns
    the distance from [k] to the next occurrence at or behind [k], or the
    length of the rest when the needle occurs at none of the indices from
    [k] to the limit of the scan, [H.length - N.length] less
    [anomaly_offset] from five bytes on. *)
Theorem search_resumes_at_next_occurrence (char_signed : bool)
    (h : strzl_haystack_t) (n : strzl_needle_t) (k : Z) :
  needle_ok n ->
  (n_len n <= 4 -> Forall (plain_char char_signed) (n_bytes n)) ->
  0 <= k <= h_len h ->
  returns (strzl_naive_find_substr char_signed (h_from h k) n)
          (fun r =>
             (0 <= r /\ k + r <= scalar_limit h n /\
              occurs_at (h_bytes h) (n_bytes n) (k + r) /\
              forall j, k <= j < k + r -> ~ occurs_at (h_bytes h) (n_bytes n) j) \/
             (r = h_len h - k /\
              forall j, k <= j <= scalar_limit h n ->
                        ~ occurs_at (h_bytes h) (n_bytes n) j)).
Proof.
  intros Hok Hplain Hk.
  eapply returns_weaken; [apply find_substr_within; eassumption|].
  intros r. cbv beta.
  assert (scalar_limit (h_from h k) n = scalar_limit h n - k) as Hlim.
  { unfold scalar_limit. rewrite h_from_len by exact Hk. lia. }
  rewrite Hlim. change (h_bytes (h_from h k)) with (skipn (Z.to_nat k) (h_bytes h)).
  intros [(Hr & Occ & Fst)|(Hmiss & None)].
  - left. split; [lia|]. split; [lia|]. split.
    + apply occurs_from; [lia|lia|exact Occ].
    + intros j Hj Hocc. apply (Fst (j - k)); [lia|].
      apply occurs_from; [lia|lia|]. now replace (k + (j - k)) with j by lia.
  - right. split.
    + rewrite Hmiss. fold (h_len (h_from h k)). now apply h_from_len.
    + intros j Hj Hocc. apply (None (j - k)); [lia|].
      apply occurs_from; [lia|lia|]. now replace (k + (j - k)) with j by lia.
Qed.

Lemma search_resumes_at_next_occurrence_witness :
  (needle_ok (mk_needle (bytes_of [97; 98; 114; 97]) 0) /\
   (n_len (mk_needle (bytes_of [97; 98; 114; 97]) 0) <= 4 ->
    Forall (plain_char true) (n_bytes (mk_needle (bytes_of [97; 98; 114; 97]) 0))) /\
   0 <= 1 <= h_len (mk_haystack 4099 abracadabra)) /\
  returns (strzl_naive_find_substr true (h_from (mk_haystack 4099 abracadabra) 1)
             (mk_needle (bytes_of [97; 98; 114; 97]) 0))
          (fun r =>
             (0 <= r /\
              1 + r <= scalar_limit (mk_haystack 4099 abracadabra)
                         (mk_needle (bytes_of [97; 98; 114; 97]) 0) /\
              occurs_at (h_bytes (mk_haystack 4099 abracadabra))
                (n_bytes (mk_needle (bytes_of [97; 98; 114; 97]) 0)) (1 + r) /\
              forall j, 1 <= j < 1 + r ->
                ~ occurs_at (h_bytes (mk_haystack 4099 abracadabra))
                    (n_bytes (mk_needle (bytes_of [97; 98; 114; 97]) 0)) j) \/
             (r = h_len (mk_haystack 4099 abracadabra) - 1 /\
              forall j, 1 <= j <= scalar_limit (mk_haystack 4099 abracadabra)
                                    (mk_needle (bytes_of [97; 98; 114; 97]) 0) ->
                ~ occurs_at (h_bytes (mk_haystack 4099 abracadabra))
                    (n_bytes (mk_needle (bytes_of [97; 98; 114; 97]) 0)) j)).
Proof.
  assert (needle_ok (mk_needle (bytes_of [97; 98; 114; 97]) 0)) as Hok
    by (unfold needle_ok; cbn; lia).
  assert (n_len (mk_needle (bytes_of [97; 98; 114; 97]) 0) <= 4 ->
          Forall (plain_char true) (n_bytes (mk_needle (bytes_of [97; 98; 114; 97]) 0)))
    as Hplain by (intros _; repeat constructor; right; vm_compute; reflexivity).
  assert (0 <= 1 <= h_len (mk_haystack 4099 abracadabra)) as Hk
    by (vm_compute; split; discriminate).
  split; [auto|].
  exact (search_resumes_at_next_occurrence true (mk_haystack 4099 abracadabra)
           (mk_needle (bytes_of [97; 98; 114; 97]) 0) 1 Hok Hplain Hk).
Defined.

(** X25: counting distributes over a split of the haystack: for a byte
    that converts without sign extension the count of the whole is the
    sum of the counts of the first [k] bytes and of the rest. *)
Theorem count_char_splits (char_signed : bool) (h : strzl_haystack_t) (c : byte)
    (k : Z) :
  plain_char char_signed c -> h_len h < 2 ^ 64 -> 0 <= k <= h_len h ->
  exists whole head rest,
    strzl_naive_count_char char_signed h c = Ret whole /\
    strzl_naive_count_char char_signed (h_upto h k) c = Ret head /\
    strzl_naive_count_char char_signed (h_from h k) c = Ret rest /\
    whole = head + rest.
Proof.
  intros Hp H64 Hk.
  destruct (returns_ret _ _ (count_char_exact char_signed h c Hp H64)) as (w & Ew & ->).
  destruct (returns_ret _ _ (count_char_exact char_signed (h_upto h k) c Hp
              ltac:(rewrite h_upto_len by exact Hk; lia))) as (a & Ea & ->).
  destruct (returns_ret _ _ (count_char_exact char_signed (h_from h k) c Hp
              ltac:(rewrite h_from_len by exact Hk; lia))) as (b & Eb & ->).
  exists (occurrences (h_bytes h) c), (occurrences (h_bytes (h_upto h k)) c),
    (occurrences (h_bytes (h_from h k)) c).
  split; [exact Ew|]. split; [exact Ea|]. split; [exact Eb|].
  apply occurrences_split. lia.
Qed.

Lemma count_char_splits_witness :
  (plain_char true "a"%byte /\ h_len (mk_haystack 4099 abracadabra) < 2 ^ 64 /\
   0 <= 5 <= h_len (mk_haystack 4099 abracadabra)) /\
  exists whole head rest,
    strzl_naive_count_char true (mk_haystack 4099 abracadabra) "a"%byte = Ret whole /\
    strzl_naive_count_char true (h_upto (mk_haystack 4099 abracadabra) 5) "a"%byte
    = Ret head /\
    strzl_naive_count_char true (h_from (mk_haystack 4099 abracadabra) 5) "a"%byte
    = Ret rest /\
    whole = head + rest.
Proof.
  assert (plain_char true "a"%byte) as Hp by (right; vm_compute; reflexivity).
  assert (h_len (mk_haystack 4099 abracadabra) < 2 ^ 64) as H64 by (vm_compute; reflexivity).
  assert (0 <= 5 <= h_len (mk_haystack 4099 abracadabra)) as Hk
    by (vm_compute; split; discriminate).
  split; [auto|].
  exact (count_char_splits true (mk_haystack 4099 abracadabra) "a"%byte 5 Hp H64 Hk).
Defined.
(** ** Haystacks shorter than one 8-byte slice

    The 8-byte passes are the only place where the needle is converted to
    [uint64_t]; on fewer than 8 bytes they never run, and the signedness
    of [char] plays no part. *)

Lemma for_loop_inv {S R : Type} (cond : S -> bool) (body : S -> res (flow S R))
    (Inv : S -> Prop) :
  (forall s s', Inv s -> cond s = true -> body s = Ret (Next s') -> Inv s') ->
  forall fuel s, Inv s ->
  match for_loop fuel cond body s with
  | Ret (Next s') => Inv s'
  | _ => True
  end.
Proof.
  intros Hstep. induction fuel as [|fuel IH]; intros s Hs; cbn [for_loop]; [exact I|].
  destruct (cond s) eqn:Hc; [|exact Hs].
  destruct (body s) as [[s'|r]| |] eqn:Hb; try exact I.
  apply IH. exact (Hstep s s' Hs Hc Hb).
Qed.

Lemma and_then_ext_on {S R : Type} (m : res (flow S R)) (P : S -> Prop)
    (k1 k2 : S -> res R) :
  match m with Ret (Next s) => P s | _ => True end ->
  (forall s, P s -> k1 s = k2 s) ->
  and_then m k1 = and_then m k2.
Proof. destruct m as [[s|r]| |]; cbn; auto. Qed.

Lemma skipped_slices {S R : Type} (h : strzl_haystack_t) (cond : S -> bool)
    (body : S -> res (flow S R)) (s : S) :
  cond s = false -> for_loop (loop_fuel h) cond body s = Ret (Next s).
Proof. intros Hc. unfold loop_fuel. cbn [for_loop]. now rewrite Hc. Qed.

Lemma find_char_short sgn h n :
  h_len h < 8 -> strzl_naive_find_char sgn h n = strzl_naive_find_char false h n.
Proof.
  intros Hshort. unfold strzl_naive_find_char. cbv zeta.
  apply and_then_ext_on with (P := fun i => 0 <= i).
  - apply for_loop_inv with (Inv := fun i => 0 <= i); [|lia].
    intros i i' Hi _. destruct (read_byte (h_bytes h) i); cbn [bind]; try discriminate.
    destruct (Byte.eqb a n); intros E; inversion E. lia.
  - intros i Hi.
    rewrite !skipped_slices by (apply Z.leb_gt; lia). reflexivity.
Qed.

Lemma find_2chars_short sgn h n :
  h_len h < 8 -> strzl_naive_find_2chars sgn h n = strzl_naive_find_2chars false h n.
Proof.
  intros Hshort. unfold strzl_naive_find_2chars. cbv zeta.
  destruct (read_byte n 0); cbn [bind]; try reflexivity.
  destruct (read_byte n 1); cbn [bind]; try reflexivity.
  rewrite !skipped_slices by (apply Z.leb_gt; lia). reflexivity.
Qed.

Lemma find_3chars_short sgn h n :
  h_len h < 8 -> strzl_naive_find_3chars sgn h n = strzl_naive_find_3chars false h n.
Proof.
  intros Hshort. unfold strzl_naive_find_3chars. cbv zeta.
  destruct (read_byte n 0); cbn [bind]; try reflexivity.
  destruct (read_byte n 1); cbn [bind]; try reflexivity.
  destruct (read_byte n 2); cbn [bind]; try reflexivity.
  rewrite !skipped_slices by (apply Z.leb_gt; lia). reflexivity.
Qed.

Lemma find_4chars_short sgn h n :
  h_len h < 8 -> strzl_naive_find_4chars sgn h n = strzl_naive_find_4chars false h n.
Proof.
  intros Hshort. unfold strzl_naive_find_4chars. cbv zeta.
  apply and_then_ext_on with (P := fun i => 0 <= i).
  - apply for_loop_inv with (Inv := fun i => 0 <= i); [|lia].
    intros i i' Hi _.
    destruct (same_char (h_bytes h) i n 0 &&& same_char (h_bytes h) i n 1
              &&& same_char (h_bytes h) i n 2 &&& same_char (h_bytes h) i n 3)
      as [[|]| |]; cbn [bind]; try discriminate.
    intros E; inversion E. lia.
  - intros i Hi.
    destruct (read_byte n 0); cbn [bind]; try reflexivity.
    destruct (read_byte n 1); cbn [bind]; try reflexivity.
    destruct (read_byte n 2); cbn [bind]; try reflexivity.
    destruct (read_byte n 3); cbn [bind]; try reflexivity.
    rewrite !skipped_slices by (apply Z.leb_gt; lia). reflexivity.
Qed.

Lemma find_substr_short sgn h n :
  h_len h < 8 -> strzl_naive_find_substr sgn h n = strzl_naive_find_substr false h n.
Proof.
  intros Hshort. unfold strzl_naive_find_substr.
  destruct (h_len h <? n_len n); [reflexivity|].
  destruct (n_len n =? 0); [reflexivity|].
  destruct (n_len n =? 1).
  { destruct (read_byte (n_bytes n) 0); cbn [bind]; try reflexivity.
    now apply find_char_short. }
  destruct (n_len n =? 2); [now apply find_2chars_short|].
  destruct (n_len n =? 3); [now apply find_3chars_short|].
  destruct (n_len n =? 4); [now apply find_4chars_short|].
  reflexivity.
Qed.

Lemma count_char_short sgn h n :
  h_len h < 8 -> strzl_naive_count_char sgn h n = strzl_naive_count_char false h n.
Proof.
  intros Hshort. unfold strzl_naive_count_char. cbv zeta.
  apply and_then_ext_on with (P := fun s : Z * Z => 0 <= fst s).
  - apply for_loop_inv with (Inv := fun s : Z * Z => 0 <= fst s); [|cbn; lia].
    intros [i k] s' Hi _. cbn [fst] in Hi.
    destruct (read_byte (h_bytes h) i); cbn [bind]; try discriminate.
    intros E; inversion E. cbn [fst]. lia.
  - intros s Hs.
    rewrite !skipped_slices by (apply Z.leb_gt; lia). reflexivity.
Qed.

(** X26: on a haystack of fewer than 8 bytes [strzl_naive_find_substr] is
    right for every byte value, also where [char] is signed: it returns
    the first index among those it scans at which the needle occurs, or
    the length when there is none. *)
Theorem short_haystack_search_is_exact (char_signed : bool) (h : strzl_haystack_t)
    (n : strzl_needle_t) :
  needle_ok n -> h_len h < 8 ->
  returns (strzl_naive_find_substr char_signed h n)
          (first_occurrence_within (h_bytes h) (n_bytes n) (scalar_limit h n)).
Proof.
  intros Hok Hshort. rewrite find_substr_short by exact Hshort.
  apply find_substr_within; [exact Hok|]. intros _. apply plain_unsigned.
Qed.

Lemma short_haystack_search_is_exact_witness :
  (needle_ok (mk_needle (bytes_of [200; 255]) 0) /\
   h_len (mk_haystack 4096 (bytes_of [255; 200; 255; 200; 255; 7])) < 8) /\
  returns (strzl_naive_find_substr true
             (mk_haystack 4096 (bytes_of [255; 200; 255; 200; 255; 7]))
             (mk_needle (bytes_of [200; 255]) 0))
          (first_occurrence_within
             (h_bytes (mk_haystack 4096 (bytes_of [255; 200; 255; 200; 255; 7])))
             (n_bytes (mk_needle (bytes_of [200; 255]) 0))
             (scalar_limit (mk_haystack 4096 (bytes_of [255; 200; 255; 200; 255; 7]))
                (mk_needle (bytes_of [200; 255]) 0))).
Proof.
  assert (needle_ok (mk_needle (bytes_of [200; 255]) 0)) as Hok
    by (unfold needle_ok; cbn; lia).
  assert (h_len (mk_haystack 4096 (bytes_of [255; 200; 255; 200; 255; 7])) < 8) as Hshort
    by (vm_compute; reflexivity).
  split; [auto|].
  exact (short_haystack_search_is_exact true
           (mk_haystack 4096 (bytes_of [255; 200; 255; 200; 255; 7]))
           (mk_needle (bytes_of [200; 255]) 0) Hok Hshort).
Defined.

(** X27: on a haystack of fewer than 8 bytes [strzl_naive_count_char]
    returns the number of indices holding the byte, for every byte value
    and also where [char] is signed. *)
Theorem short_haystack_count_is_exact (char_signed : bool) (h : strzl_haystack_t)
    (c : byte) :
  h_len h < 8 ->
  strzl_naive_count_char char_signed h c = Ret (occurrences (h_bytes h) c).
Proof.
  intros Hshort. rewrite count_char_short by exact Hshort.
  destruct (returns_ret _ _ (count_char_exact false h c ltac:(left; reflexivity)
                               ltac:(lia))) as (k & E & ->).
  exact E.
Qed.

Lemma short_haystack_count_is_exact_witness :
  h_len (mk_haystack 4099 (bytes_of [128; 1; 128; 128; 2; 128; 128])) < 8 /\
  strzl_naive_count_char true
    (mk_haystack 4099 (bytes_of [128; 1; 128; 128; 2; 128; 128])) (byte_of_Z 128)
  = Ret (occurrences (h_bytes (mk_haystack 4099 (bytes_of [128; 1; 128; 128; 2; 128; 128])))
           (byte_of_Z 128)).
Proof.
  assert (h_len (mk_haystack 4099 (bytes_of [128; 1; 128; 128; 2; 128; 128])) < 8)
    as Hshort by (vm_compute; reflexivity).
  split; [exact Hshort|].
  exact (short_haystack_count_is_exact true _ (byte_of_Z 128) Hshort).
Defined.
(** ** [string_view::null_terminated_length] *)

Lemma null_terminated_scan_finds mem : forall fuel p k,
  0 <= p -> 0 <= k -> p + k < blen mem ->
  at_ mem (p + k) = x00 ->
  (forall j, 0 <= j < k -> at_ mem (p + j) <> x00) ->
  (Z.to_nat k < fuel)%nat ->
  View.null_terminated_scan fuel mem p = Ret (p + k).
Proof.
  induction fuel as [|fuel IH]; intros p k Hp Hk Hin Hzero Hnon Hfuel; [lia|].
  cbn [View.null_terminated_scan]. rewrite read_byte_at by lia. cbn [bind].
  destruct (Z.eq_dec k 0) as [->|Hk0].
  - rewrite Z.add_0_r in *. rewrite Hzero. reflexivity.
  - pose proof (Hnon 0 ltac:(lia)) as H0. rewrite Z.add_0_r in H0.
    destruct (Byte.eqb (at_ mem p) x00) eqn:E;
      [apply Byte.byte_dec_bl in E; contradiction|].
    replace (p + k) with (p + 1 + (k - 1)) by lia.
    apply IH; try lia.
    + replace (p + 1 + (k - 1)) with (p + k) by lia. exact Hzero.
    + intros j Hj. replace (p + 1 + j) with (p + (j + 1)) by lia. apply Hnon. lia.
Qed.

Lemma null_terminated_scan_unterminated mem : forall fuel p,
  0 <= p <= blen mem ->
  (forall a, p <= a < blen mem -> at_ mem a <> x00) ->
  (Z.to_nat (blen mem - p) < fuel)%nat ->
  View.null_terminated_scan fuel mem p = BadRead.
Proof.
  induction fuel as [|fuel IH]; intros p Hp Hnon Hfuel; [lia|].
  cbn [View.null_terminated_scan].
  destruct (Z.eq_dec p (blen mem)) as [->|Hlt].
  - unfold read_byte. rewrite Z.ltb_irrefl, andb_false_r. reflexivity.
  - rewrite read_byte_at by lia. cbn [bind].
    destruct (Byte.eqb (at_ mem p) x00) eqn:E.
    + apply Byte.byte_dec_bl in E. exfalso. apply (Hnon p); [lia|exact E].
    + apply IH; [lia| |lia]. intros a Ha. apply Hnon. lia.
Qed.

Lemma first_zero_or_none mem : forall n p,
  0 <= p -> p + Z.of_nat n = blen mem ->
  (exists k, 0 <= k /\ p + k < blen mem /\ at_ mem (p + k) = x00 /\
             forall j, 0 <= j < k -> at_ mem (p + j) <> x00) \/
  (forall a, p <= a < blen mem -> at_ mem a <> x00).
Proof.
  induction n as [|n IH]; intros p Hp Hn.
  - right. intros a Ha. lia.
  - destruct (byte_eq_dec (at_ mem p) x00) as [E|N].
    + left. exists 0. rewrite Z.add_0_r. repeat split; try lia. exact E.
    + destruct (IH (p + 1) ltac:(lia) ltac:(lia)) as [(k & Hk & Hin & Hz & Hnon)|Hnone].
      * left. exists (k + 1). replace (p + (k + 1)) with (p + 1 + k) by lia.
        repeat split; try lia; [exact Hz|].
        intros j Hj. destruct (Z.eq_dec j 0) as [->|Hj0].
        -- now rewrite Z.add_0_r.
        -- replace (p + j) with (p + 1 + (j - 1)) by lia. apply Hnon. lia.
      * right. intros a Ha. destruct (Z.eq_dec a p) as [->|Hne]; [exact N|].
        apply Hnone. lia.
Qed.

(** X28: the view built from the C string at [s] starts at [s] and ends
    right before the first zero byte at or behind [s]: its length is the
    distance to that byte and no character of the view is zero.  On a
    buffer with no zero byte from [s] on, the scan of
    [null_terminated_length] runs off the end of the buffer. *)
Theorem c_string_view_ends_at_first_zero (mem : list byte) (s : Z) :
  0 <= s <= blen mem ->
  (exists k, 0 <= k /\ s + k < blen mem /\ at_ mem (s + k) = x00 /\
             (forall j, 0 <= j < k -> at_ mem (s + j) <> x00) /\
             View.of_c_string mem s = Ret (View.mk_view s k)) \/
  ((forall a, s <= a < blen mem -> at_ mem a <> x00) /\
   View.of_c_string mem s = BadRead).
Proof.
  intros Hs. unfold View.of_c_string, View.null_terminated_length.
  destruct (first_zero_or_none mem (Z.to_nat (blen mem - s)) s ltac:(lia) ltac:(lia))
    as [(k & Hk & Hin & Hzero & Hnon)|Hnone].
  - left. exists k. repeat split; try assumption.
    rewrite (null_terminated_scan_finds mem _ s k) by (unfold blen in *; lia || assumption).
    cbn [bind]. do 2 f_equal. lia.
  - right. split; [exact Hnone|].
    rewrite null_terminated_scan_unterminated by (unfold blen in *; lia || assumption).
    reflexivity.
Qed.

Lemma c_string_view_ends_at_first_zero_witness :
  0 <= 1 <= blen hello_z /\
  ((exists k, 0 <= k /\ 1 + k < blen hello_z /\ at_ hello_z (1 + k) = x00 /\
              (forall j, 0 <= j < k -> at_ hello_z (1 + j) <> x00) /\
              View.of_c_string hello_z 1 = Ret (View.mk_view 1 k)) \/
   ((forall a, 1 <= a < blen hello_z -> at_ hello_z a <> x00) /\
    View.of_c_string hello_z 1 = BadRead)).
Proof.
  assert (0 <= 1 <= blen hello_z) as Hs by (vm_compute; split; discriminate).
  split; [exact Hs|].
  exact (c_string_view_ends_at_first_zero hello_z 1 Hs).
Defined.

(** ** [range_matches] *)

Lemma addresses_cons a n : addresses a (Datatypes.S n) = a :: addresses (a + 1) n.
Proof.
  unfold addresses. cbn [seq map]. change (Z.of_nat 0) with 0. rewrite Z.add_0_r. f_equal.
  rewrite <- seq_shift, map_map. apply map_ext. intros k. lia.
Qed.

Lemma filter_addresses_skip (hit : Z -> bool) : forall n a m,
  (m <= n)%nat ->
  (forall x, a <= x < a + Z.of_nat m -> hit x = false) ->
  filter hit (addresses a n) = filter hit (addresses (a + Z.of_nat m) (n - m)).
Proof.
  induction n as [|n IH]; intros a m Hm Hnone.
  - replace m with 0%nat by lia. reflexivity.
  - destruct m as [|m].
    + cbn [Z.of_nat]. rewrite Z.add_0_r. reflexivity.
    + rewrite addresses_cons. cbn [filter]. rewrite (Hnone a) by lia.
      rewrite (IH (a + 1) m) by (try lia; intros x Hx; apply Hnone; lia).
      do 2 f_equal; lia.
Qed.

Lemma filter_addresses_none (hit : Z -> bool) n a :
  (forall x, a <= x < a + Z.of_nat n -> hit x = false) ->
  filter hit (addresses a n) = [].
Proof.
  intros Hnone. rewrite (filter_addresses_skip hit n a n) by (auto; lia).
  now rewrite Nat.sub_diag.
Qed.

Section RangeMatchesProofs.

Variable hit : Z -> bool.
Variable limit : Z.
Context {M : View.matcher}.

Hypothesis contract : finds_first_hit hit limit M.
Hypothesis needle_nonempty : 1 <= View.needle_length.

(** What [begin()] and [operator++] leave in [remaining_] when the
    matcher is run on the view [[a, e)]: the view from the first match
    on, or the null view when there is none. *)
Lemma next_match a e :
  0 <= a <= e -> e <= limit -> e - a < 2 ^ 64 ->
  let v := View.mk_view a (e - a) in
  let p := View.matcher_call v in
  let it := if negb (p =? View.npos) then View.substr v p else View.null_view in
  (it = View.null_view /\ matches_from hit View.needle_length a e = []) \/
  (exists a', a <= a' /\ a' + View.needle_length <= e /\ hit a' = true /\
              it = View.mk_view a' (e - a') /\
              matches_from hit View.needle_length a e
              = a' :: matches_from hit View.needle_length (a' + 1) e).
Proof.
  intros Ha He H64. cbv zeta.
  destruct (contract (View.mk_view a (e - a))) as [(Hp & Hnone)|(Hp0 & Hfit & Hhit & Hnone)];
    cbn [View.start_ View.length_] in *; try lia.
  - left. rewrite Hp, Z.eqb_refl. cbn [negb]. split; [reflexivity|].
    apply filter_addresses_none. intros x Hx. apply Hnone. lia.
  - right. set (p := View.matcher_call (View.mk_view a (e - a))) in *.
    assert (p <> View.npos) as Hne by (unfold View.npos, wrap64; cbn; lia).
    apply Z.eqb_neq in Hne. rewrite Hne. cbn [negb].
    exists (a + p). repeat split; try lia; try exact Hhit.
    + unfold View.substr. cbn [View.start_ View.length_]. f_equal.
      unfold wrap64. rewrite Z.mod_small by lia. lia.
    + unfold matches_from.
      rewrite (filter_addresses_skip hit _ a (Z.to_nat p))
        by (try lia; intros x Hx; apply Hnone; lia).
      replace (Z.to_nat (e - View.needle_length + 1 - a) - Z.to_nat p)%nat
        with (Datatypes.S (Z.to_nat (e - View.needle_length + 1 - (a + p + 1)))) by lia.
      rewrite addresses_cons. rewrite Z2Nat.id by lia. cbn [filter]. rewrite Hhit.
      reflexivity.
Qed.

Lemma visit_from_match e : forall fuel a,
  0 <= a -> a + View.needle_length <= e -> e <= limit -> e - a < 2 ^ 64 ->
  hit a = true -> (Z.to_nat (e - a) < fuel)%nat ->
  exists l,
    View.visit fuel (View.mk_view a (e - a)) = View.Done l /\
    map View.start_ l = a :: matches_from hit View.needle_length (a + 1) e /\
    Forall (fun it => View.start_ it + View.length_ it = e /\
                      View.needle_length <= View.length_ it) l.
Proof.
  induction fuel as [|fuel IH]; intros a Ha Hfit He H64 Hhit Hfuel; [lia|].
  cbn [View.visit]. unfold View.iterator_ne, View.end_, View.size, View.null_view.
  cbn [View.length_].
  replace (e - a =? 0) with false by (symmetry; apply Z.eqb_neq; lia). cbn [negb].
  unfold View.increment, View.remove_prefix, View.size. cbn [View.length_ View.start_].
  replace (1 <=? e - a) with true by (symmetry; apply Z.leb_le; lia).
  replace (wrap64 (e - a - 1)) with (e - (a + 1))
    by (unfold wrap64; rewrite Z.mod_small by lia; lia).
  destruct (next_match (a + 1) e ltac:(lia) He ltac:(lia))
    as [(-> & Hnil)|(a' & Ha' & Hfit' & Hhit' & -> & Hcons)].
  - destruct fuel as [|fuel]; [lia|]. cbn [View.visit].
    unfold View.iterator_ne, View.end_, View.size, View.null_view. cbn.
    eexists. split; [reflexivity|]. cbn [map View.start_]. rewrite Hnil.
    split; [reflexivity|]. repeat constructor; cbn [View.start_ View.length_]; lia.
  - destruct (IH a' ltac:(lia) Hfit' He ltac:(lia) Hhit' ltac:(lia))
      as (l & -> & Hmap & Hall).
    eexists. split; [reflexivity|]. cbn [map View.start_]. rewrite Hcons, Hmap.
    split; [reflexivity|]. constructor; [cbn [View.start_ View.length_]; lia|exact Hall].
Qed.

Lemma visit_all_matches (haystack : View.string_view) :
  0 <= View.start_ haystack -> 0 <= View.length_ haystack < 2 ^ 64 ->
  View.start_ haystack + View.length_ haystack <= limit ->
  exists l,
    View.visit (Datatypes.S (Z.to_nat (View.length_ haystack))) (View.begin_ haystack)
    = View.Done l /\
    map View.start_ l = filter hit (match_starts View.needle_length haystack) /\
    Forall (fun it => View.start_ it + View.length_ it
                      = View.start_ haystack + View.length_ haystack /\
                      View.needle_length <= View.length_ it) l.
Proof.
  destruct haystack as [s len]. cbn [View.start_ View.length_]. intros Hs Hlen Hlim.
  unfold View.begin_, View.iterator, match_starts. cbv zeta.
  cbn [View.start_ View.length_].
  pose proof (next_match s (s + len) ltac:(lia) Hlim ltac:(lia)) as N. cbv zeta in N.
  unfold matches_from in N.
  replace (s + len - s) with len in N by lia.
  replace (s + len - View.needle_length + 1 - s) with (len - View.needle_length + 1)
    in N by lia.
  destruct N as [(-> & Hnil)|(a' & Ha' & Hfit' & Hhit' & -> & Hcons)].
  - cbn [View.visit]. unfold View.iterator_ne, View.end_, View.size, View.null_view. cbn.
    eexists. split; [reflexivity|]. rewrite Hnil. split; [reflexivity|constructor].
  - destruct (visit_from_match (s + len) (Datatypes.S (Z.to_nat len)) a'
                ltac:(lia) Hfit' Hlim ltac:(lia) Hhit' ltac:(lia)) as (l & E & Hmap & Hall).
    exists l. split; [exact E|]. split; [|exact Hall].
    rewrite Hmap, Hcons. reflexivity.
Qed.

Lemma distance_counts_visits : forall fuel it,
  View.distance fuel it =
  match View.visit fuel it with
  | View.Done l => View.Done (Z.of_nat (length l))
  | View.AssertFailed => View.AssertFailed
  | View.OutOfFuel => View.OutOfFuel
  end.
Proof.
  induction fuel as [|fuel IH]; intros it; [reflexivity|].
  cbn [View.distance View.visit].
  destruct (View.iterator_ne it View.end_); [|reflexivity].
  destruct (View.increment it) as [it'| |]; try reflexivity.
  rewrite IH. destruct (View.visit fuel it') as [l| |]; try reflexivity.
  cbn [length]. f_equal. lia.
Qed.

End RangeMatchesProofs.

(** The scalar finder behind the matcher interface keeps the contract. *)
Lemma scalar_matcher_finds_first mem needle :
  1 <= blen needle < 2 ^ 64 ->
  finds_first_hit (stands_at mem needle) (blen mem) (scalar_matcher mem needle).
Proof.
  intros Hn v Hs Hl Hlim. cbv zeta.
  cbn [View.matcher_call View.needle_length scalar_matcher].
  set (hb := slice mem (View.start_ v) (View.length_ v)).
  assert (blen hb = View.length_ v) as Hlen by (apply blen_slice; lia).
  assert (needle_ok (mk_needle needle 0)) as Hok
    by (unfold needle_ok, n_len; cbn [n_bytes anomaly_offset]; lia).
  destruct (returns_ret _ _
              (find_substr_first false (mk_haystack (View.start_ v) hb) (mk_needle needle 0)
                 Hok (fun _ => plain_unsigned _))) as (r & E & F).
  rewrite E. unfold h_len, n_len in F. cbn [h_bytes n_bytes anomaly_offset] in F.
  rewrite Hlen in F.
  assert (forall j, 0 <= j <= View.length_ v - blen needle ->
            (occurs_at hb needle j <-> stands_at mem needle (View.start_ v + j) = true))
    as Hocc.
  { intros j Hj. unfold occurs_at, stands_at, hb.
    rewrite slice_slice by lia. symmetry. apply bytes_eqb_eq. }
  assert (forall a, View.start_ v <= a <= View.start_ v + View.length_ v - blen needle ->
            ~ occurs_at hb needle (a - View.start_ v) -> stands_at mem needle a = false)
    as Hmiss.
  { intros a Ha Hno. destruct (stands_at mem needle a) eqn:Ea; [|reflexivity].
    exfalso. apply Hno. apply Hocc; [lia|].
    now replace (View.start_ v + (a - View.start_ v)) with a by lia. }
  destruct F as [(Hr & Occ & Fst)|(-> & None)].
  - right. replace (r =? View.length_ v) with false by (symmetry; apply Z.eqb_neq; lia).
    assert (r <= View.length_ v - blen needle) as Hr' by (destruct (blen needle <=? 4); lia).
    split; [lia|]. split; [lia|]. split.
    + apply Hocc; [lia|exact Occ].
    + intros a Ha. apply Hmiss; [lia|]. apply Fst. lia.
  - left. rewrite Hlen, Z.eqb_refl. split; [reflexivity|].
    intros a Ha. apply Hmiss; [lia|]. apply None. destruct (blen needle <=? 4); lia.
Qed.

(** X29: over a matcher that returns the position of the first match in
    the view it is given, or [npos], and a needle of at least one
    character, the loop [for (it = begin(); it != end(); ++it)] of
    [range_matches] ends, fails no assertion, and visits the matches of
    the haystack one by one in increasing order, overlapping ones
    included: every address of a match exactly once, each iterator holding
    the rest of the haystack from its match on. *)
Theorem range_matches_visits_every_match (hit : Z -> bool) (limit : Z)
    (M : View.matcher) (haystack : View.string_view) :
  finds_first_hit hit limit M -> 1 <= @View.needle_length M ->
  0 <= View.start_ haystack -> 0 <= View.length_ haystack < 2 ^ 64 ->
  View.start_ haystack + View.length_ haystack <= limit ->
  exists l,
    @View.visit M (Datatypes.S (Z.to_nat (View.length_ haystack)))
                  (@View.begin_ M haystack) = View.Done l /\
    map View.start_ l = filter hit (match_starts (@View.needle_length M) haystack) /\
    Forall (fun it => View.start_ it + View.length_ it
                      = View.start_ haystack + View.length_ haystack /\
                      @View.needle_length M <= View.length_ it) l.
Proof.
  intros Hcontract Hneedle Hs Hlen Hlim.
  exact (visit_all_matches hit limit Hcontract Hneedle haystack Hs Hlen Hlim).
Qed.

Lemma range_matches_visits_every_match_witness :
  (finds_first_hit (stands_at banana ana) (blen banana) (scalar_matcher banana ana) /\
   1 <= @View.needle_length (scalar_matcher banana ana) /\
   0 <= View.start_ (View.mk_view 0 6) /\ 0 <= View.length_ (View.mk_view 0 6) < 2 ^ 64 /\
   View.start_ (View.mk_view 0 6) + View.length_ (View.mk_view 0 6) <= blen banana) /\
  exists l,
    @View.visit (scalar_matcher banana ana)
       (Datatypes.S (Z.to_nat (View.length_ (View.mk_view 0 6))))
       (@View.begin_ (scalar_matcher banana ana) (View.mk_view 0 6)) = View.Done l /\
    map View.start_ l
    = filter (stands_at banana ana)
        (match_starts (@View.needle_length (scalar_matcher banana ana)) (View.mk_view 0 6)) /\
    Forall (fun it => View.start_ it + View.length_ it
                      = View.start_ (View.mk_view 0 6) + View.length_ (View.mk_view 0 6) /\
                      @View.needle_length (scalar_matcher banana ana) <= View.length_ it) l.
Proof.
  assert (finds_first_hit (stands_at banana ana) (blen banana) (scalar_matcher banana ana))
    as Hcontract
    by (apply scalar_matcher_finds_first; vm_compute; split; [discriminate|reflexivity]).
  assert (1 <= @View.needle_length (scalar_matcher banana ana)) as Hneedle
    by (vm_compute; discriminate).
  assert (0 <= View.start_ (View.mk_view 0 6)) as Hs by (cbn; lia).
  assert (0 <= View.length_ (View.mk_view 0 6) < 2 ^ 64) as Hlen by (cbn; lia).
  assert (View.start_ (View.mk_view 0 6) + View.length_ (View.mk_view 0 6) <= blen banana)
    as Hlim by (vm_compute; discriminate).
  split; [auto 10|].
  exact (range_matches_visits_every_match (stands_at banana ana) (blen banana)
           (scalar_matcher banana ana) (View.mk_view 0 6) Hcontract Hneedle Hs Hlen Hlim).
Defined.

(** X30: under the same contract [range_matches::size()], the distance
    from [begin()] to [end()], is the number of addresses of the haystack
    at which a match starts, overlapping matches counted. *)
Theorem range_matches_size_counts_matches (hit : Z -> bool) (limit : Z)
    (M : View.matcher) (haystack : View.string_view) :
  finds_first_hit hit limit M -> 1 <= @View.needle_length M ->
  0 <= View.start_ haystack -> 0 <= View.length_ haystack < 2 ^ 64 ->
  View.start_ haystack + View.length_ haystack <= limit ->
  @View.range_size M haystack
  = View.Done (Z.of_nat (length (filter hit
                                   (match_starts (@View.needle_length M) haystack)))).
Proof.
  intros Hcontract Hneedle Hs Hlen Hlim. unfold View.range_size, View.size.
  rewrite distance_counts_visits.
  destruct (visit_all_matches hit limit Hcontract Hneedle haystack Hs Hlen Hlim)
    as (l & -> & Hmap & _).
  rewrite <- Hmap, length_map. reflexivity.
Qed.

Lemma range_matches_size_counts_matches_witness :
  (finds_first_hit (stands_at abracadabra abra) (blen abracadabra)
     (scalar_matcher abracadabra abra) /\
   1 <= @View.needle_length (scalar_matcher abracadabra abra) /\
   0 <= View.start_ (View.mk_view 0 11) /\ 0 <= View.length_ (View.mk_view 0 11) < 2 ^ 64 /\
   View.start_ (View.mk_view 0 11) + View.length_ (View.mk_view 0 11) <= blen abracadabra) /\
  @View.range_size (scalar_matcher abracadabra abra) (View.mk_view 0 11)
  = View.Done (Z.of_nat (length (filter (stands_at abracadabra abra)
      (match_starts (@View.needle_length (scalar_matcher abracadabra abra))
                    (View.mk_view 0 11))))).
Proof.
  assert (finds_first_hit (stands_at abracadabra abra) (blen abracadabra)
            (scalar_matcher abracadabra abra)) as Hcontract
    by (apply scalar_matcher_finds_first; vm_compute; split; [discriminate|reflexivity]).
  assert (1 <= @View.needle_length (scalar_matcher abracadabra abra)) as Hneedle
    by (vm_compute; discriminate).
  assert (0 <= View.start_ (View.mk_view 0 11)) as Hs by (cbn; lia).
  assert (0 <= View.length_ (View.mk_view 0 11) < 2 ^ 64) as Hlen by (cbn; lia).
  assert (View.start_ (View.mk_view 0 11) + View.length_ (View.mk_view 0 11)
          <= blen abracadabra) as Hlim by (vm_compute; discriminate).
  split; [auto 10|].
  exact (range_matches_size_counts_matches (stands_at abracadabra abra) (blen abracadabra)
           (scalar_matcher abracadabra abra) (View.mk_view 0 11)
           Hcontract Hneedle Hs Hlen Hlim).
Defined.
